(** * SAED traversal core: ontology graph, depth cache, selector, BFS executor

    A shallow embedding of the Python sources

      - [saed/core/ontology/dag.py]      (OntologyDAG.build_dag)
      - [saed/core/ontology/cache.py]    (CachedTree.get_subtree,
                                          OntologyCache.build_from_dag)
      - [saed/core/llm/parser.py]        (extract_answer, parse_class_list)
      - [saed/core/executor/run_executor.py]
                                         (DetailedSelector, RunExecutor)
      - [saed/core/labels/loader.py]     (parse_labels_to_paths,
                                          paths_to_string, string_to_paths)
      - [saed/core/evaluator/metrics.py] (flatten_list_to_set, the path-level
                                          and node-level metrics)
      - [saed/core/annotator/engine.py]  (bfs_search)

    Conventions of the embedding.

      - A Python [str] is a [string]; its characters are read as code points
        below 256.
      - A [dict] whose iteration order is observed ([nodes],
        [edges_subclassof], the cached node table) is an insertion-ordered
        association list ([odict]); a [dict] or [set] that is only probed
        ([selection_cache], [depths], [visited], the vote tallies) is a
        [gmap] or a [gset].
      - Code that may raise returns an [outcome]; code that talks to the
        language model, to [random] or to [time.sleep] threads a [World].
      - [while] loops are fuelled; each comes with a proof that enough fuel
        exists, so that a run always has an outcome.
      - Wall-clock fields ([timestamp], [latency_ms]) are left out of the
        records; the [async] variants have the control flow of the blocking
        ones and are not repeated.
      - Floats are the binary64 floats of [PrimFloat]. The built-in [sum] of
        the metrics is a variable of their section: what is proved about the
        metrics holds for any way of adding floats. *)

From Stdlib Require Import Floats.PrimFloat.
From Stdlib Require Numbers.Cyclic.Int63.Uint63.
From Stdlib Require Import ZArith Lia Ascii String Sorted.
From stdpp Require Import gmap strings list fin_maps pretty.

Local Open Scope string_scope.
Local Open Scope list_scope.

(* stdpp's solvers clear hypotheses that may be gone already. *)
Set Warnings "-clear-no-such-hyp".

(** ** Python values and control *)

(** The result of a call that may raise: the value, or the text of the
    exception ([str(e)]). *)
Inductive outcome (A : Type) : Type :=
| Returned (a : A)
| Raised (e : string).
Arguments Returned {A} a.
Arguments Raised {A} e.

(** ** Insertion-ordered dictionaries keyed by strings *)

Definition odict (V : Type) : Type := list (string * V).

(** [d.get(k)] *)
Fixpoint od_get {V} (d : odict V) (k : string) : option V :=
  match d with
  | [] => None
  | (k', v) :: d' => if decide (k' = k) then Some v else od_get d' k
  end.

(** [d[k] = v]: an existing key keeps its place, a new key goes last. *)
Fixpoint od_set {V} (d : odict V) (k : string) (v : V) : odict V :=
  match d with
  | [] => [(k, v)]
  | (k', v') :: d' =>
      if decide (k' = k) then (k', v) :: d' else (k', v') :: od_set d' k v
  end.

(** [k in d] *)
Definition od_mem {V} (d : odict V) (k : string) : bool :=
  match od_get d k with Some _ => true | None => false end.

Definition od_keys {V} (d : odict V) : list string := d.*1.
Definition od_values {V} (d : odict V) : list V := d.*2.

(** [d.get(k, [])] *)
Definition od_get_list {A} (d : odict (list A)) (k : string) : list A :=
  default [] (od_get d k).

(** ** Ontology classes and the DAG ([ontology/classes.py], [ontology/dag.py]) *)

Module OntologyClass.

Record t : Type := {
  url : string;
  name : string;
  label : option string;
  comment : option string
}.

End OntologyClass.

(** A member of [cls.is_a] as owlready2 hands it over: a class with an
    [iri], or a construct without one (a restriction). *)
Inductive OwlParent : Type :=
| ClassRef (iri : string)
| NoIri.

(** What [build_dag] reads of an owlready2 class. *)
Record OwlClass : Type := {
  cls_iri : string;
  cls_name : string;
  cls_label : list string;
  cls_comment : list string;
  cls_is_a : list OwlParent
}.

Module OntologyDAG.

Record t : Type := {
  nodes : odict OntologyClass.t;
  edges_subclassof : odict (list string);
  edges : odict (list string);
  root : string
}.

(** [Thing.iri] of owlready2. *)
Definition Thing_iri : string := "http://www.w3.org/2002/07/owl#Thing".

Definition Thing_node : OntologyClass.t := {|
  OntologyClass.url := Thing_iri;
  OntologyClass.name := "Thing";
  OntologyClass.label := Some "Thing";
  OntologyClass.comment := Some "Root class (owl:Thing)"
|}.

(** The body of [for parent in cls.is_a]. *)
Definition add_parent (url : string) (es : odict (list string))
    (parent : OwlParent) : odict (list string) :=
  match parent with
  | NoIri => es
  | ClassRef parent_url =>
      if decide (parent_url = url) then es
      else
        let es1 := if od_mem es parent_url then es else od_set es parent_url [] in
        od_set es1 parent_url (od_get_list es1 parent_url ++ [url])
  end.

(** The body of [for cls in onto.classes()]. *)
Definition add_class (st : odict OntologyClass.t * odict (list string))
    (cls : OwlClass) : odict OntologyClass.t * odict (list string) :=
  let url := cls_iri cls in
  (od_set st.1 url
     {| OntologyClass.url := url;
        OntologyClass.name := cls_name cls;
        OntologyClass.label := head (cls_label cls);
        OntologyClass.comment := head (cls_comment cls) |},
   foldl (add_parent url) st.2 (cls_is_a cls)).

Definition collect_classes (classes : list OwlClass)
    : odict OntologyClass.t * odict (list string) :=
  foldl add_class ([], []) classes.

(** Reverse edges (child -> parents). *)
Definition reverse_edges (nodes : odict OntologyClass.t)
    (es : odict (list string)) : odict (list string) :=
  foldl
    (fun acc pc =>
       foldl
         (fun acc child =>
            if od_mem acc child
            then od_set acc child (od_get_list acc child ++ [pc.1])
            else acc)
         acc pc.2)
    (foldl (fun acc k => od_set acc k []) [] (od_keys nodes))
    es.

(** [all_children]: every url that occurs in some children list. *)
Definition all_children (es : odict (list string)) : gset string :=
  foldl (fun acc children => acc ∪ list_to_set children) ∅ (od_values es).

(** [root_candidates]: the classes that are no one's child, in node order. *)
Definition root_candidates (nodes : odict OntologyClass.t)
    (es : odict (list string)) : list string :=
  filter (fun url => url ∉ all_children es) (od_keys nodes).

(** [build_dag], from the classes of the loaded ontology. *)
Definition build_dag (classes : list OwlClass) : t :=
  let '(nodes0, es0) := collect_classes classes in
  let edges0 := reverse_edges nodes0 es0 in
  match root_candidates nodes0 es0 with
  | [r] =>
      {| nodes := nodes0; edges_subclassof := es0; edges := edges0; root := r |}
  | (_ :: _ :: _) as candidates =>
      {| nodes := od_set nodes0 Thing_iri Thing_node;
         edges_subclassof := od_set es0 Thing_iri candidates;
         edges := edges0;
         root := Thing_iri |}
  | [] =>
      {| nodes := if od_mem nodes0 Thing_iri then nodes0
                  else od_set nodes0 Thing_iri Thing_node;
         edges_subclassof := es0;
         edges := edges0;
         root := Thing_iri |}
  end.

(** [get_children] *)
Definition get_children (dag : t) (url : string) : list string :=
  od_get_list (edges_subclassof dag) url.

End OntologyDAG.

(** ** The depth cache ([ontology/cache.py]) *)

(** A value of the [metadata] dictionary. *)
Inductive MetaVal : Type :=
| MStr (s : string)
| MInt (z : Z)
| MBool (b : bool)
| MNone.

(** The children still to be read of the entries the walk has not visited:
    what bounds the pushes the two breadth-first walks can still make. *)
Definition unvisited_weight {V} (w : V -> nat) (d : odict V)
    (visited : gset string) : nat :=
  sum_list ((fun kv => if decide (kv.1 ∈ visited) then 0 else w kv.2) <$> d).

Module CachedNode.

Record t : Type := {
  url : string;
  name : string;
  label : option string;
  comment : option string;
  children : list string;
  depth : nat;
  has_more : bool
}.

End CachedNode.

Module CachedTree.

Record t : Type := {
  root : string;
  nodes : odict CachedNode.t;
  metadata : odict MetaVal
}.

(** The variables of the [while queue] loop of [get_subtree]. *)
Record walk : Type := {
  result_nodes : odict CachedNode.t;
  queue : list (string * nat);
  visited : gset string
}.

(** [max_depth is not None and relative_depth >= max_depth] *)
Definition at_depth_limit (max_depth : option Z) (relative_depth : nat) : bool :=
  match max_depth with
  | Some m => bool_decide (m ≤ Z.of_nat relative_depth)%Z
  | None => false
  end.

(** The [has_more] flag of a node that is not at the limit. *)
Definition children_truncated (self : t) (max_depth : option Z)
    (relative_depth : nat) (node : CachedNode.t) : bool :=
  match max_depth with
  | None => false
  | Some m =>
      existsb
        (fun child_url =>
           match od_get (nodes self) child_url with
           | Some child =>
               bool_decide (0 < length (CachedNode.children child))
               && bool_decide (m ≤ Z.of_nat relative_depth + 1)%Z
           | None => false
           end)
        (CachedNode.children node)
  end.

(** One iteration of the loop, the popped entry being [(url, relative_depth)]
    and [rest] the queue left. *)
Definition subtree_step (self : t) (max_depth : option Z) (w : walk)
    (url : string) (relative_depth : nat) (rest : list (string * nat)) : walk :=
  if decide (url ∈ visited w) then
    {| result_nodes := result_nodes w; queue := rest; visited := visited w |}
  else
    let visited' := {[url]} ∪ visited w in
    match od_get (nodes self) url with
    | None =>
        {| result_nodes := result_nodes w; queue := rest; visited := visited' |}
    | Some node =>
        if at_depth_limit max_depth relative_depth then
          {| result_nodes :=
               od_set (result_nodes w) url
                 {| CachedNode.url := CachedNode.url node;
                    CachedNode.name := CachedNode.name node;
                    CachedNode.label := CachedNode.label node;
                    CachedNode.comment := CachedNode.comment node;
                    CachedNode.children := [];
                    CachedNode.depth := CachedNode.depth node;
                    CachedNode.has_more :=
                      bool_decide (0 < length (CachedNode.children node)) |};
             queue := rest;
             visited := visited' |}
        else
          {| result_nodes :=
               od_set (result_nodes w) url
                 {| CachedNode.url := CachedNode.url node;
                    CachedNode.name := CachedNode.name node;
                    CachedNode.label := CachedNode.label node;
                    CachedNode.comment := CachedNode.comment node;
                    CachedNode.children := CachedNode.children node;
                    CachedNode.depth := CachedNode.depth node;
                    CachedNode.has_more :=
                      children_truncated self max_depth relative_depth node |};
             queue :=
               rest ++
               ((fun child_url => (child_url, relative_depth + 1)) <$>
                  filter (fun child_url => child_url ∉ visited')
                    (CachedNode.children node));
             visited := visited' |}
    end.

Fixpoint subtree_loop (fuel : nat) (self : t) (max_depth : option Z)
    (w : walk) : option (odict CachedNode.t) :=
  match fuel with
  | O => None
  | S fuel' =>
      match queue w with
      | [] => Some (result_nodes w)
      | (url, relative_depth) :: rest =>
          subtree_loop fuel' self max_depth
            (subtree_step self max_depth w url relative_depth rest)
      end
  end.

(** Iterations that always suffice: one per push, one more to see the
    queue empty. *)
Definition subtree_fuel (self : t) : nat :=
  unvisited_weight (fun n => length (CachedNode.children n)) (nodes self) ∅ + 2.

(** [root_url or self.root], then the fall-back to the tree's own root. *)
Definition start_of (self : t) (root_url : option string) : string :=
  let start_url :=
    match root_url with
    | Some u => if decide (u = "") then root self else u
    | None => root self
    end in
  if negb (od_mem (nodes self) start_url)
     && negb (bool_decide (start_url = root self))
  then root self
  else start_url.

(** [get_subtree]; [None] only if the loop ran out of fuel. *)
Definition get_subtree (self : t) (root_url : option string)
    (max_depth : option Z) : option t :=
  let start_url := start_of self root_url in
  match
    subtree_loop (subtree_fuel self) self max_depth
      {| result_nodes := []; queue := [(start_url, 0)]; visited := ∅ |}
  with
  | None => None
  | Some result =>
      Some
        {| root := start_url;
           nodes := result;
           metadata :=
             od_set
               (od_set
                  (od_set (metadata self) "truncated"
                     (MBool
                        (match max_depth with
                         | Some _ =>
                             bool_decide (length result < length (nodes self))
                         | None => false
                         end)))
                  "subtree_root" (MStr start_url))
               "max_depth"
               (match max_depth with Some m => MInt m | None => MNone end) |}
  end.

End CachedTree.

Module OntologyCache.

(** The variables of the [while queue] loop of [build_from_dag]. *)
Record walk : Type := {
  depths : gmap string nat;
  queue : list (string * nat);
  visited : gset string
}.

Definition depths_step (dag : OntologyDAG.t) (w : walk)
    (url : string) (depth : nat) (rest : list (string * nat)) : walk :=
  if decide (url ∈ visited w) then
    {| depths := depths w; queue := rest; visited := visited w |}
  else
    let visited' := {[url]} ∪ visited w in
    {| depths := <[url := depth]> (depths w);
       queue :=
         rest ++
         ((fun child_url => (child_url, depth + 1)) <$>
            filter (fun child_url => child_url ∉ visited')
              (od_get_list (OntologyDAG.edges_subclassof dag) url));
       visited := visited' |}.

Fixpoint depths_loop (fuel : nat) (dag : OntologyDAG.t) (w : walk)
    : option (gmap string nat) :=
  match fuel with
  | O => None
  | S fuel' =>
      match queue w with
      | [] => Some (depths w)
      | (url, depth) :: rest =>
          depths_loop fuel' dag (depths_step dag w url depth rest)
      end
  end.

Definition depths_fuel (dag : OntologyDAG.t) : nat :=
  unvisited_weight (@length string) (OntologyDAG.edges_subclassof dag) ∅ + 2.

(** The body of [for url, ontology_class in dag.nodes.items()]. *)
Definition add_node (dag : OntologyDAG.t) (depths : gmap string nat)
    (acc : odict CachedNode.t * nat) (entry : string * OntologyClass.t)
    : odict CachedNode.t * nat :=
  let url := entry.1 in
  let depth := default 0 (depths !! url) in
  (od_set acc.1 url
     {| CachedNode.url := url;
        CachedNode.name := OntologyClass.name entry.2;
        CachedNode.label := OntologyClass.label entry.2;
        CachedNode.comment := OntologyClass.comment entry.2;
        CachedNode.children := od_get_list (OntologyDAG.edges_subclassof dag) url;
        CachedNode.depth := depth;
        CachedNode.has_more := false |},
   acc.2 `max` depth).

(** [build_from_dag]; [cached_at] is the text of [datetime.now()], and the
    result is [None] only if the loop ran out of fuel. *)
Definition build_from_dag (dag : OntologyDAG.t) (source_hash cached_at : string)
    : option CachedTree.t :=
  match
    depths_loop (depths_fuel dag) dag
      {| depths := ∅; queue := [(OntologyDAG.root dag, 0)]; visited := ∅ |}
  with
  | None => None
  | Some depths =>
      let built := foldl (add_node dag depths) ([], 0) (OntologyDAG.nodes dag) in
      Some
        {| CachedTree.root := OntologyDAG.root dag;
           CachedTree.nodes := built.1;
           CachedTree.metadata :=
             [("source_hash", MStr source_hash);
              ("cached_at", MStr cached_at);
              ("total_nodes", MInt (Z.of_nat (length built.1)));
              ("max_depth", MInt (Z.of_nat built.2))] |}
  end.

End OntologyCache.

(** ** Strings as Python handles them *)

(** [str.isspace] on one character (code points below 256). *)
Definition py_isspace (c : ascii) : bool :=
  let n := nat_of_ascii c in
  (((9 <=? n) && (n <=? 13)) || ((28 <=? n) && (n <=? 32))
   || (n =? 133) || (n =? 160))%nat.

Fixpoint lstrip (s : string) : string :=
  match s with
  | EmptyString => EmptyString
  | String c s' => if py_isspace c then lstrip s' else s
  end.

Fixpoint rstrip (s : string) : string :=
  match s with
  | EmptyString => EmptyString
  | String c s' =>
      match rstrip s' with
      | EmptyString => if py_isspace c then EmptyString else String c EmptyString
      | r => String c r
      end
  end.

(** [s.strip()] *)
Definition strip (s : string) : string := rstrip (lstrip s).

(** [s.split(",")] *)
Fixpoint split_comma (s : string) : list string :=
  match s with
  | EmptyString => [EmptyString]
  | String c s' =>
      if Ascii.eqb c "," then EmptyString :: split_comma s'
      else
        match split_comma s' with
        | w :: ws => String c w :: ws
        | [] => [String c EmptyString]
        end
  end.

(** [sep.join(l)] *)
Fixpoint join (sep : string) (l : list string) : string :=
  match l with
  | [] => ""
  | [x] => x
  | x :: l' => x +:+ sep +:+ join sep l'
  end.

(** What is left of [s] after the prefix [pat], if [s] starts with it. *)
Fixpoint strip_prefix (pat s : string) : option string :=
  match pat, s with
  | EmptyString, _ => Some s
  | String a pat', String b s' =>
      if Ascii.eqb a b then strip_prefix pat' s' else None
  | String _ _, EmptyString => None
  end.

(** The text before and after the first occurrence of [pat] in [s]. *)
Fixpoint cut_at (pat s : string) : option (string * string) :=
  match strip_prefix pat s with
  | Some rest => Some (EmptyString, rest)
  | None =>
      match s with
      | EmptyString => None
      | String c s' =>
          match cut_at pat s' with
          | Some (before, rest) => Some (String c before, rest)
          | None => None
          end
      end
  end.

(** The first match of [<tag>(.*?)</tag>] with [re.DOTALL], stripped: the
    text between the first opening tag and the first closing tag after it. *)
Definition first_tagged (open_tag close_tag response : string) : option string :=
  match cut_at open_tag response with
  | Some (_, rest) =>
      match cut_at close_tag rest with
      | Some (body, _) => Some (strip body)
      | None => None
      end
  | None => None
  end.

(** ** Parsing the answer of the language model ([llm/parser.py]) *)

Definition extract_answer (response : string) : option string :=
  first_tagged "<answer>" "</answer>" response.

Definition extract_reasoning (response : string) : option string :=
  first_tagged "<reasoning>" "</reasoning>" response.

(** [not answer or answer == "-"] *)
Definition no_answer (answer : string) : bool :=
  bool_decide (answer = "") || bool_decide (answer = "-").

Definition parse_class_list (answer : string) : list string :=
  if no_answer answer then [] else strip <$> split_comma answer.

(** ** The records of [run_executor.py] *)

Module LLMResult.
Record t : Type := {
  content : string;
  input_tokens : option Z;
  output_tokens : option Z;
  total_tokens : option Z
}.
End LLMResult.

(** The [data] dictionary handed to [LLM.generate]. *)
Module LlmData.
Record t : Type := {
  table_name : string;
  table_in_markdown : string;
  column_name : string;
  current_level_ontology_classes : string
}.
End LlmData.

Module LLMRequestDetail.
Record t : Type := {
  prompt : string;
  model : string
}.
End LLMRequestDetail.

Module LLMResponseDetail.
Record t : Type := {
  raw : string;
  reasoning : option string;
  answer : string;
  input_tokens : option Z;
  output_tokens : option Z;
  total_tokens : option Z
}.
End LLMResponseDetail.

Module AgentResultDetail.
Record t : Type := {
  agent_id : nat;
  assigned_classes : list string;
  llm_request : option LLMRequestDetail.t;
  llm_response : option LLMResponseDetail.t;
  voted_classes : list string;
  status : string;
  error : option string
}.
End AgentResultDetail.

Module VoteSummaryDetail.
Record t : Type := {
  class_name : string;
  vote_count : nat;
  total_agents : nat;
  percentage : PrimFloat.float;
  selected : bool
}.
End VoteSummaryDetail.

Module EDMResultDetail.
Record t : Type := {
  consensus_threshold : PrimFloat.float;
  total_agents : nat;
  votes_summary : list VoteSummaryDetail.t;
  agents : list AgentResultDetail.t
}.
End EDMResultDetail.

Module SelectionResult.
Record t : Type := {
  selected : list string;
  status : string;
  error : option string;
  llm_request : option LLMRequestDetail.t;
  llm_response : option LLMResponseDetail.t;
  edm_result : option EDMResultDetail.t
}.
End SelectionResult.

Module BFSStepDetail.
Record t : Type := {
  level : nat;
  parent : string;
  candidates : list string;
  selected : list string;
  status : string;
  error : option string;
  llm_request : option LLMRequestDetail.t;
  llm_response : option LLMResponseDetail.t;
  edm_result : option EDMResultDetail.t
}.
End BFSStepDetail.

Module ColumnResultDetail.
Record t : Type := {
  column_name : string;
  status : string;
  steps : list BFSStepDetail.t;
  final_paths : list (list string);
  error : option string
}.
End ColumnResultDetail.

(** [EDMOptions] of [config/settings.py]. *)
Module EDMOptions.
Record t : Type := {
  classes_per_agent : Z;
  agents_per_class : Z;
  consensus_threshold : PrimFloat.float
}.
(** The defaults: 30, 3 and the binary64 value of [0.8]. *)
Definition default : t := {|
  classes_per_agent := 30;
  agents_per_class := 3;
  consensus_threshold := 0x1.999999999999ap-1%float
|}.
End EDMOptions.

(** ** The environment of a selector: language model, [random], [time] *)

(** [llm_generate] is [LLM.generate]: it answers or raises, and may depend
    on everything it was asked before. [random_sample n k] is
    [random.sample(range(n), k)] for [0 <= k <= n]. *)
Record Env : Type := {
  llm_state : Type;
  rng_state : Type;
  llm_generate :
    LlmData.t -> llm_state -> llm_state * outcome LLMResult.t;
  random_sample : nat -> nat -> rng_state -> rng_state * list nat
}.

(** What a selector changes outside itself. [slept] lists the arguments of
    [time.sleep], [calls] the arguments of [LLM.generate], both in order. *)
Record World (E : Env) : Type := {
  llm : llm_state E;
  rng : rng_state E;
  slept : list Z;
  calls : list LlmData.t
}.
Arguments llm {E} _.
Arguments rng {E} _.
Arguments slept {E} _.
Arguments calls {E} _.

(** [a / b] on two [int]s (true division), for counts below [2^53]. *)
Definition py_truediv (a b : nat) : PrimFloat.float :=
  PrimFloat.div
    (PrimFloat.of_uint63 (Uint63.of_Z (Z.of_nat a)))
    (PrimFloat.of_uint63 (Uint63.of_Z (Z.of_nat b))).

(** The line feed of the prompt. *)
Definition LF : string := String (ascii_of_nat 10) EmptyString.

(** ** [DetailedSelector] *)

Module DetailedSelector.

Record t : Type := {
  mode : string;
  prompt_type : string;
  edm_options : EDMOptions.t;
  max_retries : Z;
  model_name : string
}.

(** The running totals of the agent loop of [select_edm]. *)
Record tally : Type := {
  agent_results : list AgentResultDetail.t;
  votes_per_class : gmap string nat;
  failed_agents : nat
}.

Section with_env.
Context {E : Env}.

(** A method of the selector: it changes the world and returns or raises. *)
Definition M (A : Type) : Type := World E -> World E * outcome A.

Definition ret {A} (a : A) : M A := fun w => (w, Returned a).

Definition raise {A} (e : string) : M A := fun w => (w, Raised e).

Definition bind {A B} (m : M A) (k : A -> M B) : M B :=
  fun w =>
    match m w with
    | (w', Returned a) => k a w'
    | (w', Raised e) => (w', Raised e)
    end.

Local Notation "'do' x <- m ; k" := (bind m (fun x => k))
  (at level 10, x name, m at level 100, k at level 200).

Definition _build_prompt (data : LlmData.t) : string :=
  "Table: " +:+ LlmData.table_name data +:+ LF +:+
  "Column: " +:+ LlmData.column_name data +:+ LF +:+
  "Table Preview:" +:+ LF +:+ LlmData.table_in_markdown data +:+ LF +:+
  "Candidates: " +:+ LlmData.current_level_ontology_classes data.

(** [time.sleep(seconds)] *)
Definition sleep (seconds : Z) (w : World E) : World E :=
  {| llm := llm w; rng := rng w; slept := slept w ++ [seconds]; calls := calls w |}.

(** [self.llm.generate(data)], the call being recorded. *)
Definition generate (data : LlmData.t) (w : World E)
    : World E * outcome LLMResult.t :=
  let '(l', res) := llm_generate E data (llm w) in
  ({| llm := l'; rng := rng w; slept := slept w; calls := calls w ++ [data] |},
   res).

(** The [try] block of one attempt, once [generate] has answered. *)
Definition response_of (self : t) (llm_result : LLMResult.t) : LLMResponseDetail.t :=
  let raw_response := LLMResult.content llm_result in
  {| LLMResponseDetail.raw := raw_response;
     LLMResponseDetail.reasoning :=
       if decide (prompt_type self = "cot")
       then extract_reasoning raw_response else None;
     LLMResponseDetail.answer := default "" (extract_answer raw_response);
     LLMResponseDetail.input_tokens := LLMResult.input_tokens llm_result;
     LLMResponseDetail.output_tokens := LLMResult.output_tokens llm_result;
     LLMResponseDetail.total_tokens := LLMResult.total_tokens llm_result |}.

(** [for attempt in range(self.max_retries)], over the attempts left: the
    response of the first attempt that does not raise, or the last error. *)
Fixpoint attempt_loop (self : t) (data : LlmData.t) (attempts : list nat)
    (last_error : option string) (w : World E)
    : World E * (LLMResponseDetail.t + option string) :=
  match attempts with
  | [] => (w, inr last_error)
  | attempt :: attempts' =>
      match generate data w with
      | (w1, Returned llm_result) => (w1, inl (response_of self llm_result))
      | (w1, Raised e) =>
          attempt_loop self data attempts' (Some e)
            (if bool_decide (Z.of_nat attempt < max_retries self - 1)%Z
             then sleep (2 ^ Z.of_nat attempt) w1
             else w1)
      end
  end.

Definition _call_llm_with_retry (self : t) (data : LlmData.t)
    : M (LLMRequestDetail.t * LLMResponseDetail.t) :=
  fun w =>
    let request :=
      {| LLMRequestDetail.prompt := _build_prompt data;
         LLMRequestDetail.model := model_name self |} in
    match
      attempt_loop self data (seq 0 (Z.to_nat (max_retries self))) None w
    with
    | (w', inl response) => (w', Returned (request, response))
    | (w', inr last_error) =>
        (w',
         Returned
           (request,
            {| LLMResponseDetail.raw :=
                 "Error after " +:+ pretty (max_retries self) +:+
                 " retries: " +:+ default "None" last_error;
               LLMResponseDetail.reasoning := None;
               LLMResponseDetail.answer := "";
               LLMResponseDetail.input_tokens := None;
               LLMResponseDetail.output_tokens := None;
               LLMResponseDetail.total_tokens := None |}))
    end.

Definition data_for (table_name table_in_markdown column_name : string)
    (classes : list string) : LlmData.t :=
  {| LlmData.table_name := table_name;
     LlmData.table_in_markdown := table_in_markdown;
     LlmData.column_name := column_name;
     LlmData.current_level_ontology_classes := join ", " classes |}.

Definition select_single (self : t)
    (table_name table_in_markdown column_name : string)
    (candidates : list string) : M SelectionResult.t :=
  fun w =>
    match candidates with
    | [] =>
        (w,
         Returned
           {| SelectionResult.selected := [];
              SelectionResult.status := "completed";
              SelectionResult.error := None;
              SelectionResult.llm_request := None;
              SelectionResult.llm_response := None;
              SelectionResult.edm_result := None |})
    | _ :: _ =>
        let data :=
          data_for table_name table_in_markdown column_name candidates in
        match _call_llm_with_retry self data w with
        | (w', Returned (request, response)) =>
            (w',
             Returned
               {| SelectionResult.selected :=
                    if no_answer (LLMResponseDetail.answer response) then []
                    else
                      filter (fun cls => cls ∈ candidates)
                        (parse_class_list (LLMResponseDetail.answer response));
                  SelectionResult.status := "completed";
                  SelectionResult.error := None;
                  SelectionResult.llm_request := Some request;
                  SelectionResult.llm_response := Some response;
                  SelectionResult.edm_result := None |})
        | (w', Raised e) =>
            (w',
             Returned
               {| SelectionResult.selected := [];
                  SelectionResult.status := "failed";
                  SelectionResult.error := Some e;
                  SelectionResult.llm_request := None;
                  SelectionResult.llm_response := None;
                  SelectionResult.edm_result := None |})
        end
    end.

(** [random.sample(range(n), k)]: a [ValueError] unless [0 <= k <= len]. *)
Definition py_random_sample (n k : Z) : M (list nat) :=
  fun w =>
    if bool_decide (k < 0 \/ Z.max n 0 < k)%Z
    then (w, Raised "Sample larger than population or is negative")
    else
      let '(r', picked) := random_sample E (Z.to_nat n) (Z.to_nat k) (rng w) in
      ({| llm := llm w; rng := r'; slept := slept w; calls := calls w |},
       Returned picked).

(** [agents_assignments[agent].append(class_)] *)
Definition append_class (class_ : string) (assignments : list (list string))
    (agent : nat) : outcome (list (list string)) :=
  if bool_decide (agent < length assignments)
  then Returned (alter (fun l => l ++ [class_]) agent assignments)
  else Raised "list index out of range".

(** [for agent in assigned_agents] *)
Fixpoint append_to_agents (class_ : string) (assigned_agents : list nat)
    (assignments : list (list string)) : outcome (list (list string)) :=
  match assigned_agents with
  | [] => Returned assignments
  | agent :: rest =>
      match append_class class_ assignments agent with
      | Returned assignments' => append_to_agents class_ rest assignments'
      | Raised e => Raised e
      end
  end.

(** [assigned_agents] for one class. *)
Definition agents_for (num_agents avg_agents_per_class : Z) : M (list nat) :=
  if bool_decide (num_agents < avg_agents_per_class)%Z
  then ret (seq 0 (Z.to_nat num_agents))
  else py_random_sample num_agents avg_agents_per_class.

(** [for class_ in classes] *)
Fixpoint assign_loop (classes : list string)
    (num_agents avg_agents_per_class : Z)
    (assignments : list (list string)) : M (list (list string)) :=
  match classes with
  | [] => ret assignments
  | class_ :: rest =>
      do assigned_agents <- agents_for num_agents avg_agents_per_class;
      match append_to_agents class_ assigned_agents assignments with
      | Returned assignments' =>
          assign_loop rest num_agents avg_agents_per_class assignments'
      | Raised e => raise e
      end
  end.

Definition _assign_classes_to_agents (classes : list string)
    (num_agents avg_agents_per_class : Z) : M (list (list string)) :=
  do assignments <-
    assign_loop classes num_agents avg_agents_per_class
      (replicate (Z.to_nat num_agents) []);
  ret (match assignments with [] => [classes] | _ :: _ => assignments end).

(** [votes_per_class[cls] += 1] *)
Definition add_vote (votes : gmap string nat) (cls : string)
    : gmap string nat :=
  <[cls := default 0 (votes !! cls) + 1]> votes.

(** The body of the agent loop of [select_edm]. *)
Definition agent_vote (self : t)
    (table_name table_in_markdown column_name : string) (acc : tally)
    (agent_id : nat) (agent_classes : list string) (w : World E)
    : World E * tally :=
  let record llm_request llm_response voted_classes status error :=
    {| AgentResultDetail.agent_id := agent_id;
       AgentResultDetail.assigned_classes := agent_classes;
       AgentResultDetail.llm_request := llm_request;
       AgentResultDetail.llm_response := llm_response;
       AgentResultDetail.voted_classes := voted_classes;
       AgentResultDetail.status := status;
       AgentResultDetail.error := error |} in
  match agent_classes with
  | [] =>
      (w,
       {| agent_results :=
            agent_results acc ++ [record None None [] "success" None];
          votes_per_class := votes_per_class acc;
          failed_agents := failed_agents acc |})
  | _ :: _ =>
      let data :=
        data_for table_name table_in_markdown column_name agent_classes in
      match _call_llm_with_retry self data w with
      | (w', Returned (request, response)) =>
          let valid_votes :=
            if no_answer (LLMResponseDetail.answer response) then []
            else
              filter (fun c => c ∈ agent_classes)
                (parse_class_list (LLMResponseDetail.answer response)) in
          (w',
           {| agent_results :=
                agent_results acc ++
                [record (Some request) (Some response) valid_votes "success" None];
              votes_per_class := foldl add_vote (votes_per_class acc) valid_votes;
              failed_agents := failed_agents acc |})
      | (w', Raised e) =>
          (w',
           {| agent_results :=
                agent_results acc ++ [record None None [] "failed" (Some e)];
              votes_per_class := votes_per_class acc;
              failed_agents := failed_agents acc + 1 |})
      end
  end.

(** [for agent_id, agent_classes in enumerate(agents_assignments, start=...)] *)
Fixpoint agents_loop (self : t)
    (table_name table_in_markdown column_name : string) (acc : tally)
    (agent_id : nat) (agents_assignments : list (list string)) (w : World E)
    : World E * tally :=
  match agents_assignments with
  | [] => (w, acc)
  | agent_classes :: rest =>
      let '(w', acc') :=
        agent_vote self table_name table_in_markdown column_name acc
          agent_id agent_classes w in
      agents_loop self table_name table_in_markdown column_name acc'
        (S agent_id) rest w'
  end.

(** [agents_that_saw_class] *)
Definition count_seen (candidates : list string)
    (agents_assignments : list (list string)) : gmap string nat :=
  foldl
    (fun seen class_ =>
       <[class_ :=
           length
             (filter (fun agent_classes => class_ ∈ agent_classes)
                agents_assignments)]> seen)
    ∅ candidates.

(** The body of the loop that builds the vote summaries. *)
Definition summarize (consensus_threshold : float)
    (agents_that_saw_class votes_per_class : gmap string nat)
    (acc : list VoteSummaryDetail.t * list string) (class_ : string)
    : list VoteSummaryDetail.t * list string :=
  let seen_by := default 0 (agents_that_saw_class !! class_) in
  if bool_decide (0 < seen_by) then
    let votes := default 0 (votes_per_class !! class_) in
    let percentage := py_truediv votes seen_by in
    let is_selected :=
      PrimFloat.leb consensus_threshold percentage && bool_decide (0 < votes) in
    (acc.1 ++
     [{| VoteSummaryDetail.class_name := class_;
         VoteSummaryDetail.vote_count := votes;
         VoteSummaryDetail.total_agents := seen_by;
         VoteSummaryDetail.percentage := percentage;
         VoteSummaryDetail.selected := is_selected |}],
     if is_selected then acc.2 ++ [class_] else acc.2)
  else acc.

(** [votes_summary.sort(key=lambda x: x.vote_count, reverse=True)]: a stable
    sort, larger counts first. *)
Fixpoint insert_by_votes (v : VoteSummaryDetail.t)
    (sorted : list VoteSummaryDetail.t) : list VoteSummaryDetail.t :=
  match sorted with
  | [] => [v]
  | x :: sorted' =>
      if bool_decide (VoteSummaryDetail.vote_count x < VoteSummaryDetail.vote_count v)
      then v :: x :: sorted'
      else x :: insert_by_votes v sorted'
  end.

Definition sort_by_votes (summary : list VoteSummaryDetail.t)
    : list VoteSummaryDetail.t :=
  foldl (fun sorted v => insert_by_votes v sorted) [] summary.

(** [select_edm] from "Count how many agents saw each class" on, the
    classes being assigned. *)
Definition collect_votes (self : t)
    (table_name table_in_markdown column_name : string)
    (candidates : list string) (agents_assignments : list (list string))
    : M SelectionResult.t :=
  fun w =>
    let consensus_threshold :=
      EDMOptions.consensus_threshold (edm_options self) in
    let agents_that_saw_class := count_seen candidates agents_assignments in
    let '(w', voted) :=
      agents_loop self table_name table_in_markdown column_name
        {| agent_results := []; votes_per_class := ∅; failed_agents := 0 |}
        1 agents_assignments w in
    let summary :=
      foldl
        (summarize consensus_threshold agents_that_saw_class
           (votes_per_class voted))
        ([], []) candidates in
    let failed :=
      bool_decide
        (Z.of_nat (length agents_assignments)
         < 2 * Z.of_nat (failed_agents voted))%Z in
    (w',
     Returned
       {| SelectionResult.selected := summary.2;
          SelectionResult.status := if failed then "failed" else "completed";
          SelectionResult.error :=
            if failed
            then Some (pretty (failed_agents voted) +:+ "/" +:+
                       pretty (length agents_assignments) +:+
                       " agents failed")
            else None;
          SelectionResult.llm_request := None;
          SelectionResult.llm_response := None;
          SelectionResult.edm_result :=
            Some
              {| EDMResultDetail.consensus_threshold := consensus_threshold;
                 EDMResultDetail.total_agents := length agents_assignments;
                 EDMResultDetail.votes_summary := sort_by_votes summary.1;
                 EDMResultDetail.agents := agent_results voted |} |}).

(** [num_agents] of [select_edm], the divisor being non-zero. *)
Definition num_agents_for (self : t) (candidates : list string) : Z :=
  (EDMOptions.agents_per_class (edm_options self) `max`
   ((Z.of_nat (length candidates)
     * EDMOptions.agents_per_class (edm_options self))
    `div` EDMOptions.classes_per_agent (edm_options self) + 1))%Z.

Definition select_edm (self : t)
    (table_name table_in_markdown column_name : string)
    (candidates : list string) : M SelectionResult.t :=
  match candidates with
  | [] =>
      ret
        {| SelectionResult.selected := [];
           SelectionResult.status := "completed";
           SelectionResult.error := None;
           SelectionResult.llm_request := None;
           SelectionResult.llm_response := None;
           SelectionResult.edm_result := None |}
  | _ :: _ =>
      if decide (EDMOptions.classes_per_agent (edm_options self) = 0%Z)
      then raise "integer division or modulo by zero"
      else
        do agents_assignments <-
          _assign_classes_to_agents candidates
            (num_agents_for self candidates)
            (EDMOptions.agents_per_class (edm_options self));
        collect_votes self table_name table_in_markdown column_name
          candidates agents_assignments
  end.

Definition select (self : t)
    (table_name table_in_markdown column_name : string)
    (candidates : list string) : M SelectionResult.t :=
  if decide (mode self = "edm")
  then select_edm self table_name table_in_markdown column_name candidates
  else select_single self table_name table_in_markdown column_name candidates.

End with_env.

End DetailedSelector.

(** ** [RunExecutor] *)

(** What [execute_column] needs of [self.selector]: a [select] method over
    some state of its own. *)
Record Selector : Type := {
  sel_state : Type;
  sel_select :
    string -> string -> string -> list string ->
    sel_state -> sel_state * outcome SelectionResult.t
}.

(** The selector [RunExecutor.__init__] builds. *)
Definition detailed_selector (E : Env) (self : DetailedSelector.t) : Selector :=
  {| sel_state := World E; sel_select := DetailedSelector.select self |}.

Module RunExecutor.

Record t : Type := {
  selector : Selector;
  max_depth : Z
}.

(** The locals of [execute_column] during the [while queue] loop, the state
    of the selector, and two logs kept for the proofs: [events] holds what
    [_emit_event] was given, [invoked] the [parent_url] of each call of
    [self.selector.select]. *)
Record state (S : Type) : Type := {
  steps : list BFSStepDetail.t;
  final_paths : list (list string);
  selection_cache : gmap string SelectionResult.t;
  queue : list (nat * string * list string);
  events : list (BFSStepDetail.t * list string);
  sel : S;
  invoked : list string
}.
Arguments steps {S} _.
Arguments final_paths {S} _.
Arguments selection_cache {S} _.
Arguments queue {S} _.
Arguments events {S} _.
Arguments sel {S} _.
Arguments invoked {S} _.

Section updates.
Context {S : Type}.

(** [final_paths.append(path)] *)
Definition push_path (st : state S) (path : list string) : state S :=
  {| steps := steps st; final_paths := final_paths st ++ [path];
     selection_cache := selection_cache st; queue := queue st;
     events := events st; sel := sel st; invoked := invoked st |}.

(** [if current_path: final_paths.append(current_path)] *)
Definition end_path (st : state S) (current_path : list string) : state S :=
  match current_path with
  | [] => st
  | _ :: _ => push_path st current_path
  end.

(** [queue.append(item)] for each item of [items]. *)
Definition enqueue (st : state S) (items : list (nat * string * list string))
    : state S :=
  {| steps := steps st; final_paths := final_paths st;
     selection_cache := selection_cache st; queue := queue st ++ items;
     events := events st; sel := sel st; invoked := invoked st |}.

(** The queue after [popleft]. *)
Definition dequeue (st : state S) (rest : list (nat * string * list string))
    : state S :=
  {| steps := steps st; final_paths := final_paths st;
     selection_cache := selection_cache st; queue := rest;
     events := events st; sel := sel st; invoked := invoked st |}.

(** [steps.append(step)] and the [step] event. *)
Definition record_step (st : state S) (step : BFSStepDetail.t)
    (current_path : list string) : state S :=
  {| steps := steps st ++ [step]; final_paths := final_paths st;
     selection_cache := selection_cache st; queue := queue st;
     events := events st ++ [(step, current_path)];
     sel := sel st; invoked := invoked st |}.

(** The selector was called for [parent_url] and left in state [s']. *)
Definition called (st : state S) (parent_url : string) (s' : S) : state S :=
  {| steps := steps st; final_paths := final_paths st;
     selection_cache := selection_cache st; queue := queue st;
     events := events st; sel := s'; invoked := invoked st ++ [parent_url] |}.

(** [selection_cache[parent_url] = result] *)
Definition remember (st : state S) (parent_url : string)
    (result : SelectionResult.t) : state S :=
  {| steps := steps st; final_paths := final_paths st;
     selection_cache := <[parent_url := result]> (selection_cache st);
     queue := queue st; events := events st; sel := sel st;
     invoked := invoked st |}.

End updates.

(** The names of the children that are nodes of the graph. *)
Definition candidate_names (dag : OntologyDAG.t) (children_urls : list string)
    : list string :=
  omap
    (fun url => OntologyClass.name <$> od_get (OntologyDAG.nodes dag) url)
    children_urls.

(** The first child that is a node named [selected_name]. *)
Fixpoint url_of_selected (dag : OntologyDAG.t) (children_urls : list string)
    (selected_name : string) : option string :=
  match children_urls with
  | [] => None
  | url :: rest =>
      match od_get (OntologyDAG.nodes dag) url with
      | Some node =>
          if decide (OntologyClass.name node = selected_name) then Some url
          else url_of_selected dag rest selected_name
      | None => url_of_selected dag rest selected_name
      end
  end.

(** The items the loop over [result.selected] appends to the queue; an
    empty [selected_url] counts as none ([if selected_url]). *)
Definition expansions (dag : OntologyDAG.t) (children_urls : list string)
    (level : nat) (current_path selected : list string)
    : list (nat * string * list string) :=
  omap
    (fun selected_name =>
       match url_of_selected dag children_urls selected_name with
       | Some selected_url =>
           if decide (selected_url = "") then None
           else Some (level + 1, selected_url, current_path ++ [selected_name])
       | None => None
       end)
    selected.

Definition step_of (level : nat) (parent_name : string)
    (candidates : list string) (result : SelectionResult.t) : BFSStepDetail.t :=
  {| BFSStepDetail.level := level;
     BFSStepDetail.parent := parent_name;
     BFSStepDetail.candidates := candidates;
     BFSStepDetail.selected := SelectionResult.selected result;
     BFSStepDetail.status := SelectionResult.status result;
     BFSStepDetail.error := SelectionResult.error result;
     BFSStepDetail.llm_request := SelectionResult.llm_request result;
     BFSStepDetail.llm_response := SelectionResult.llm_response result;
     BFSStepDetail.edm_result := SelectionResult.edm_result result |}.

Section run.
Context (self : t).
Context (table_name table_markdown column_name : string).
Context (ontology_dag : OntologyDAG.t).

Local Abbreviation St := (sel_state (selector self)).

(** "Make selection (with caching)": the result, or the exception that
    [select] raised. *)
Definition cached_select (st : state St) (parent_url : string)
    (candidates : list string) : state St * outcome SelectionResult.t :=
  match selection_cache st !! parent_url with
  | Some result => (st, Returned result)
  | None =>
      match
        sel_select (selector self) table_name table_markdown column_name
          candidates (sel st)
      with
      | (s', Returned result) =>
          (remember (called st parent_url s') parent_url result, Returned result)
      | (s', Raised e) => (called st parent_url s', Raised e)
      end
  end.

(** One iteration of the loop after [popleft]: the new state and the
    exception that ended the call, if one was raised. *)
Definition visit (st : state St) (level : nat) (parent_url : string)
    (current_path : list string) : state St * option string :=
  let parent_name :=
    match od_get (OntologyDAG.nodes ontology_dag) parent_url with
    | Some parent_node => OntologyClass.name parent_node
    | None => parent_url
    end in
  let children_urls :=
    od_get_list (OntologyDAG.edges_subclassof ontology_dag) parent_url in
  if bool_decide (children_urls = [])
     || bool_decide (max_depth self ≤ Z.of_nat level)%Z
  then (end_path st current_path, None)
  else
    let candidates := candidate_names ontology_dag children_urls in
    if bool_decide (candidates = []) then (end_path st current_path, None)
    else
      match cached_select st parent_url candidates with
      | (st1, Raised e) => (st1, Some e)
      | (st1, Returned result) =>
          let step := step_of level parent_name candidates result in
          let st2 := record_step st1 step current_path in
          if decide (SelectionResult.status result = "failed")
          then (push_path st2 (current_path ++ ["[terminated]"]), None)
          else if bool_decide (SelectionResult.selected result = [])
          then (end_path st2 current_path, None)
          else
            (enqueue st2
               (expansions ontology_dag children_urls level current_path
                  (SelectionResult.selected result)),
             None)
      end.

(** [while queue]: the state when the loop is left, with the exception if
    it was left by one; [None] if the fuel ran out first. *)
Fixpoint bfs_loop (fuel : nat) (st : state St) : option (state St * option string) :=
  match fuel with
  | O => None
  | S fuel' =>
      match queue st with
      | [] => Some (st, None)
      | (level, parent_url, current_path) :: rest =>
          match visit (dequeue st rest) level parent_url current_path with
          | (st', None) => bfs_loop fuel' st'
          | (st', Some e) => Some (st', Some e)
          end
      end
  end.

Definition initial (s0 : St) : state St :=
  {| steps := []; final_paths := []; selection_cache := ∅;
     queue := [(0, OntologyDAG.root ontology_dag, [])];
     events := []; sel := s0; invoked := [] |}.

(** What follows the loop: the empty path, the overall status. *)
Definition finish (st : state St) : ColumnResultDetail.t :=
  let all_failed :=
    forallb (fun step => bool_decide (BFSStepDetail.status step = "failed"))
      (steps st) in
  let any_failed :=
    existsb (fun step => bool_decide (BFSStepDetail.status step = "failed"))
      (steps st) in
  {| ColumnResultDetail.column_name := column_name;
     ColumnResultDetail.status :=
       if all_failed then "failed"
       else if any_failed then "partial" else "completed";
     ColumnResultDetail.steps := steps st;
     ColumnResultDetail.final_paths :=
       match final_paths st with [] => [[]] | _ :: _ => final_paths st end;
     ColumnResultDetail.error :=
       if all_failed then Some "All steps failed" else None |}.

(** [execute_column], the selector starting in state [s0]: the state in
    which the loop was left, and what the call returned or raised. *)
Definition execute_column (fuel : nat) (s0 : St)
    : option (state St * outcome ColumnResultDetail.t) :=
  match bfs_loop fuel (initial s0) with
  | None => None
  | Some (st, None) => Some (st, Returned (finish st))
  | Some (st, Some e) => Some (st, Raised e)
  end.

End run.

End RunExecutor.

(** * Vocabulary of the statements *)

(** [u] is recorded as a child of [p] in the edge table. *)
Definition edge (es : odict (list string)) (p u : string) : Prop :=
  exists cs, od_get es p = Some cs /\ u ∈ cs.

(** [u] is one of the loaded classes. *)
Definition is_class (classes : list OwlClass) (u : string) : Prop :=
  exists c, c ∈ classes /\ cls_iri c = u.

(** The class [u] declares the class [p], other than itself, as a parent. *)
Definition declared_child (classes : list OwlClass) (p u : string) : Prop :=
  exists c, c ∈ classes /\ cls_iri c = u /\ ClassRef p ∈ cls_is_a c /\ p ≠ u.

(** A class that never appears as a child. *)
Definition parentless (classes : list OwlClass) (u : string) : Prop :=
  is_class classes u /\ forall p, ~ declared_child classes p u.

(** What the loop over the classes has built, stated on the classes. *)
Definition collected (classes : list OwlClass)
    (st : odict OntologyClass.t * odict (list string)) : Prop :=
  NoDup (od_keys st.1) /\ NoDup (od_keys st.2)
  /\ (forall u, u ∈ od_keys st.1 <-> is_class classes u)
  /\ (forall p u, edge st.2 p u <-> declared_child classes p u).

(** * Concrete inputs of the examples *)

(** A class named after its url, with the given class parents. *)
Definition owl_class (u : string) (parents : list string) : OwlClass :=
  {| cls_iri := u; cls_name := u; cls_label := []; cls_comment := [];
     cls_is_a := ClassRef <$> parents |}.

(** Two classes, each the subclass of the other. *)
Definition cyclic_classes : list OwlClass :=
  [owl_class "A" ["B"]; owl_class "B" ["A"]].

(** A cached tree whose root is not one of its nodes. *)
Definition rootless_tree : CachedTree.t :=
  {| CachedTree.root := OntologyDAG.Thing_iri;
     CachedTree.nodes :=
       [("A",
         {| CachedNode.url := "A"; CachedNode.name := "A";
            CachedNode.label := None; CachedNode.comment := None;
            CachedNode.children := []; CachedNode.depth := 0;
            CachedNode.has_more := false |})];
     CachedTree.metadata := [] |}.

(** A cached tree of one node, its root. *)
Definition single_tree : CachedTree.t :=
  {| CachedTree.root := "A";
     CachedTree.nodes := CachedTree.nodes rootless_tree;
     CachedTree.metadata := [] |}.

(** [u] can be reached from the root along [edges_subclassof]. *)
Inductive reachable (dag : OntologyDAG.t) : string -> Prop :=
| reach_root : reachable dag (OntologyDAG.root dag)
| reach_child p c :
    reachable dag p -> c ∈ OntologyDAG.get_children dag p -> reachable dag c.

(** What holds of the walk of [build_from_dag] at each turn of its loop:
    the queue holds entries of one depth followed by entries one deeper; no
    assigned depth exceeds a queued one; the visited urls are those with a
    depth; each child of a url with a depth has a depth at most one larger
    or waits in the queue one level down; the root has depth 0 once the
    walk has started. *)
Definition depths_inv (dag : OntologyDAG.t) (w : OntologyCache.walk) : Prop :=
  (exists m q1 q2,
      OntologyCache.queue w = q1 ++ q2
      /\ Forall (fun e => e.2 = m) q1 /\ Forall (fun e => e.2 = m + 1) q2)
  /\ (forall u du e,
        OntologyCache.depths w !! u = Some du -> e ∈ OntologyCache.queue w ->
        du <= e.2)
  /\ (forall u, u ∈ OntologyCache.visited w <-> is_Some (OntologyCache.depths w !! u))
  /\ (forall u du c,
        OntologyCache.depths w !! u = Some du ->
        c ∈ OntologyDAG.get_children dag u ->
        (exists dc, OntologyCache.depths w !! c = Some dc /\ dc <= du + 1)
        \/ (c, du + 1) ∈ OntologyCache.queue w)
  /\ (OntologyCache.depths w !! OntologyDAG.root dag = Some 0
      \/ (OntologyCache.depths w = ∅
          /\ OntologyCache.queue w = [(OntologyDAG.root dag, 0)])).

(** A graph in which [B] is a child of the root and of [A]. *)
Definition plain_node (u : string) : string * OntologyClass.t :=
  (u, {| OntologyClass.url := u; OntologyClass.name := u;
         OntologyClass.label := None; OntologyClass.comment := None |}).

Definition shortcut_dag : OntologyDAG.t :=
  {| OntologyDAG.nodes := [plain_node "R"; plain_node "A"; plain_node "B"];
     OntologyDAG.edges_subclassof := [("R", ["A"; "B"]); ("A", ["B"])];
     OntologyDAG.edges := [("R", []); ("A", ["R"]); ("B", ["R"; "A"])];
     OntologyDAG.root := "R" |}.

(** Each of the next [n] calls of the language model for [data] raises. *)
Fixpoint all_raise (E : Env) (n : nat) (data : LlmData.t) (l : llm_state E)
    : Prop :=
  match n with
  | O => True
  | S n' =>
      match llm_generate E data l with
      | (l', Raised _) => all_raise E n' data l'
      | (_, Returned _) => False
      end
  end.

(** The sleeps of the failed attempts [attempts]: [2 ** attempt] seconds for
    each attempt but the last one allowed. *)
Definition backoff (self : DetailedSelector.t) (attempts : list nat) : list Z :=
  (fun attempt => 2 ^ Z.of_nat attempt)%Z <$>
    filter (fun attempt => (Z.of_nat attempt < DetailedSelector.max_retries self - 1)%Z)
      attempts.

(** A language model that is out of reach: every call raises. *)
Definition unreachable_env : Env :=
  {| llm_state := unit; rng_state := unit;
     llm_generate := fun _ l => (l, Raised "connection refused");
     random_sample := fun _ k r => (r, seq 0 k) |}.

(** The selector [RunExecutor] builds by default: single strategy,
    reasoning prompt, three attempts. *)
Definition default_selector : DetailedSelector.t :=
  {| DetailedSelector.mode := "single";
     DetailedSelector.prompt_type := "cot";
     DetailedSelector.edm_options := EDMOptions.default;
     DetailedSelector.max_retries := 3;
     DetailedSelector.model_name := "model" |}.

(** A world in which nothing has happened yet. *)
Definition fresh (E : Env) (l : llm_state E) (r : rng_state E) : World E :=
  {| llm := l; rng := r; slept := []; calls := [] |}.

(** What [random.sample(range(n), k)] promises when [k <= n]: [k] distinct
    members of [range(n)]. *)
Definition sample_ok (E : Env) : Prop :=
  forall n k r, k <= n ->
    NoDup (random_sample E n k r).2
    /\ length (random_sample E n k r).2 = k
    /\ Forall (fun i => i < n) (random_sample E n k r).2.

(** The agents of a recorded ensemble that were assigned [c]. *)
Definition seen_by (agents : list AgentResultDetail.t) (c : string) : nat :=
  length (filter (fun a => c ∈ AgentResultDetail.assigned_classes a) agents).

(** The agents of a recorded ensemble that voted for [c]. *)
Definition voters (agents : list AgentResultDetail.t) (c : string) : nat :=
  length (filter (fun a => c ∈ AgentResultDetail.voted_classes a) agents).

(** How often the name [c] occurs in [l]. *)
Definition occurrences (c : string) (l : list string) : nat :=
  length (filter (fun x => x = c) l).

(** The votes [c] received: how often the agents named it in all. *)
Definition votes_for (agents : list AgentResultDetail.t) (c : string) : nat :=
  sum_list
    ((fun a => occurrences c (AgentResultDetail.voted_classes a)) <$> agents).

(** The acceptance test of the ensemble on recorded agents. *)
Definition accepted (consensus_threshold : float)
    (agents : list AgentResultDetail.t) (c : string) : Prop :=
  0 < seen_by agents c
  /\ PrimFloat.leb consensus_threshold
       (py_truediv (votes_for agents c) (seen_by agents c)) = true
  /\ 0 < votes_for agents c.

(** How often [c] was handed out over all agents. *)
Definition assigned_total (c : string) (assignments : list (list string)) : nat :=
  sum_list (occurrences c <$> assignments).

(** A language model that gives the listed raw answers, one per call, and
    raises once they are used up; sampling picks the first [k] agents. *)
Definition scripted_env (answers : list string) : Env :=
  {| llm_state := nat; rng_state := unit;
     llm_generate := fun _ n =>
       (S n,
        match answers !! n with
        | Some raw =>
            Returned
              {| LLMResult.content := raw; LLMResult.input_tokens := None;
                 LLMResult.output_tokens := None;
                 LLMResult.total_tokens := None |}
        | None => Raised "no answer left"
        end);
     random_sample := fun _ k r => (r, seq 0 k) |}.

(** The ensemble selector with the default options. *)
Definition ensemble_selector : DetailedSelector.t :=
  {| DetailedSelector.mode := "edm";
     DetailedSelector.prompt_type := "cot";
     DetailedSelector.edm_options := EDMOptions.default;
     DetailedSelector.max_retries := 3;
     DetailedSelector.model_name := "model" |}.

(** Three agents see [A]; the first names it twice, the second once, the
    third declines. *)
Definition repeated_vote_answers : list string :=
  ["<answer>A, A</answer>"; "<answer>A</answer>"; "<answer>-</answer>"].

(** Ten candidate names. *)
Definition ten_candidates : list string :=
  ["Energy"; "Power"; "Voltage"; "Current"; "Temperature";
   "Pressure"; "Humidity"; "Device"; "Sensor"; "Meter"].

(** The levels a queued item is away from [max_depth]. *)
Definition levels_left (self : RunExecutor.t)
    (item : nat * string * list string) : nat :=
  Z.to_nat (RunExecutor.max_depth self - Z.of_nat item.1.1).

(** The loop started in [st] ends: with enough fuel it is left. *)
Definition halts (self : RunExecutor.t)
    (table_name table_markdown column_name : string)
    (ontology_dag : OntologyDAG.t)
    (st : RunExecutor.state (sel_state (RunExecutor.selector self))) : Prop :=
  exists fuel out,
    RunExecutor.bfs_loop self table_name table_markdown column_name
      ontology_dag fuel st = Some out.

(** The loop started in [st] comes to [st'] after some iterations. *)
Definition reaches (self : RunExecutor.t)
    (table_name table_markdown column_name : string)
    (ontology_dag : OntologyDAG.t)
    (st st' : RunExecutor.state (sel_state (RunExecutor.selector self))) : Prop :=
  exists k, forall fuel,
    RunExecutor.bfs_loop self table_name table_markdown column_name
      ontology_dag (k + fuel) st
    = RunExecutor.bfs_loop self table_name table_markdown column_name
        ontology_dag fuel st'.

(** While no step has selected anything: the cache holds no failed result,
    no path has been collected and every queued path is empty. *)
Definition nothing_selected {S : Type} (st : RunExecutor.state S) : Prop :=
  (forall p result, RunExecutor.selection_cache st !! p = Some result ->
                    SelectionResult.status result ≠ "failed")
  /\ ((forall step, step ∈ RunExecutor.steps st ->
                    BFSStepDetail.selected step = []) ->
      RunExecutor.final_paths st = []
      /\ Forall (fun item => item.2 = []) (RunExecutor.queue st)).

(** The graph of the scenario: root [R] with children [A] and [B], [A] a
    leaf, [B] with the single child [C]. *)
Definition scenario_dag : OntologyDAG.t :=
  {| OntologyDAG.nodes :=
       [plain_node "R"; plain_node "A"; plain_node "B"; plain_node "C"];
     OntologyDAG.edges_subclassof := [("R", ["A"; "B"]); ("B", ["C"])];
     OntologyDAG.edges := [("R", []); ("A", ["R"]); ("B", ["R"]); ("C", ["B"])];
     OntologyDAG.root := "R" |}.

(** A language model that answers [at_root] when asked about the children
    of the root and [C] otherwise. *)
Definition scenario_env (at_root : string) : Env :=
  {| llm_state := unit; rng_state := unit;
     llm_generate := fun data l =>
       (l,
        Returned
          {| LLMResult.content :=
               if decide (LlmData.current_level_ontology_classes data = "A, B")
               then "<answer>" +:+ at_root +:+ "</answer>"
               else "<answer>C</answer>";
             LLMResult.input_tokens := None;
             LLMResult.output_tokens := None;
             LLMResult.total_tokens := None |});
     random_sample := fun _ k r => (r, seq 0 k) |}.

(** The executor of the scenario: single strategy, [max_depth = 3]. *)
Definition scenario_executor (at_root : string) : RunExecutor.t :=
  {| RunExecutor.selector :=
       detailed_selector (scenario_env at_root) default_selector;
     RunExecutor.max_depth := 3 |}.

(** A selector that counts its calls, selects every candidate it is shown
    and reports [failed] when shown [C] alone. *)
Definition counting_selector : Selector :=
  {| sel_state := nat;
     sel_select := fun _ _ _ candidates n =>
       (S n,
        Returned
          {| SelectionResult.selected :=
               if decide (candidates = ["C"]) then [] else candidates;
             SelectionResult.status :=
               if decide (candidates = ["C"]) then "failed" else "completed";
             SelectionResult.error :=
               if decide (candidates = ["C"]) then Some "out of reach" else None;
             SelectionResult.llm_request := None;
             SelectionResult.llm_response := None;
             SelectionResult.edm_result := None |}) |}.

Definition counting_executor (max_depth : Z) : RunExecutor.t :=
  {| RunExecutor.selector := counting_selector;
     RunExecutor.max_depth := max_depth |}.

(** A graph in which [D] is a child of both [A] and [B], and has the
    child [E]. *)
Definition diamond_dag : OntologyDAG.t :=
  {| OntologyDAG.nodes :=
       [plain_node "R"; plain_node "A"; plain_node "B"; plain_node "D";
        plain_node "E"];
     OntologyDAG.edges_subclassof :=
       [("R", ["A"; "B"]); ("A", ["D"]); ("B", ["D"]); ("D", ["E"])];
     OntologyDAG.edges :=
       [("R", []); ("A", ["R"]); ("B", ["R"]); ("D", ["A"; "B"]); ("E", ["D"])];
     OntologyDAG.root := "R" |}.


(** ** Paths of the traversal *)

(** [names] are the names of the nodes met along [edges_subclassof] from
    [u] down to [v]. *)
Inductive chain (dag : OntologyDAG.t) (u : string) : list string -> string -> Prop :=
| chain_nil : chain dag u [] u
| chain_snoc names v c node :
    chain dag u names v ->
    c ∈ OntologyDAG.get_children dag v ->
    od_get (OntologyDAG.nodes dag) c = Some node ->
    chain dag u (names ++ [OntologyClass.name node]) c.

(** A collected path: the names along a chain from the root, with the mark
    of a terminated branch after them or not. *)
Definition traced (dag : OntologyDAG.t) (path : list string) : Prop :=
  exists names u,
    chain dag (OntologyDAG.root dag) names u
    /\ (path = names \/ path = names ++ ["[terminated]"]).

(** What the loop of [execute_column] keeps: a queued item carries the
    chain that led to its node and as many names as its level; levels and
    collected paths stay within [max_depth]; steps are recorded above
    [max_depth] only, and with candidates. *)
Definition paths_inv {S : Type} (self : RunExecutor.t) (dag : OntologyDAG.t)
    (st : RunExecutor.state S) : Prop :=
  Forall
    (fun item : nat * string * list string =>
       length item.2 = item.1.1
       /\ (Z.of_nat item.1.1 <= 0 `max` RunExecutor.max_depth self)%Z
       /\ chain dag (OntologyDAG.root dag) item.2 item.1.2)
    (RunExecutor.queue st)
  /\ Forall
       (fun path =>
          (Z.of_nat (length path) <= 0 `max` RunExecutor.max_depth self)%Z
          /\ traced dag path)
       (RunExecutor.final_paths st)
  /\ Forall
       (fun step =>
          (Z.of_nat (BFSStepDetail.level step) < RunExecutor.max_depth self)%Z
          /\ BFSStepDetail.candidates step <> [])
       (RunExecutor.steps st).

(** ** Distances in the graph *)

(** [u] is reached from the root along [n] edges of [edges_subclassof]. *)
Inductive path_len (dag : OntologyDAG.t) : nat -> string -> Prop :=
| path_root : path_len dag 0 (OntologyDAG.root dag)
| path_step n p c :
    path_len dag n p -> c ∈ OntologyDAG.get_children dag p ->
    path_len dag (S n) c.

(** What the walk of [build_from_dag] also keeps: a depth that is assigned
    or queued is the length of a path from the root. *)
Definition depths_witnessed (dag : OntologyDAG.t) (w : OntologyCache.walk)
    : Prop :=
  (forall u d, OntologyCache.depths w !! u = Some d -> path_len dag d u)
  /\ Forall (fun e : string * nat => path_len dag e.2 e.1) (OntologyCache.queue w).

(** ** Subtrees of the cache *)

(** [u] lies [n] steps below [start] along the children lists of the nodes
    of the tree. *)
Inductive tree_path (self : CachedTree.t) (start : string)
    : nat -> string -> Prop :=
| tree_path_start : tree_path self start 0 start
| tree_path_step n p node c :
    tree_path self start n p ->
    od_get (CachedTree.nodes self) p = Some node ->
    c ∈ CachedNode.children node ->
    tree_path self start (S n) c.

(** The relative depth [d] is within the limit. *)
Definition within (max_depth : option Z) (d : nat) : Prop :=
  match max_depth with
  | Some m => (Z.of_nat d <= 0 `max` m)%Z
  | None => True
  end.

(** [n'] is a copy of [n] as [get_subtree] makes it: the same node, either
    with its children (and [has_more] unset when there is no limit), or,
    under a limit, cut off with [has_more] telling whether it had any. *)
Definition subtree_copy (max_depth : option Z) (n n' : CachedNode.t) : Prop :=
  CachedNode.url n' = CachedNode.url n
  /\ CachedNode.name n' = CachedNode.name n
  /\ CachedNode.label n' = CachedNode.label n
  /\ CachedNode.comment n' = CachedNode.comment n
  /\ CachedNode.depth n' = CachedNode.depth n
  /\ ((CachedNode.children n' = CachedNode.children n
       /\ (max_depth = None -> CachedNode.has_more n' = false))
      \/ (max_depth <> None
          /\ CachedNode.children n' = []
          /\ CachedNode.has_more n'
             = bool_decide (0 < length (CachedNode.children n)))).

(** What the walk of [get_subtree] keeps: collected nodes are copies of
    nodes of the tree, and what is collected or queued lies below the start
    and within the limit. *)
Definition subtree_inv (self : CachedTree.t) (start : string)
    (max_depth : option Z) (w : CachedTree.walk) : Prop :=
  (forall u n', od_get (CachedTree.result_nodes w) u = Some n' ->
     (exists n, od_get (CachedTree.nodes self) u = Some n
                /\ subtree_copy max_depth n n')
     /\ exists d, tree_path self start d u /\ within max_depth d)
  /\ Forall
       (fun e : string * nat =>
          tree_path self start e.2 e.1 /\ within max_depth e.2)
       (CachedTree.queue w).

(** What the walk keeps when there is no limit: a visited url that is a
    node has been collected, and its children are visited or queued; the
    start is visited or queued. *)
Definition subtree_closed (self : CachedTree.t) (start : string)
    (w : CachedTree.walk) : Prop :=
  (start ∈ CachedTree.visited w \/ start ∈ (CachedTree.queue w).*1)
  /\ forall u node,
       u ∈ CachedTree.visited w ->
       od_get (CachedTree.nodes self) u = Some node ->
       u ∈ od_keys (CachedTree.result_nodes w)
       /\ forall c, c ∈ CachedNode.children node ->
            c ∈ CachedTree.visited w \/ c ∈ (CachedTree.queue w).*1.

(** The cache of the graph in which [B] is a child of the root and of [A]. *)
Definition shortcut_tree : CachedTree.t :=
  {| CachedTree.root := "R";
     CachedTree.nodes :=
       [("R", {| CachedNode.url := "R"; CachedNode.name := "R";
                 CachedNode.label := None; CachedNode.comment := None;
                 CachedNode.children := ["A"; "B"]; CachedNode.depth := 0;
                 CachedNode.has_more := false |});
        ("A", {| CachedNode.url := "A"; CachedNode.name := "A";
                 CachedNode.label := None; CachedNode.comment := None;
                 CachedNode.children := ["B"]; CachedNode.depth := 1;
                 CachedNode.has_more := false |});
        ("B", {| CachedNode.url := "B"; CachedNode.name := "B";
                 CachedNode.label := None; CachedNode.comment := None;
                 CachedNode.children := []; CachedNode.depth := 1;
                 CachedNode.has_more := false |})];
     CachedTree.metadata := [("total_nodes", MInt 3)] |}.

(** ** Ground-truth labels ([labels/loader.py]) *)

(** [s.split(sep)] for a non-empty [sep]: [s] is cut at the occurrences of
    [sep] met from the left; [skip] counts the characters of a matched
    [sep] that are still to be passed over. *)
Fixpoint split_go (sep : string) (skip : nat) (s : string) : list string :=
  match s with
  | EmptyString => [EmptyString]
  | String c s' =>
      match skip with
      | S skip' => split_go sep skip' s'
      | O =>
          match strip_prefix sep s with
          | Some _ => EmptyString :: split_go sep (String.length sep - 1) s'
          | None =>
              match split_go sep 0 s' with
              | w :: ws => String c w :: ws
              | [] => [String c EmptyString]
              end
          end
      end
  end.

(** [s.split(sep)]: a [ValueError] for the empty separator. *)
Definition py_split (sep s : string) : outcome (list string) :=
  if decide (sep = "") then Raised "empty separator"
  else Returned (split_go sep 0 s).

(** [[part.split(sep) for part in parts]] *)
Fixpoint split_each (sep : string) (parts : list string)
    : outcome (list (list string)) :=
  match parts with
  | [] => Returned []
  | part :: parts' =>
      match py_split sep part with
      | Raised e => Raised e
      | Returned path =>
          match split_each sep parts' with
          | Raised e => Raised e
          | Returned paths => Returned (path :: paths)
          end
      end
  end.

(** [paths_to_string]; the separators default to ["|"] and ["/"]. *)
Definition paths_to_string (paths : list (list string))
    (path_sep level_sep : string) : string :=
  join path_sep (join level_sep <$> paths).

(** [string_to_paths] *)
Definition string_to_paths (s path_sep level_sep : string)
    : outcome (list (list string)) :=
  if no_answer s then Returned []
  else
    match py_split path_sep s with
    | Raised e => Raised e
    | Returned parts => split_each level_sep parts
    end.

(** A cell of a row of the labels file: the column is missing, the cell is
    empty ([NaN]), or it holds a value, given by its [str]. *)
Inductive LabelCell : Type :=
| NoColumn
| NaN
| Value (text : string).

Record LabelRow : Type := {
  class1_level1_name : LabelCell;
  class1_level2_name : LabelCell;
  class2_level1_name : LabelCell;
  class2_level2_name : LabelCell
}.

(** [row.get(key, "-")] passes [pd.notna(c) and str(c) != "-"]. *)
Definition label_text (c : LabelCell) : option string :=
  match c with
  | Value text => if decide (text = "-") then None else Some text
  | NoColumn | NaN => None
  end.

(** The path of one class of the row, if it has one. *)
Definition label_path (level1 level2 : LabelCell) : list (list string) :=
  match label_text level1 with
  | Some l1 =>
      [match label_text level2 with
       | Some l2 => [l1; l2]
       | None => [l1]
       end]
  | None => []
  end.

Definition parse_labels_to_paths (row : LabelRow) : list (list string) :=
  label_path (class1_level1_name row) (class1_level2_name row)
  ++ label_path (class2_level1_name row) (class2_level2_name row).

(** The character [a] occurs in [s]. *)
Fixpoint has_char (a : ascii) (s : string) : bool :=
  match s with
  | EmptyString => false
  | String c s' => Ascii.eqb a c || has_char a s'
  end.

(** The text of a cell can stand in a path written with ["|"] and ["/"]. *)
Definition plain_cell (c : LabelCell) : Prop :=
  match c with
  | Value text => text <> "" /\ has_char "|" text = false /\ has_char "/" text = false
  | NoColumn | NaN => True
  end.

(** A row with a two-level class and a one-level class. *)
Definition sample_row : LabelRow :=
  {| class1_level1_name := Value "TemporalEntity";
     class1_level2_name := Value "Interval";
     class2_level1_name := Value "Measurement";
     class2_level2_name := NaN |}.

(** ** Occurrences in strings *)

(** [pat] occurs in [s]. *)
Definition occurs (pat s : string) : Prop :=
  exists before rest, s = before +:+ pat +:+ rest.

(** How often the character [a] occurs in [s]. *)
Fixpoint count_char (a : ascii) (s : string) : nat :=
  match s with
  | EmptyString => 0
  | String c s' => (if Ascii.eqb a c then 1 else 0) + count_char a s'
  end.

(** ** Evaluation metrics ([evaluator/metrics.py]) *)

Module Metrics.

(** A row of the evaluation data: the paths of the ground truth and the
    predicted paths of one column. *)
Record row : Type := {
  gt_paths : list (list string);
  pred_paths : list (list string)
}.

(** The six values the two functions return, in the order of the tuple. *)
Record scores : Type := {
  macro_precision : float;
  macro_recall : float;
  macro_f1 : float;
  micro_precision : float;
  micro_recall : float;
  micro_f1 : float
}.

(** The running lists and totals of the loop over the rows. *)
Record sums : Type := {
  precisions : list float;
  recalls : list float;
  f1s : list float;
  total_tp : nat;
  total_fp : nat;
  total_fn : nat
}.

Definition flatten_list_to_set (paths : list (list string)) : gset string :=
  list_to_set (foldl (fun all_nodes p => all_nodes ++ p) [] paths).

(** [tp / (tp + other) if (tp + other) > 0 else 0.0] *)
Definition ratio (tp other : nat) : float :=
  if bool_decide (0 < tp + other) then py_truediv tp (tp + other) else 0%float.

(** [2 * (p * r) / (p + r) if (p + r) > 0 else 0.0] *)
Definition harmonic (p r : float) : float :=
  if PrimFloat.ltb 0 (p + r) then (2 * (p * r) / (p + r))%float else 0%float.

(** The body of the loop, the two sets of the row being given. *)
Definition add_row {A} `{Countable A} (acc : sums) (gt_set pred_set : gset A)
    : sums :=
  let tp := size (pred_set ∩ gt_set) in
  let fp := size (pred_set ∖ gt_set) in
  let fn := size (gt_set ∖ pred_set) in
  let precision := ratio tp fp in
  let recall := ratio tp fn in
  {| precisions := precisions acc ++ [precision];
     recalls := recalls acc ++ [recall];
     f1s := f1s acc ++ [harmonic precision recall];
     total_tp := total_tp acc + tp;
     total_fp := total_fp acc + fp;
     total_fn := total_fn acc + fn |}.

Definition no_rows : sums :=
  {| precisions := []; recalls := []; f1s := [];
     total_tp := 0; total_fp := 0; total_fn := 0 |}.

Section summing.

(** [sum] on a list of floats. How the sum is rounded depends on the
    version of Python, so it is left open. *)
Variable py_sum : list float -> float.

(** [sum(values) / len(values) if values else 0.0] *)
Definition mean (values : list float) : float :=
  match values with
  | [] => 0%float
  | _ :: _ =>
      (py_sum values
       / PrimFloat.of_uint63 (Uint63.of_Z (Z.of_nat (length values))))%float
  end.

(** What follows the loop. *)
Definition summary (acc : sums) : scores :=
  let micro_p := ratio (total_tp acc) (total_fp acc) in
  let micro_r := ratio (total_tp acc) (total_fn acc) in
  {| macro_precision := mean (precisions acc);
     macro_recall := mean (recalls acc);
     macro_f1 := mean (f1s acc);
     micro_precision := micro_p;
     micro_recall := micro_r;
     micro_f1 := harmonic micro_p micro_r |}.

Definition path_level_f1_precision_recall (data : list row) : scores :=
  summary
    (foldl
       (fun acc r =>
          add_row acc (list_to_set (gt_paths r) : gset (list string))
            (list_to_set (pred_paths r)))
       no_rows data).

Definition node_level_f1_precision_recall (data : list row) : scores :=
  summary
    (foldl
       (fun acc r =>
          add_row acc (flatten_list_to_set (gt_paths r))
            (flatten_list_to_set (pred_paths r)))
       no_rows data).

End summing.

End Metrics.

(** Two rows with the same paths, as sets. *)
Definition same_paths (r r' : Metrics.row) : Prop :=
  (forall p, p ∈ Metrics.gt_paths r <-> p ∈ Metrics.gt_paths r')
  /\ (forall p, p ∈ Metrics.pred_paths r <-> p ∈ Metrics.pred_paths r').

(** [n] is a name on one of the [paths]. *)
Definition on_path (paths : list (list string)) (n : string) : Prop :=
  exists p, p ∈ paths /\ n ∈ p.

(** Two rows with the same names on their paths. *)
Definition same_nodes (r r' : Metrics.row) : Prop :=
  (forall n, on_path (Metrics.gt_paths r) n <-> on_path (Metrics.gt_paths r') n)
  /\ (forall n, on_path (Metrics.pred_paths r) n
                <-> on_path (Metrics.pred_paths r') n).

(** The row with prediction and ground truth exchanged. *)
Definition exchanged (r : Metrics.row) : Metrics.row :=
  {| Metrics.gt_paths := Metrics.pred_paths r;
     Metrics.pred_paths := Metrics.gt_paths r |}.

(** ** The requests of a run *)

(** What the loop of [execute_column] keeps about the selector of the
    single strategy, started in the world [w0]: the parents it was called
    for are distinct, cached, and have children in the graph; and each call
    made at most [max_retries] requests. *)
Definition budget_inv {E : Env} (selector : DetailedSelector.t)
    (dag : OntologyDAG.t) (w0 : World E)
    (st : RunExecutor.state (World E)) : Prop :=
  NoDup (RunExecutor.invoked st)
  /\ (forall p, p ∈ RunExecutor.invoked st ->
        is_Some (RunExecutor.selection_cache st !! p)
        /\ p ∈ od_keys (OntologyDAG.edges_subclassof dag))
  /\ length (calls (RunExecutor.sel st))
     <= length (calls w0)
        + Z.to_nat (DetailedSelector.max_retries selector)
          * length (RunExecutor.invoked st).

(** ** Runs with a selector that never fails *)

(** What the loop of [execute_column] keeps when no selection fails: the
    recorded steps and the cached results are all [completed]; queued and
    collected paths are chains of the graph, with no mark of a terminated
    branch; and as long as no step is recorded, no path is collected and
    only the empty path is queued. *)
Definition clean_inv {S : Type} (dag : OntologyDAG.t)
    (st : RunExecutor.state S) : Prop :=
  Forall (fun step => BFSStepDetail.status step = "completed")
    (RunExecutor.steps st)
  /\ map_Forall (fun _ result => SelectionResult.status result = "completed")
       (RunExecutor.selection_cache st)
  /\ Forall
       (fun item : nat * string * list string =>
          chain dag (OntologyDAG.root dag) item.2 item.1.2)
       (RunExecutor.queue st)
  /\ Forall (fun path => exists u, chain dag (OntologyDAG.root dag) path u)
       (RunExecutor.final_paths st)
  /\ (RunExecutor.steps st = [] ->
      RunExecutor.final_paths st = []
      /\ Forall (fun item : nat * string * list string => item.2 = [])
           (RunExecutor.queue st)).

(** ** The earlier traversal ([annotator/engine.py]) *)

Module Engine.

(** What [bfs_search] needs of [decision_maker]: a [select] method over
    some state of its own, which gives a string or [None], or raises. *)
Record DecisionMaker : Type := {
  dm_state : Type;
  dm_select :
    string -> string -> string -> list string ->
    dm_state -> dm_state * outcome (option string)
}.

(** How a call of [bfs_search] ends when it does not return: the
    [KeyError] of a subscript of [edges] or [nodes], with the key, or the
    exception [decision_maker.select] raised. *)
Inductive failure : Type :=
| KeyError (key : string)
| SelectRaised (e : string).

(** [[ontology_dag.nodes[o].name for o in urls]] *)
Fixpoint class_names (dag : OntologyDAG.t) (urls : list string)
    : failure + list string :=
  match urls with
  | [] => inr []
  | o :: urls' =>
      match od_get (OntologyDAG.nodes dag) o with
      | None => inl (KeyError o)
      | Some node =>
          match class_names dag urls' with
          | inl f => inl f
          | inr names => inr (OntologyClass.name node :: names)
          end
      end
  end.

(** [{ontology_dag.nodes[o].name: o for o in urls}], added to [d]. *)
Fixpoint class_urls (dag : OntologyDAG.t) (d : odict string)
    (urls : list string) : failure + odict string :=
  match urls with
  | [] => inr d
  | o :: urls' =>
      match od_get (OntologyDAG.nodes dag) o with
      | None => inl (KeyError o)
      | Some node => class_urls dag (od_set d (OntologyClass.name node) o) urls'
      end
  end.

(** The locals of [bfs_search] during the [while queue] loop and the state
    of the decision maker. *)
Record state (S : Type) : Type := {
  queue : list (nat * string * list string);
  possible_paths : list (list string);
  dm : S
}.
Arguments queue {S} _.
Arguments possible_paths {S} _.
Arguments dm {S} _.

Section updates.
Context {S : Type}.

(** [possible_paths.append(search_path)] *)
Definition push_path (st : state S) (search_path : list string) : state S :=
  {| queue := queue st; possible_paths := possible_paths st ++ [search_path];
     dm := dm st |}.

(** [queue.append(item)] for each item of [items]. *)
Definition enqueue (st : state S) (items : list (nat * string * list string))
    : state S :=
  {| queue := queue st ++ items; possible_paths := possible_paths st;
     dm := dm st |}.

(** The queue after [popleft]. *)
Definition dequeue (st : state S) (rest : list (nat * string * list string))
    : state S :=
  {| queue := rest; possible_paths := possible_paths st; dm := dm st |}.

(** The decision maker was called and left in state [s']. *)
Definition called (st : state S) (s' : S) : state S :=
  {| queue := queue st; possible_paths := possible_paths st; dm := s' |}.

End updates.

(** The items the loop over [selected_ontology_classes] appends to the
    queue. The subscript of the dictionary cannot miss: its keys are the
    names of [current_level_ontology_classes]. *)
Definition expansions (current_level_ontology_classes : list string)
    (current_level_ontology_classes_url_dict : odict string)
    (level : nat) (search_path selected_ontology_classes : list string)
    : list (nat * string * list string) :=
  omap
    (fun selected_ontology_class =>
       if decide (selected_ontology_class ∈ current_level_ontology_classes)
       then
         match
           od_get current_level_ontology_classes_url_dict selected_ontology_class
         with
         | Some new_url => Some (level + 1, new_url, search_path ++ [new_url])
         | None => None
         end
       else None)
    selected_ontology_classes.

Section run.
Context (table_name table_in_markdown column_name : string).
Context (ontology_dag : OntologyDAG.t).
Context (decision_maker : DecisionMaker).
Context (max_depth : Z).

Local Abbreviation St := (dm_state decision_maker).

(** One iteration of the loop after [popleft]: the new state and the
    failure that ended the call, if there was one. [ontology_dag.edges] is
    the plain dictionary [build_dag] leaves, so that a subscript with a key
    it does not hold raises. *)
Definition visit (st : state St) (level : nat)
    (parent_level_ontology_class : string) (search_path : list string)
    : state St * option failure :=
  if bool_decide (max_depth ≤ Z.of_nat level)%Z
  then (push_path st search_path, None)
  else
    match od_get (OntologyDAG.edges ontology_dag) parent_level_ontology_class with
    | None => (st, Some (KeyError parent_level_ontology_class))
    | Some [] => (push_path st search_path, None)
    | Some ((_ :: _) as urls) =>
        match class_names ontology_dag urls with
        | inl f => (st, Some f)
        | inr current_level_ontology_classes =>
            match class_urls ontology_dag [] urls with
            | inl f => (st, Some f)
            | inr current_level_ontology_classes_url_dict =>
                match
                  dm_select decision_maker table_name table_in_markdown
                    column_name current_level_ontology_classes (dm st)
                with
                | (s', Raised e) => (called st s', Some (SelectRaised e))
                | (s', Returned None) =>
                    (push_path (called st s') search_path, None)
                | (s', Returned (Some result)) =>
                    if decide (result = "-")
                    then (push_path (called st s') search_path, None)
                    else
                      (enqueue (called st s')
                         (expansions current_level_ontology_classes
                            current_level_ontology_classes_url_dict level
                            search_path (split_go ", " 0 result)),
                       None)
                end
            end
        end
    end.

(** [while queue]: the state when the loop is left, with the failure if it
    was left by one; [None] if the fuel ran out first. *)
Fixpoint bfs_loop (fuel : nat) (st : state St)
    : option (state St * option failure) :=
  match fuel with
  | O => None
  | S fuel' =>
      match queue st with
      | [] => Some (st, None)
      | (level, parent_level_ontology_class, search_path) :: rest =>
          match
            visit (dequeue st rest) level parent_level_ontology_class
              search_path
          with
          | (st', None) => bfs_loop fuel' st'
          | (st', Some f) => Some (st', Some f)
          end
      end
  end.

Definition initial (s0 : St) : state St :=
  {| queue := [(0, OntologyDAG.root ontology_dag, [])];
     possible_paths := []; dm := s0 |}.

(** [bfs_search], the decision maker starting in state [s0]: the state it
    is left in, and the paths returned or the failure. *)
Definition bfs_search (fuel : nat) (s0 : St)
    : option (St * (failure + list (list string))) :=
  match bfs_loop fuel (initial s0) with
  | None => None
  | Some (st, None) => Some (dm st, inr (possible_paths st))
  | Some (st, Some f) => Some (dm st, inl f)
  end.

End run.

End Engine.

(** [urls] are the nodes met along the reverse table [edges] from [u] to
    [v], each listed under the one before. *)
Inductive trail (dag : OntologyDAG.t) (u : string) : list string -> string -> Prop :=
| trail_nil : trail dag u [] u
| trail_snoc urls v o :
    trail dag u urls v ->
    o ∈ od_get_list (OntologyDAG.edges dag) v ->
    o ∈ od_keys (OntologyDAG.nodes dag) ->
    trail dag u (urls ++ [o]) o.

(** The levels an item of the queue of [bfs_search] is above [max_depth]. *)
Definition search_levels_left (max_depth : Z)
    (item : nat * string * list string) : nat :=
  Z.to_nat (max_depth - Z.of_nat item.1.1).

(** What the loop of [bfs_search] keeps: a queued item carries the trail
    that led to its node and as many urls as its level, which is within
    [max_depth]; the collected paths are trails within [max_depth]. *)
Definition search_inv {S : Type} (dag : OntologyDAG.t) (max_depth : Z)
    (st : Engine.state S) : Prop :=
  Forall
    (fun item : nat * string * list string =>
       length item.2 = item.1.1
       /\ (Z.of_nat item.1.1 <= 0 `max` max_depth)%Z
       /\ trail dag (OntologyDAG.root dag) item.2 item.1.2)
    (Engine.queue st)
  /\ Forall
       (fun path =>
          (Z.of_nat (length path) <= 0 `max` max_depth)%Z
          /\ exists v, trail dag (OntologyDAG.root dag) path v)
       (Engine.possible_paths st).

(** The loop of [bfs_search] started in [st] ends: with enough fuel it is
    left. *)
Definition search_halts (table_name table_in_markdown column_name : string)
    (ontology_dag : OntologyDAG.t) (decision_maker : Engine.DecisionMaker)
    (max_depth : Z)
    (st : Engine.state (Engine.dm_state decision_maker)) : Prop :=
  exists fuel out,
    Engine.bfs_loop table_name table_in_markdown column_name ontology_dag
      decision_maker max_depth fuel st = Some out.

(** The loop of [bfs_search] started in [st] comes to [st'] after some
    iterations. *)
Definition search_reaches (table_name table_in_markdown column_name : string)
    (ontology_dag : OntologyDAG.t) (decision_maker : Engine.DecisionMaker)
    (max_depth : Z)
    (st st' : Engine.state (Engine.dm_state decision_maker)) : Prop :=
  exists k, forall fuel,
    Engine.bfs_loop table_name table_in_markdown column_name ontology_dag
      decision_maker max_depth (k + fuel) st
    = Engine.bfs_loop table_name table_in_markdown column_name ontology_dag
        decision_maker max_depth fuel st'.

(** A decision maker that always gives [answer] and counts its calls. *)
Definition fixed_decision (answer : option string) : Engine.DecisionMaker :=
  {| Engine.dm_state := nat;
     Engine.dm_select := fun _ _ _ _ n => (S n, Returned answer) |}.

(** Two classes without a parent, and a subclass of the first. *)
Definition two_root_classes : list OwlClass :=
  [owl_class "A" []; owl_class "B" []; owl_class "C" ["A"]].

(** The graph of the scenario with its [edges] read downwards, as the
    traversal of [bfs_search] reads them. *)
Definition downward_dag : OntologyDAG.t :=
  {| OntologyDAG.nodes := OntologyDAG.nodes scenario_dag;
     OntologyDAG.edges_subclassof := OntologyDAG.edges_subclassof scenario_dag;
     OntologyDAG.edges := [("R", ["A"; "B"]); ("A", []); ("B", ["C"]); ("C", [])];
     OntologyDAG.root := "R" |}.

(** ** Paths on a built graph, stated on the loaded classes *)

(** [build_dag] puts [c] under [v]: the class [c] declares [v] as a
    parent, or [v] is the virtual root and [c] has no parent. *)
Definition attached (classes : list OwlClass) (v c : string) : Prop :=
  declared_child classes v c
  \/ (v = OntologyDAG.Thing_iri /\ parentless classes c).

(** [name] is the name of the node [build_dag] keeps for [c]: that of a
    loaded class with this url, or [Thing] for the virtual root. *)
Definition named (classes : list OwlClass) (c name : string) : Prop :=
  (exists cls, cls ∈ classes /\ cls_iri cls = c /\ cls_name cls = name)
  \/ (c = OntologyDAG.Thing_iri /\ name = "Thing").

(** [names] are the names of classes met from [u] down to [v], each
    attached under the one before. *)
Inductive lineage (classes : list OwlClass) (u : string)
    : list string -> string -> Prop :=
| lineage_nil : lineage classes u [] u
| lineage_snoc names v c name :
    lineage classes u names v ->
    attached classes v c ->
    named classes c name ->
    lineage classes u (names ++ [name]) c.

(** ** The requests of a run, parent by parent *)

(** The agents of the ensemble a result reports; none for a result of the
    single strategy. *)
Definition agents_reported (result : SelectionResult.t) : nat :=
  from_option EDMResultDetail.total_agents 0 (SelectionResult.edm_result result).

(** The requests [group] that the one call of the selector for [parent_url]
    made are within what the strategy allows. Single strategy: at most
    [max_retries] requests, each showing the names of the children of
    [parent_url]. Ensemble: at most [max_retries] requests for each agent of
    the result cached for [parent_url], and none when the call raised and
    nothing is cached. *)
Definition request_group (selector : DetailedSelector.t)
    (table_name table_markdown column_name : string) (dag : OntologyDAG.t)
    (cache : gmap string SelectionResult.t) (parent_url : string)
    (group : list LlmData.t) : Prop :=
  if decide (DetailedSelector.mode selector = "edm") then
    match cache !! parent_url with
    | Some result =>
        length group
        <= agents_reported result
           * Z.to_nat (DetailedSelector.max_retries selector)
    | None => group = []
    end
  else
    length group <= Z.to_nat (DetailedSelector.max_retries selector)
    /\ Forall
         (fun data =>
            data = DetailedSelector.data_for table_name table_markdown
                     column_name
                     (RunExecutor.candidate_names dag
                        (OntologyDAG.get_children dag parent_url)))
         group.

(** The requests made since the world [w0] fall into one group for each
    call of the selector, in the order of the calls, each within what the
    strategy allows. *)
Definition requests_inv {E : Env} (selector : DetailedSelector.t)
    (table_name table_markdown column_name : string) (dag : OntologyDAG.t)
    (w0 : World E) (st : RunExecutor.state (World E)) : Prop :=
  exists groups,
    calls (RunExecutor.sel st) = calls w0 ++ concat groups
    /\ Forall2
         (request_group selector table_name table_markdown column_name dag
            (RunExecutor.selection_cache st))
         (RunExecutor.invoked st) groups.

(** What the loop of [execute_column] keeps about the calls of the
    selector: the parents it was called for are distinct and cached, and
    the requests are grouped by them. *)
Definition memo_inv {E : Env} (selector : DetailedSelector.t)
    (table_name table_markdown column_name : string) (dag : OntologyDAG.t)
    (w0 : World E) (st : RunExecutor.state (World E)) : Prop :=
  NoDup (RunExecutor.invoked st)
  /\ (forall p, p ∈ RunExecutor.invoked st ->
        is_Some (RunExecutor.selection_cache st !! p))
  /\ requests_inv selector table_name table_markdown column_name dag w0 st.

(** The ensemble of the scenario: default options, [max_depth = 3]. *)
Definition ensemble_executor (answers : list string) : RunExecutor.t :=
  {| RunExecutor.selector :=
       detailed_selector (scripted_env answers) ensemble_selector;
     RunExecutor.max_depth := 3 |}.

(** Three agents that all decline. *)
Definition declining_answers : list string :=
  ["<answer>-</answer>"; "<answer>-</answer>"; "<answer>-</answer>"].
(** * Properties *)

(** ** Ordered dictionaries *)

Section odict_facts.
Context {V : Type}.
Implicit Types (d : odict V) (k : string) (v : V).

Lemma od_get_set d k v k' :
  od_get (od_set d k v) k' = if decide (k = k') then Some v else od_get d k'.
Proof.
  induction d as [|[k0 v0] d IH]; simpl.
  - repeat case_decide; congruence.
  - destruct (decide (k0 = k)) as [->|Hne]; simpl.
    + repeat case_decide; congruence.
    + rewrite IH. repeat case_decide; congruence.
Qed.

Lemma od_get_set_eq d k v : od_get (od_set d k v) k = Some v.
Proof. rewrite od_get_set. by case_decide. Qed.

Lemma od_get_set_ne d k v k' : k ≠ k' -> od_get (od_set d k v) k' = od_get d k'.
Proof. intros. rewrite od_get_set. by case_decide. Qed.

Lemma od_get_is_Some d k : is_Some (od_get d k) <-> k ∈ od_keys d.
Proof.
  unfold od_keys. induction d as [|[k0 v0] d IH]; simpl.
  - split; [intros [? ?]; discriminate | intros H; inversion H].
  - rewrite elem_of_cons. case_decide; subst.
    + split; eauto.
    + rewrite IH. naive_solver.
Qed.

Lemma od_get_None d k : od_get d k = None <-> k ∉ od_keys d.
Proof. rewrite <- od_get_is_Some, eq_None_not_Some. done. Qed.

Lemma od_mem_true d k : od_mem d k = true <-> k ∈ od_keys d.
Proof.
  rewrite <- od_get_is_Some. unfold od_mem.
  destruct (od_get d k); split; try done; intros [? ?]; done.
Qed.

Lemma od_keys_set d k v :
  od_keys (od_set d k v) = if od_mem d k then od_keys d else od_keys d ++ [k].
Proof.
  unfold od_keys, od_mem. induction d as [|[k0 v0] d IH]; csimpl; [done|].
  destruct (decide (k0 = k)) as [->|Hne]; csimpl; [done|].
  rewrite IH. by destruct (od_get d k).
Qed.

Lemma od_keys_set_elem d k v k' :
  k' ∈ od_keys (od_set d k v) <-> k' = k \/ k' ∈ od_keys d.
Proof.
  rewrite od_keys_set. destruct (od_mem d k) eqn:Hm.
  - apply od_mem_true in Hm. naive_solver.
  - rewrite elem_of_app, list_elem_of_singleton. naive_solver.
Qed.

Lemma od_keys_set_NoDup d k v : NoDup (od_keys d) -> NoDup (od_keys (od_set d k v)).
Proof.
  intros Hnd. rewrite od_keys_set. destruct (od_mem d k) eqn:Hm; [done|].
  apply NoDup_app. split_and!; [done| |apply NoDup_singleton].
  intros x Hx Hx'. apply list_elem_of_singleton in Hx' as ->.
  apply od_mem_true in Hx. congruence.
Qed.

(** With distinct keys, the entries are what [od_get] finds. *)
Lemma od_get_entry d k v :
  NoDup (od_keys d) -> (k, v) ∈ d <-> od_get d k = Some v.
Proof.
  unfold od_keys. induction d as [|[k0 v0] d IH]; simpl; intros Hnd.
  - split; [intros H; inversion H | done].
  - apply NoDup_cons in Hnd as [Hk0 Hnd]. rewrite elem_of_cons.
    case_decide; subst.
    + split; [|naive_solver]. intros [?|Hin]; [naive_solver|].
      exfalso. apply Hk0. apply (list_elem_of_fmap_2 fst) in Hin. done.
    + rewrite IH by done. naive_solver.
Qed.

End odict_facts.

(** ** Graph construction: which urls become edges and nodes *)

Section dag_facts.
Import OntologyDAG.

Lemma edge_set es p0 cs0 p u :
  edge (od_set es p0 cs0) p u <-> (p = p0 /\ u ∈ cs0) \/ (p ≠ p0 /\ edge es p u).
Proof.
  unfold edge. setoid_rewrite od_get_set.
  destruct (decide (p0 = p)) as [->|Hne]; naive_solver.
Qed.

Lemma add_parent_edge url es parent p u :
  edge (add_parent url es parent) p u <->
  edge es p u \/ (parent = ClassRef p /\ p ≠ url /\ u = url).
Proof.
  destruct parent as [q|]; simpl; [|naive_solver].
  case_decide as Hq; [naive_solver|].
  rewrite edge_set. unfold od_get_list, od_mem.
  destruct (od_get es q) as [cs|] eqn:Hget; simpl.
  - rewrite Hget. simpl. rewrite elem_of_app, list_elem_of_singleton.
    unfold edge. destruct (decide (p = q)) as [->|]; naive_solver.
  - rewrite od_get_set_eq. simpl. rewrite list_elem_of_singleton.
    split.
    + intros [[-> ->]|[Hne He]]; [naive_solver|].
      left. destruct He as (cs & Hcs & Hu). rewrite od_get_set_ne in Hcs by done.
      by exists cs.
    + intros [(cs & Hcs & Hu)|(? & ? & ->)]; [|naive_solver].
      destruct (decide (p = q)) as [->|]; [congruence|].
      right. split; [done|]. exists cs. by rewrite od_get_set_ne.
Qed.

Lemma add_parent_NoDup url es parent :
  NoDup (od_keys es) -> NoDup (od_keys (add_parent url es parent)).
Proof.
  intros Hnd. destruct parent as [q|]; simpl; [|done].
  case_decide; [done|]. apply od_keys_set_NoDup.
  destruct (od_mem es q); [done|]. by apply od_keys_set_NoDup.
Qed.

Lemma add_parents_edge url parents es p u :
  edge (foldl (add_parent url) es parents) p u <->
  edge es p u \/ (ClassRef p ∈ parents /\ p ≠ url /\ u = url).
Proof.
  revert es. induction parents as [|parent parents IH]; intros es; simpl.
  - rewrite elem_of_nil. naive_solver.
  - rewrite IH, add_parent_edge, elem_of_cons. naive_solver.
Qed.

Lemma add_parents_NoDup url parents es :
  NoDup (od_keys es) -> NoDup (od_keys (foldl (add_parent url) es parents)).
Proof.
  revert es. induction parents as [|parent parents IH]; intros es Hnd; simpl;
    [done|]. by apply IH, add_parent_NoDup.
Qed.

Lemma add_class_collected classes st cls :
  collected classes st -> collected (classes ++ [cls]) (add_class st cls).
Proof.
  intros (Hn1 & Hn2 & Hkeys & Hedges). unfold add_class. split_and!; simpl.
  - by apply od_keys_set_NoDup.
  - by apply add_parents_NoDup.
  - intros u. rewrite od_keys_set_elem, Hkeys. unfold is_class.
    setoid_rewrite elem_of_app. setoid_rewrite list_elem_of_singleton.
    naive_solver.
  - intros p u. rewrite add_parents_edge, Hedges. unfold declared_child. split.
    + intros [(c & Hc & ?)|(Hp & Hne & ->)].
      * exists c. split; [apply elem_of_app; by left | done].
      * exists cls. split; [apply elem_of_app; right; by apply list_elem_of_singleton|done].
    + intros (c & Hc & Hu & Hp & Hne). apply elem_of_app in Hc as [Hc|Hc].
      * left. by exists c.
      * apply list_elem_of_singleton in Hc as ->. right. by subst u.
Qed.

Lemma collect_classes_collected classes :
  collected classes (collect_classes classes).
Proof.
  unfold collect_classes.
  assert (Hgen : forall l pre st, collected pre st ->
                   collected (pre ++ l) (foldl add_class st l)).
  { induction l as [|cls l IH]; intros pre st Hst; simpl.
    - by rewrite app_nil_r.
    - replace (pre ++ cls :: l) with ((pre ++ [cls]) ++ l)
        by (by rewrite <- app_assoc).
      by apply IH, add_class_collected. }
  apply (Hgen classes [] ([], [])). unfold collected, is_class, declared_child, edge.
  simpl. split_and!; try apply NoDup_nil_2.
  - intros u. split; [intros H; inversion H|].
    intros (c & H & _). inversion H.
  - intros p u. split; [intros (cs & H & _); discriminate|].
    intros (c & H & _). inversion H.
Qed.

Lemma elem_of_all_children es u :
  u ∈ all_children es <-> exists cs, cs ∈ od_values es /\ u ∈ cs.
Proof.
  unfold all_children.
  assert (Hgen : forall l (acc : gset string),
    u ∈ foldl (fun acc children => acc ∪ list_to_set children) acc l
    <-> u ∈ acc \/ exists cs, cs ∈ l /\ u ∈ cs).
  { induction l as [|cs l IH]; intros acc; simpl.
    - setoid_rewrite elem_of_nil. naive_solver.
    - rewrite IH, elem_of_union, elem_of_list_to_set.
      setoid_rewrite elem_of_cons. naive_solver. }
  rewrite Hgen. set_solver.
Qed.

Lemma all_children_edge es u :
  NoDup (od_keys es) -> u ∈ all_children es <-> exists p, edge es p u.
Proof.
  intros Hnd. rewrite elem_of_all_children. unfold od_values, edge. split.
  - intros (cs & Hcs & Hu). apply list_elem_of_fmap in Hcs as ([p cs'] & -> & Hin).
    exists p, cs'. split; [|done]. by apply od_get_entry.
  - intros (p & cs & Hget & Hu). exists cs. split; [|done].
    apply od_get_entry in Hget; [|done].
    by apply (list_elem_of_fmap_2 snd) in Hget.
Qed.

(** The root candidates are the parentless classes, each once. *)
Lemma root_candidates_parentless classes u :
  u ∈ root_candidates (collect_classes classes).1 (collect_classes classes).2
  <-> parentless classes u.
Proof.
  destruct (collect_classes_collected classes) as (Hn1 & Hn2 & Hkeys & Hedges).
  unfold root_candidates, parentless.
  rewrite list_elem_of_filter, all_children_edge by done.
  rewrite Hkeys. setoid_rewrite Hedges. naive_solver.
Qed.

Lemma root_candidates_NoDup classes :
  NoDup (root_candidates (collect_classes classes).1 (collect_classes classes).2).
Proof.
  destruct (collect_classes_collected classes) as (Hn1 & _).
  by apply NoDup_filter.
Qed.

End dag_facts.

(** ** C8: root resolution *)

(** C8, as stated, fails in its last case: when no class is parentless the
    virtual root is not the sole node. For two classes that are each
    other's subclass, no class is parentless and the graph keeps both
    classes besides the virtual root. *)
Lemma build_dag_cyclic_keeps_classes :
  (forall u, ~ parentless cyclic_classes u)
  /\ OntologyDAG.root (OntologyDAG.build_dag cyclic_classes) = OntologyDAG.Thing_iri
  /\ od_keys (OntologyDAG.nodes (OntologyDAG.build_dag cyclic_classes))
     = ["A"; "B"; OntologyDAG.Thing_iri]
  /\ od_keys (OntologyDAG.nodes (OntologyDAG.build_dag cyclic_classes))
     ≠ [OntologyDAG.Thing_iri].
Proof.
  split_and!; [|by vm_compute..].
  intros u Hu. apply root_candidates_parentless in Hu.
  vm_compute in Hu. inversion Hu.
Qed.

(** C8 (amended). Root resolution of [build_dag]. The root candidates are
    the classes that never appear as a child. If there is exactly one, it is
    the root and nothing is added. If there are several, the root is the
    virtual root [Thing], whose node is added and whose children are exactly
    the candidates, every other node and children list being kept. If there
    is none, the root is the virtual root too; its node is added unless a
    node of that url exists, every class stays a node, and no edge is
    added (so the virtual root is the sole node only when no class was
    loaded). *)
Theorem build_dag_root_resolution (classes : list OwlClass) :
  let dag := OntologyDAG.build_dag classes in
  let nodes0 := (OntologyDAG.collect_classes classes).1 in
  let edges0 := (OntologyDAG.collect_classes classes).2 in
  let candidates := OntologyDAG.root_candidates nodes0 edges0 in
  (forall u, u ∈ candidates <-> parentless classes u)
  /\ (forall r, candidates = [r] ->
        OntologyDAG.root dag = r
        /\ OntologyDAG.nodes dag = nodes0
        /\ OntologyDAG.edges_subclassof dag = edges0)
  /\ (1 < length candidates ->
        OntologyDAG.root dag = OntologyDAG.Thing_iri
        /\ od_get (OntologyDAG.nodes dag) OntologyDAG.Thing_iri
           = Some OntologyDAG.Thing_node
        /\ OntologyDAG.get_children dag OntologyDAG.Thing_iri = candidates
        /\ (forall u, u ≠ OntologyDAG.Thing_iri ->
              od_get (OntologyDAG.nodes dag) u = od_get nodes0 u
              /\ OntologyDAG.get_children dag u = od_get_list edges0 u))
  /\ (candidates = [] ->
        OntologyDAG.root dag = OntologyDAG.Thing_iri
        /\ is_Some (od_get (OntologyDAG.nodes dag) OntologyDAG.Thing_iri)
        /\ (forall u, is_class classes u -> u ∈ od_keys (OntologyDAG.nodes dag))
        /\ (forall u, u ≠ OntologyDAG.Thing_iri ->
              od_get (OntologyDAG.nodes dag) u = od_get nodes0 u)
        /\ OntologyDAG.edges_subclassof dag = edges0
        /\ (classes = [] ->
              od_keys (OntologyDAG.nodes dag) = [OntologyDAG.Thing_iri])).
Proof.
  intros dag nodes0 edges0 candidates.
  destruct (collect_classes_collected classes) as (Hn1 & Hn2 & Hkeys & Hedges).
  split; [intros u; apply root_candidates_parentless|].
  subst dag nodes0 edges0 candidates. unfold OntologyDAG.build_dag.
  destruct (OntologyDAG.collect_classes classes) as [n0 e0] eqn:Hcol.
  simpl in *.
  destruct (OntologyDAG.root_candidates n0 e0) as [|r1 [|r2 rest]] eqn:Hc;
    simpl; (split_and!; [intros r Hr | intros Hlen | intros Hnil]);
    try discriminate; try (simpl in Hlen; lia).
  - split_and!; try done.
    + destruct (od_mem n0 OntologyDAG.Thing_iri) eqn:Hm.
      * apply od_get_is_Some. by apply od_mem_true.
      * rewrite od_get_set_eq. eauto.
    + intros u Hu. apply Hkeys in Hu.
      destruct (od_mem n0 OntologyDAG.Thing_iri); [done|].
      apply od_keys_set_elem. by right.
    + intros u Hu. destruct (od_mem n0 OntologyDAG.Thing_iri); [done|].
      by rewrite od_get_set_ne.
    + intros ->. vm_compute in Hcol. by injection Hcol as <- <-.
  - by injection Hr as <-.
  - unfold OntologyDAG.get_children, od_get_list. simpl.
    rewrite !od_get_set_eq. split_and!; try done.
    intros u Hu. by rewrite !od_get_set_ne.
Qed.

(** ** The two breadth-first walks of the cache end *)

Lemma unvisited_weight_visit {V} (w : V -> nat) (d : odict V)
    (visited : gset string) (url : string) :
  url ∉ visited ->
  unvisited_weight w d ({[url]} ∪ visited) + from_option w 0 (od_get d url)
  <= unvisited_weight w d visited.
Proof.
  intros Hfresh. unfold unvisited_weight.
  induction d as [|[k v] d IH]; csimpl; [lia|].
  destruct (decide (k = url)) as [->|Hne]; csimpl.
  - rewrite decide_True by set_solver. rewrite decide_False by done.
    assert (sum_list ((fun kv => if decide (kv.1 ∈ {[url]} ∪ visited) then 0 else w kv.2) <$> d)
            <= sum_list ((fun kv => if decide (kv.1 ∈ visited) then 0 else w kv.2) <$> d)).
    { clear IH. induction d as [|[k' v'] d IH]; csimpl; [lia|].
      repeat case_decide; try lia; exfalso; set_solver. }
    lia.
  - destruct (decide (k ∈ visited)).
    + rewrite decide_True by set_solver. lia.
    + rewrite decide_False by set_solver. lia.
Qed.

Lemma length_unvisited_children (visited : gset string) (cs : list string) (n : nat) :
  length ((fun c => (c, n)) <$> filter (fun c => c ∉ visited) cs) <= length cs.
Proof. rewrite length_fmap. apply length_filter. Qed.

Lemma depths_step_measure dag w url depth rest :
  OntologyCache.queue w = (url, depth) :: rest ->
  length (OntologyCache.queue (OntologyCache.depths_step dag w url depth rest))
  + unvisited_weight (@length string) (OntologyDAG.edges_subclassof dag)
      (OntologyCache.visited (OntologyCache.depths_step dag w url depth rest))
  < length (OntologyCache.queue w)
    + unvisited_weight (@length string) (OntologyDAG.edges_subclassof dag)
        (OntologyCache.visited w).
Proof.
  intros Hq. rewrite Hq. unfold OntologyCache.depths_step.
  case_decide as Hv; simpl; [lia|].
  rewrite length_app.
  pose proof (length_unvisited_children ({[url]} ∪ OntologyCache.visited w)
                (od_get_list (OntologyDAG.edges_subclassof dag) url) (depth + 1)).
  pose proof (unvisited_weight_visit (@length string)
                (OntologyDAG.edges_subclassof dag) _ url Hv) as Hw.
  unfold od_get_list in *.
  destruct (od_get (OntologyDAG.edges_subclassof dag) url); simpl in *; lia.
Qed.

Lemma depths_loop_ends dag fuel w :
  length (OntologyCache.queue w)
  + unvisited_weight (@length string) (OntologyDAG.edges_subclassof dag)
      (OntologyCache.visited w) < fuel ->
  is_Some (OntologyCache.depths_loop fuel dag w).
Proof.
  revert w. induction fuel as [|fuel IH]; intros w Hlt; [lia|]. simpl.
  destruct (OntologyCache.queue w) as [|[url depth] rest] eqn:Hq; [eauto|].
  apply IH. pose proof (depths_step_measure dag w url depth rest Hq).
  rewrite Hq in *. lia.
Qed.

Lemma subtree_step_measure self max_depth w url depth rest :
  CachedTree.queue w = (url, depth) :: rest ->
  length (CachedTree.queue (CachedTree.subtree_step self max_depth w url depth rest))
  + unvisited_weight (fun n => length (CachedNode.children n)) (CachedTree.nodes self)
      (CachedTree.visited (CachedTree.subtree_step self max_depth w url depth rest))
  < length (CachedTree.queue w)
    + unvisited_weight (fun n => length (CachedNode.children n)) (CachedTree.nodes self)
        (CachedTree.visited w).
Proof.
  intros Hq. rewrite Hq. unfold CachedTree.subtree_step.
  case_decide as Hv; simpl; [lia|].
  pose proof (unvisited_weight_visit (fun n => length (CachedNode.children n))
                (CachedTree.nodes self) _ url Hv) as Hw.
  destruct (od_get (CachedTree.nodes self) url) as [node|]; simpl in *; [|lia].
  destruct (CachedTree.at_depth_limit max_depth depth); simpl; [lia|].
  rewrite length_app.
  pose proof (length_unvisited_children ({[url]} ∪ CachedTree.visited w)
                (CachedNode.children node) (depth + 1)).
  lia.
Qed.

Lemma subtree_loop_ends self max_depth fuel w :
  length (CachedTree.queue w)
  + unvisited_weight (fun n => length (CachedNode.children n)) (CachedTree.nodes self)
      (CachedTree.visited w) < fuel ->
  is_Some (CachedTree.subtree_loop fuel self max_depth w).
Proof.
  revert w. induction fuel as [|fuel IH]; intros w Hlt; [lia|]. simpl.
  destruct (CachedTree.queue w) as [|[url depth] rest] eqn:Hq; [eauto|].
  apply IH. pose proof (subtree_step_measure self max_depth w url depth rest Hq).
  rewrite Hq in *. lia.
Qed.

(** [get_subtree] always returns. *)
Lemma get_subtree_returns self root_url max_depth :
  is_Some (CachedTree.get_subtree self root_url max_depth).
Proof.
  unfold CachedTree.get_subtree.
  destruct (subtree_loop_ends self max_depth (CachedTree.subtree_fuel self)
              {| CachedTree.result_nodes := [];
                 CachedTree.queue := [(CachedTree.start_of self root_url, 0)];
                 CachedTree.visited := ∅ |}) as [r Hr].
  - unfold CachedTree.subtree_fuel. simpl. lia.
  - rewrite Hr. eauto.
Qed.

(** ** C10: [get_subtree] from an unknown start *)

Lemma start_of_unknown self u :
  od_get (CachedTree.nodes self) u = None -> u ≠ CachedTree.root self ->
  CachedTree.start_of self (Some u) = CachedTree.root self.
Proof.
  intros Hu Hne. unfold CachedTree.start_of.
  case_decide; subst.
  - by rewrite bool_decide_true, andb_false_r.
  - unfold od_mem. rewrite Hu. by rewrite bool_decide_false.
Qed.

Lemma start_of_default self :
  CachedTree.start_of self None = CachedTree.root self.
Proof.
  unfold CachedTree.start_of. by rewrite bool_decide_true, andb_false_r.
Qed.

Lemma subtree_step_keeps self max_depth w url depth rest k :
  is_Some (od_get (CachedTree.result_nodes w) k) ->
  is_Some (od_get (CachedTree.result_nodes
                     (CachedTree.subtree_step self max_depth w url depth rest)) k).
Proof.
  intros Hk. unfold CachedTree.subtree_step.
  case_decide; [done|].
  destruct (od_get (CachedTree.nodes self) url); [|done].
  destruct (CachedTree.at_depth_limit max_depth depth); simpl;
    rewrite od_get_set; case_decide; eauto.
Qed.

Lemma subtree_loop_keeps fuel self max_depth w result k :
  CachedTree.subtree_loop fuel self max_depth w = Some result ->
  is_Some (od_get (CachedTree.result_nodes w) k) ->
  is_Some (od_get result k).
Proof.
  revert w. induction fuel as [|fuel IH]; intros w; simpl; [done|].
  destruct (CachedTree.queue w) as [|[url depth] rest].
  - by intros [= <-].
  - intros Hloop Hk. eapply IH; [done|]. by apply subtree_step_keeps.
Qed.

(** The walk from a start that is a node keeps that node; the walk from a
    start that is no node collects nothing. *)
Lemma subtree_loop_from_start self max_depth fuel start result :
  CachedTree.subtree_loop fuel self max_depth
    {| CachedTree.result_nodes := []; CachedTree.queue := [(start, 0)];
       CachedTree.visited := ∅ |} = Some result ->
  (is_Some (od_get (CachedTree.nodes self) start) -> is_Some (od_get result start))
  /\ (od_get (CachedTree.nodes self) start = None -> result = []).
Proof.
  destruct fuel as [|fuel]; simpl; [done|].
  unfold CachedTree.subtree_step. rewrite decide_False by set_solver. simpl.
  destruct (od_get (CachedTree.nodes self) start) as [node|] eqn:Hnode.
  - intros Hloop. split; [intros _|done].
    eapply subtree_loop_keeps; [done|].
    destruct (CachedTree.at_depth_limit max_depth 0); simpl;
      rewrite decide_True by done; eauto.
  - intros Hloop. split; [by intros [? ?]|intros _].
    destruct fuel; simpl in Hloop; [done|]. by injection Hloop as <-.
Qed.

(** C10, as stated, fails: an unknown start id can give an empty tree. In
    a tree whose root is not among its nodes, the walk falls back to that
    root, finds no node for it and returns no node at all. *)
Lemma get_subtree_unknown_start_empty :
  od_get (CachedTree.nodes rootless_tree) "X" = None
  /\ "X" ≠ CachedTree.root rootless_tree
  /\ CachedTree.nodes <$> CachedTree.get_subtree rootless_tree (Some "X") None
     = Some [].
Proof. by vm_compute. Qed.

(** C10 (amended). For a start id that is neither a node of the tree nor
    its root, [get_subtree] returns (it never raises) the subtree of the
    tree's own root: the same tree as with no start id, rooted at the
    tree's root. That subtree holds the root node when the root is a node
    of the tree, and is empty when it is not. *)
Theorem get_subtree_unknown_start (self : CachedTree.t) (u : string)
    (max_depth : option Z) :
  od_get (CachedTree.nodes self) u = None ->
  u ≠ CachedTree.root self ->
  exists sub,
    CachedTree.get_subtree self (Some u) max_depth = Some sub
    /\ CachedTree.get_subtree self None max_depth = Some sub
    /\ CachedTree.root sub = CachedTree.root self
    /\ (is_Some (od_get (CachedTree.nodes self) (CachedTree.root self)) ->
        is_Some (od_get (CachedTree.nodes sub) (CachedTree.root self)))
    /\ (od_get (CachedTree.nodes self) (CachedTree.root self) = None ->
        CachedTree.nodes sub = []).
Proof.
  intros Hu Hne.
  destruct (get_subtree_returns self None max_depth) as [sub Hsub].
  exists sub. unfold CachedTree.get_subtree in *.
  rewrite start_of_unknown by done. rewrite start_of_default in *.
  destruct (CachedTree.subtree_loop _ _ _ _) as [result|] eqn:Hloop; [|done].
  injection Hsub as <-. simpl.
  apply subtree_loop_from_start in Hloop as [? ?]. split_and!; auto.
Qed.

Lemma get_subtree_unknown_start_witness :
  exists sub,
    CachedTree.get_subtree single_tree (Some "X") (Some 1%Z) = Some sub
    /\ CachedTree.get_subtree single_tree None (Some 1%Z) = Some sub
    /\ CachedTree.root sub = CachedTree.root single_tree
    /\ (is_Some (od_get (CachedTree.nodes single_tree) (CachedTree.root single_tree)) ->
        is_Some (od_get (CachedTree.nodes sub) (CachedTree.root single_tree)))
    /\ (od_get (CachedTree.nodes single_tree) (CachedTree.root single_tree) = None ->
        CachedTree.nodes sub = []).
Proof.
  apply (get_subtree_unknown_start single_tree "X" (Some 1%Z)).
  - reflexivity.
  - discriminate.
Defined.

(** ** C9: the depths of [build_from_dag] *)

Lemma depths_inv_initial dag :
  depths_inv dag
    {| OntologyCache.depths := ∅;
       OntologyCache.queue := [(OntologyDAG.root dag, 0)];
       OntologyCache.visited := ∅ |}.
Proof.
  unfold depths_inv. simpl. split_and!.
  - exists 0, [(OntologyDAG.root dag, 0)], []. split_and!; [done| |done].
    by apply Forall_singleton.
  - intros u du e Hu. by rewrite lookup_empty in Hu.
  - intros u. rewrite lookup_empty. split; [set_solver|by intros [? ?]].
  - intros u du c Hu. by rewrite lookup_empty in Hu.
  - by right.
Qed.

Lemma depths_inv_step dag w url depth rest :
  OntologyCache.queue w = (url, depth) :: rest ->
  depths_inv dag w ->
  depths_inv dag (OntologyCache.depths_step dag w url depth rest).
Proof.
  intros Hq ((m & q1 & q2 & Hsplit & Hq1 & Hq2) & Hle & Hvis & Hkids & Hroot).
  rewrite Hq in Hsplit, Hle, Hkids, Hroot.
  (* the depths left in the queue *)
  assert (Hrest : forall e, e ∈ rest -> depth <= e.2 <= depth + 1).
  { intros e He. destruct q1 as [|e1 q1]; simpl in Hsplit.
    - subst q2. apply Forall_cons in Hq2 as [Hd Hq2]. simpl in Hd.
      rewrite Forall_forall in Hq2. specialize (Hq2 e He). lia.
    - injection Hsplit as <- ->. apply Forall_cons in Hq1 as [Hd Hq1].
      simpl in Hd. apply elem_of_app in He as [He|He].
      + rewrite Forall_forall in Hq1. specialize (Hq1 e He). lia.
      + rewrite Forall_forall in Hq2. specialize (Hq2 e He). lia. }
  assert (Hshape : forall new, Forall (fun e : string * nat => e.2 = depth + 1) new ->
            exists m' q1' q2', rest ++ new = q1' ++ q2'
              /\ Forall (fun e => e.2 = m') q1' /\ Forall (fun e => e.2 = m' + 1) q2').
  { intros new Hnew. destruct q1 as [|e1 q1]; simpl in Hsplit.
    - subst q2. apply Forall_cons in Hq2 as [Hd Hq2]. simpl in Hd.
      exists (m + 1), rest, new. split_and!; [done|done|].
      eapply Forall_impl; [exact Hnew|]. simpl. intros; lia.
    - injection Hsplit as <- ->. apply Forall_cons in Hq1 as [Hd Hq1].
      simpl in Hd. exists m, q1, (q2 ++ new). split_and!.
      + by rewrite app_assoc.
      + done.
      + apply Forall_app. split; [done|].
        eapply Forall_impl; [exact Hnew|]. simpl. intros; lia. }
  unfold OntologyCache.depths_step. case_decide as Hv; unfold depths_inv; simpl.
  - (* already visited *)
    apply Hvis in Hv as [dv Hdv]. split_and!.
    + destruct (Hshape []) as (m' & q1' & q2' & Heq & ? & ?); [done|].
      rewrite app_nil_r in Heq. eauto 10.
    + intros u du e Hu He. eapply Hle; [done|]. by right.
    + done.
    + intros u du c Hu Hc. destruct (Hkids u du c Hu Hc) as [?|Hin]; [by left|].
      apply elem_of_cons in Hin as [Heq|Hin]; [|by right].
      injection Heq as -> Hd.
      left. exists dv. split; [done|].
      specialize (Hle url dv (url, depth) Hdv). simpl in Hle.
      assert (dv <= depth) by (apply Hle; by left). lia.
    + destruct Hroot as [?|[Hempty _]]; [by left|].
      rewrite Hempty, lookup_empty in Hdv. done.
  - (* first visit *)
    assert (Hfresh : OntologyCache.depths w !! url = None).
    { apply eq_None_not_Some. by rewrite <- Hvis. }
    set (new := (fun child_url => (child_url, depth + 1)) <$>
                  filter (fun child_url => child_url ∉ {[url]} ∪ OntologyCache.visited w)
                    (od_get_list (OntologyDAG.edges_subclassof dag) url)).
    assert (Hnew : Forall (fun e : string * nat => e.2 = depth + 1) new).
    { apply Forall_fmap, Forall_forall. by intros. }
    split_and!.
    + by apply Hshape.
    + intros u du e Hu He.
      assert (Hdu : du <= depth).
      { destruct (decide (u = url)) as [->|Hne].
        - rewrite lookup_insert_eq in Hu. injection Hu as <-. lia.
        - rewrite lookup_insert_ne in Hu by done.
          specialize (Hle u du (url, depth) Hu). simpl in Hle. apply Hle. by left. }
      apply elem_of_app in He as [He|He].
      * specialize (Hrest e He). lia.
      * rewrite Forall_forall in Hnew. specialize (Hnew e He). lia.
    + intros u. rewrite elem_of_union, elem_of_singleton, Hvis.
      rewrite lookup_insert. case_decide; subst; naive_solver.
    + intros u du c Hu Hc. destruct (decide (u = url)) as [->|Hne].
      * rewrite lookup_insert_eq in Hu. injection Hu as <-.
        destruct (decide (c ∈ {[url]} ∪ OntologyCache.visited w)) as [Hcv|Hcv].
        -- left. apply elem_of_union in Hcv as [Hcv|Hcv].
           ++ apply elem_of_singleton in Hcv as ->.
              exists depth. rewrite lookup_insert_eq. split; [done|lia].
           ++ apply Hvis in Hcv as [dc Hdc]. exists dc.
              destruct (decide (c = url)) as [->|]; [congruence|].
              rewrite lookup_insert_ne by done. split; [done|].
              specialize (Hle c dc (url, depth) Hdc). simpl in Hle.
              assert (dc <= depth) by (apply Hle; by left). lia.
        -- right. apply elem_of_app. right. subst new.
           apply list_elem_of_fmap. exists c. split; [done|].
           apply list_elem_of_filter. done.
      * rewrite lookup_insert_ne in Hu by done.
        destruct (Hkids u du c Hu Hc) as [(dc & Hdc & Hle')|Hin].
        -- left. destruct (decide (c = url)) as [->|]; [congruence|].
           exists dc. by rewrite lookup_insert_ne.
        -- apply elem_of_cons in Hin as [Heq|Hin].
           ++ injection Heq as -> Hd.
              left. exists depth. rewrite lookup_insert_eq. split; [done|lia].
           ++ right. apply elem_of_app. by left.
    + left. destruct Hroot as [Hr|[_ [= -> -> ->]]].
      * destruct (decide (OntologyDAG.root dag = url)) as [<-|]; [congruence|].
        by rewrite lookup_insert_ne.
      * by rewrite lookup_insert_eq.
Qed.

Lemma depths_loop_inv dag fuel w depths :
  depths_inv dag w ->
  OntologyCache.depths_loop fuel dag w = Some depths ->
  exists w', depths_inv dag w' /\ OntologyCache.queue w' = []
             /\ OntologyCache.depths w' = depths.
Proof.
  revert w. induction fuel as [|fuel IH]; intros w Hinv; simpl; [done|].
  destruct (OntologyCache.queue w) as [|[url depth] rest] eqn:Hq.
  - intros [= <-]. eauto.
  - intros Hloop. eapply IH; [|done]. by apply depths_inv_step.
Qed.

(** The walk ends with a depth for the root and, below every url with a
    depth, a depth for each child that is at most one larger. *)
Lemma depths_loop_result dag :
  exists depths,
    OntologyCache.depths_loop (OntologyCache.depths_fuel dag) dag
      {| OntologyCache.depths := ∅;
         OntologyCache.queue := [(OntologyDAG.root dag, 0)];
         OntologyCache.visited := ∅ |} = Some depths
    /\ depths !! OntologyDAG.root dag = Some 0
    /\ (forall u du c,
          depths !! u = Some du -> c ∈ OntologyDAG.get_children dag u ->
          exists dc, depths !! c = Some dc /\ dc <= du + 1).
Proof.
  destruct (depths_loop_ends dag (OntologyCache.depths_fuel dag)
              {| OntologyCache.depths := ∅;
                 OntologyCache.queue := [(OntologyDAG.root dag, 0)];
                 OntologyCache.visited := ∅ |}) as [depths Hloop].
  { unfold OntologyCache.depths_fuel. simpl. lia. }
  exists depths. split; [done|].
  destruct (depths_loop_inv dag _ _ _ (depths_inv_initial dag) Hloop)
    as (w' & (_ & _ & _ & Hkids & Hroot) & Hq & <-).
  rewrite Hq in Hkids, Hroot. split.
  - by destruct Hroot as [?|[_ ?]].
  - intros u du c Hu Hc. destruct (Hkids u du c Hu Hc) as [?|Hin]; [done|].
    by apply elem_of_nil in Hin.
Qed.

Lemma add_nodes_get dag depths entries acc u n :
  (forall u n, od_get acc.1 u = Some n ->
     CachedNode.depth n = default 0 (depths !! u)
     /\ CachedNode.children n = OntologyDAG.get_children dag u) ->
  od_get (foldl (OntologyCache.add_node dag depths) acc entries).1 u = Some n ->
  CachedNode.depth n = default 0 (depths !! u)
  /\ CachedNode.children n = OntologyDAG.get_children dag u.
Proof.
  revert acc. induction entries as [|[k oc] entries IH]; intros acc Hacc; simpl.
  - apply Hacc.
  - apply IH. intros u' n'. unfold OntologyCache.add_node. simpl.
    rewrite od_get_set. case_decide; subst; [|apply Hacc].
    by intros [= <-].
Qed.


(** ** The parser on sample answers *)

Example extract_answer_first_match :
  extract_answer ("Let me think. <answer> A , B" +:+ LF +:+ "</answer> <answer>Z</answer>")
  = Some "A , B".
Proof. reflexivity. Qed.

Example extract_answer_no_tag : extract_answer "A, B" = None.
Proof. reflexivity. Qed.

Example extract_answer_unclosed : extract_answer "<answer>A, B" = None.
Proof. reflexivity. Qed.

Example parse_class_list_strips :
  parse_class_list "A , B,,C " = ["A"; "B"; ""; "C"].
Proof. reflexivity. Qed.

Example parse_class_list_dash : parse_class_list "-" = [].
Proof. reflexivity. Qed.

Example join_three : join ", " ["A"; "B"; "C"] = "A, B, C".
Proof. reflexivity. Qed.

(** ** C6: the retry wrapper *)

Section retry_facts.
Context {E : Env}.
Implicit Types (self : DetailedSelector.t) (data : LlmData.t) (w : World E).

(** The attempts [k, k+1, ..., k+n-1]: either attempt [k+j] answers after
    [j] failures, or all [n] raise. *)
Lemma attempt_loop_spec self data n k last w :
  match DetailedSelector.attempt_loop self data (seq k n) last w with
  | (w', inl response) =>
      exists j, j < n
        /\ calls w' = calls w ++ replicate (S j) data
        /\ slept w' = slept w ++ backoff self (seq k j)
        /\ ~ all_raise E n data (llm w)
  | (w', inr last') =>
      calls w' = calls w ++ replicate n data
      /\ slept w' = slept w ++ backoff self (seq k n)
      /\ all_raise E n data (llm w)
  end.
Proof.
  revert k last w. induction n as [|n IH]; intros k last w; simpl.
  - by rewrite !app_nil_r.
  - unfold DetailedSelector.generate.
    destruct (llm_generate E data (llm w)) as [l' [res|e]] eqn:Hgen; simpl.
    + exists 0. simpl. rewrite app_nil_r. split_and!; [lia|done|done|tauto].
    + set (w1 := {| llm := l'; rng := rng w; slept := slept w;
                    calls := calls w ++ [data] |}).
      set (w2 := if bool_decide (Z.of_nat k < DetailedSelector.max_retries self - 1)%Z
                 then DetailedSelector.sleep (2 ^ Z.of_nat k) w1 else w1).
      assert (Hw2 : llm w2 = l' /\ calls w2 = calls w ++ [data]
                    /\ slept w2 = slept w ++ backoff self [k]).
      { subst w2. unfold backoff. rewrite filter_cons, filter_nil.
        case_bool_decide.
        - rewrite decide_True by done. done.
        - rewrite decide_False by done. simpl. by rewrite app_nil_r. }
      destruct Hw2 as (Hl & Hc & Hs).
      specialize (IH (S k) (Some e) w2). rewrite Hl in IH.
      destruct (DetailedSelector.attempt_loop self data (seq (S k) n) (Some e) w2)
        as [w' [response|last']].
      * destruct IH as (j & Hj & Hcalls & Hslept & Hnot).
        exists (S j). rewrite Hcalls, Hslept, Hc, Hs. split_and!; [lia| | |done].
        -- by rewrite <- app_assoc.
        -- rewrite <- app_assoc. f_equal. unfold backoff. simpl seq.
           by rewrite filter_cons, filter_nil, (filter_cons _ k), <- fmap_app;
             case_decide.
      * destruct IH as (Hcalls & Hslept & Hall).
        rewrite Hcalls, Hslept, Hc, Hs. split_and!; [| |done].
        -- by rewrite <- app_assoc.
        -- rewrite <- app_assoc. f_equal. unfold backoff.
           by rewrite filter_cons, filter_nil, (filter_cons _ k), <- fmap_app;
             case_decide.
Qed.

(** The wrapper never raises. *)
Lemma call_llm_with_retry_returns self data w :
  exists w' request response,
    DetailedSelector._call_llm_with_retry self data w
    = (w', Returned (request, response)).
Proof.
  unfold DetailedSelector._call_llm_with_retry.
  destruct (DetailedSelector.attempt_loop _ _ _ _ _) as [w' [response|last]];
    eauto.
Qed.

End retry_facts.

(** C6, as stated, fails on the sleeps: between three attempts there are
    two sleeps, of 1s and 2s; a sleep of 4s is never made. With a language
    model that raises at every call, the wrapper calls it three times and
    sleeps 1s and 2s. *)
Lemma retry_sleeps_one_two :
  let out :=
    DetailedSelector._call_llm_with_retry default_selector
      (DetailedSelector.data_for "table" "| a |" "a" ["A"])
      (fresh unreachable_env tt tt) in
  slept out.1 = [1; 2]%Z
  /\ slept out.1 ≠ [1; 2; 4]%Z
  /\ length (calls out.1) = 3.
Proof. by vm_compute. Qed.

(** C6 (amended). With [max_retries = 3], an oracle call made through
    [DetailedSelector] never raises and makes between one and three
    attempts; after failed attempt number [i] that is not the last it sleeps
    [2 ** i] seconds, so the sleeps are 1s, then 2s, and none follows the
    third attempt. If every attempt raises, there are three attempts, the
    sleeps are 1s and 2s, the response has an empty answer, and the single
    strategy returns status [completed] with nothing selected. *)
Theorem retry_semantics (E : Env) (self : DetailedSelector.t)
    (table_name table_in_markdown column_name : string)
    (candidates : list string) (w : World E) :
  DetailedSelector.max_retries self = 3%Z ->
  let data :=
    DetailedSelector.data_for table_name table_in_markdown column_name
      candidates in
  exists w' request response attempts,
    DetailedSelector._call_llm_with_retry self data w
    = (w', Returned (request, response))
    /\ 1 <= attempts <= 3
    /\ calls w' = calls w ++ replicate attempts data
    /\ slept w' = slept w ++ take (attempts - 1) [1; 2]%Z
    /\ (all_raise E 3 data (llm w) ->
        attempts = 3
        /\ slept w' = slept w ++ [1; 2]%Z
        /\ LLMResponseDetail.answer response = ""
        /\ exists w'' result,
             DetailedSelector.select_single self table_name table_in_markdown
               column_name candidates w = (w'', Returned result)
             /\ SelectionResult.status result = "completed"
             /\ SelectionResult.selected result = []).
Proof.
  intros Hmax data. subst data.
  assert (Hback : forall j, j <= 3 -> backoff self (seq 0 j) = take j [1; 2]%Z).
  { intros j Hj. unfold backoff. rewrite Hmax.
    destruct j as [|[|[|[|j]]]]; try lia; by vm_compute. }
  unfold DetailedSelector.select_single.
  unfold DetailedSelector._call_llm_with_retry. rewrite Hmax.
  change (Z.to_nat 3) with 3.
  pose proof (attempt_loop_spec self
                (DetailedSelector.data_for table_name table_in_markdown
                   column_name candidates) 3 0 None w) as Hspec.
  destruct (DetailedSelector.attempt_loop self _ (seq 0 3) None w)
    as [w' [response|last]].
  - destruct Hspec as (j & Hj & Hcalls & Hslept & Hnot).
    eexists w', _, response, (S j). split; [done|].
    rewrite Hback in Hslept by lia. simpl. rewrite Nat.sub_0_r.
    split_and!; [lia|lia|done|done|]. intros Hall. by destruct Hnot.
  - destruct Hspec as (Hcalls & Hslept & Hall).
    eexists w', _, _, 3. split; [done|].
    rewrite Hback in Hslept by lia.
    split_and!; [lia|lia|done|done|]. intros _. split_and!; [done..|].
    destruct candidates; eexists _, _; (split; [reflexivity|done]).
Qed.

Lemma retry_semantics_witness :
  let data := DetailedSelector.data_for "table" "| a |" "a" ["A"] in
  let w := fresh unreachable_env tt tt in
  exists w' request response attempts,
    DetailedSelector._call_llm_with_retry default_selector data w
    = (w', Returned (request, response))
    /\ 1 <= attempts <= 3
    /\ calls w' = calls w ++ replicate attempts data
    /\ slept w' = slept w ++ take (attempts - 1) [1; 2]%Z
    /\ (all_raise unreachable_env 3 data (llm w) ->
        attempts = 3
        /\ slept w' = slept w ++ [1; 2]%Z
        /\ LLMResponseDetail.answer response = ""
        /\ exists w'' result,
             DetailedSelector.select_single default_selector "table" "| a |"
               "a" ["A"] w = (w'', Returned result)
             /\ SelectionResult.status result = "completed"
             /\ SelectionResult.selected result = []).
Proof.
  apply (retry_semantics unreachable_env default_selector "table" "| a |" "a"
           ["A"] (fresh unreachable_env tt tt)).
  reflexivity.
Defined.

(** ** C7: sizing the ensemble and assigning the classes *)

Lemma occurrences_app c l1 l2 :
  occurrences c (l1 ++ l2) = occurrences c l1 + occurrences c l2.
Proof. unfold occurrences. by rewrite filter_app, length_app. Qed.

Lemma occurrences_cons c x l :
  occurrences c (x :: l) = (if decide (x = c) then 1 else 0) + occurrences c l.
Proof. unfold occurrences. rewrite filter_cons. by case_decide. Qed.

Lemma occurrences_singleton c x :
  occurrences c [x] = if decide (x = c) then 1 else 0.
Proof. unfold occurrences. rewrite filter_cons, filter_nil. by case_decide. Qed.

Lemma occurrences_pos c l : 0 < occurrences c l <-> c ∈ l.
Proof.
  unfold occurrences. induction l as [|x l IH]; simpl.
  - rewrite elem_of_nil. simpl. lia.
  - rewrite filter_cons, elem_of_cons. case_decide; subst; simpl.
    + split; [by left|lia].
    + rewrite IH. naive_solver.
Qed.

Section assignment_facts.
Context {E : Env}.
Implicit Types (w : World E) (assignments : list (list string)).

Lemma append_class_spec class_ assignments agent :
  agent < length assignments ->
  exists assignments',
    DetailedSelector.append_class class_ assignments agent = Returned assignments'
    /\ length assignments' = length assignments
    /\ (forall c, assigned_total c assignments'
                  = assigned_total c assignments + (if decide (class_ = c) then 1 else 0))
    /\ (forall i, i ≠ agent -> assignments' !! i = assignments !! i)
    /\ (forall l, assignments !! agent = Some l ->
                  assignments' !! agent = Some (l ++ [class_])).
Proof.
  intros Hlt. unfold DetailedSelector.append_class.
  rewrite bool_decide_true by done. eexists. split; [done|].
  split_and!.
  - by rewrite length_alter.
  - intros c. unfold assigned_total.
    revert agent Hlt. induction assignments as [|l ls IH]; intros agent Hlt;
      simpl in Hlt; [lia|].
    destruct agent as [|agent]; csimpl.
    + rewrite occurrences_app, occurrences_singleton. lia.
    + rewrite IH by lia. lia.
  - intros i Hi. by rewrite list_lookup_alter_ne.
  - intros l Hl. by rewrite list_lookup_alter_eq, Hl.
Qed.

(** Appending one class to the picked agents: every pick adds one
    occurrence, and with distinct picks each picked agent gets just one. *)
Lemma append_to_agents_spec class_ picked assignments :
  Forall (fun i => i < length assignments) picked ->
  NoDup picked ->
  exists assignments',
    DetailedSelector.append_to_agents class_ picked assignments
    = Returned assignments'
    /\ length assignments' = length assignments
    /\ (forall c, assigned_total c assignments'
                  = assigned_total c assignments
                    + (if decide (class_ = c) then length picked else 0))
    /\ (forall i l c, assignments !! i = Some l ->
          exists l', assignments' !! i = Some l'
            /\ occurrences c l'
               = occurrences c l
                 + (if decide (class_ = c /\ i ∈ picked) then 1 else 0)).
Proof.
  revert assignments.
  induction picked as [|agent picked IH]; intros assignments Hlt Hnd; simpl.
  - eexists. split; [done|]. split_and!; [done| |].
    + intros c. case_decide; simpl; lia.
    + intros i l c Hl. exists l. split; [done|].
      rewrite decide_False; [lia|]. intros [_ Hin]. by apply elem_of_nil in Hin.
  - apply Forall_cons in Hlt as [Hagent Hlt].
    apply NoDup_cons in Hnd as [Hfresh Hnd].
    destruct (append_class_spec class_ assignments agent Hagent)
      as (a1 & -> & Hlen1 & Htot1 & Hother1 & Hsame1).
    destruct (IH a1) as (a2 & -> & Hlen2 & Htot2 & Hocc2); [by rewrite Hlen1|done|].
    eexists. split; [done|]. split_and!.
    + congruence.
    + intros c. rewrite Htot2, Htot1. case_decide; simpl; lia.
    + intros i l c Hl. destruct (decide (i = agent)) as [->|Hne].
      * destruct (Hocc2 agent (l ++ [class_]) c (Hsame1 l Hl)) as (l' & Hl' & Heq).
        exists l'. split; [done|]. rewrite Heq.
        rewrite occurrences_app, occurrences_singleton.
        repeat case_decide; try lia; exfalso; set_solver.
      * rewrite <- (Hother1 i Hne) in Hl.
        destruct (Hocc2 i l c Hl) as (l' & Hl' & Heq).
        exists l'. split; [done|]. rewrite Heq.
        repeat case_decide; try lia; exfalso; set_solver.
Qed.

End assignment_facts.

Section assign_loop_facts.
Context {E : Env}.
Context (Hsample : sample_ok E).
Implicit Types (w : World E) (assignments : list (list string)).

(** The agents picked for one class: distinct, in range, and as many as
    [agents_per_class] allows. *)
Lemma agents_for_spec (num_agents avg_agents_per_class : Z) w :
  (0 <= avg_agents_per_class)%Z -> (0 <= num_agents)%Z ->
  exists w' picked,
    DetailedSelector.agents_for num_agents avg_agents_per_class w
    = (w', Returned picked)
    /\ NoDup picked
    /\ Forall (fun i => i < Z.to_nat num_agents) picked
    /\ length picked = Z.to_nat (num_agents `min` avg_agents_per_class)
    /\ llm w' = llm w /\ calls w' = calls w /\ slept w' = slept w.
Proof.
  intros Hk Hn. unfold DetailedSelector.agents_for.
  case_bool_decide as Hlt.
  - eexists w, _. split; [done|]. split_and!; try done.
    + apply NoDup_seq.
    + apply Forall_forall. intros i Hi. apply elem_of_seq in Hi. lia.
    + rewrite length_seq. f_equal. lia.
  - unfold DetailedSelector.py_random_sample.
    rewrite bool_decide_false by lia.
    destruct (Hsample (Z.to_nat num_agents) (Z.to_nat avg_agents_per_class) (rng w))
      as (Hnd & Hlen & Hrange); [lia|].
    destruct (random_sample E _ _ _) as [r' picked]. simpl in *.
    eexists _, picked. split; [done|]. split_and!; try done.
    rewrite Hlen. f_equal. lia.
Qed.

Lemma assign_loop_spec classes (num_agents avg_agents_per_class : Z)
    assignments w :
  (0 <= avg_agents_per_class)%Z -> (0 <= num_agents)%Z ->
  length assignments = Z.to_nat num_agents ->
  exists w' assignments',
    DetailedSelector.assign_loop classes num_agents avg_agents_per_class
      assignments w = (w', Returned assignments')
    /\ length assignments' = length assignments
    /\ llm w' = llm w /\ calls w' = calls w /\ slept w' = slept w
    /\ (forall c, assigned_total c assignments'
                  = assigned_total c assignments
                    + Z.to_nat (num_agents `min` avg_agents_per_class)
                      * occurrences c classes)
    /\ (forall i l c, assignments !! i = Some l ->
          exists l', assignments' !! i = Some l'
            /\ occurrences c l' <= occurrences c l + occurrences c classes).
Proof.
  intros Hk Hn. revert assignments w.
  induction classes as [|class_ classes IH]; intros assignments w Hlen; simpl.
  - eexists w, assignments. split; [done|]. split_and!; try done.
    + intros c. unfold occurrences. simpl. lia.
    + intros i l c Hl. exists l. split; [done|lia].
  - unfold DetailedSelector.bind.
    destruct (agents_for_spec num_agents avg_agents_per_class w Hk Hn)
      as (w1 & picked & -> & Hnd & Hrange & Hpicked & Hl1 & Hc1 & Hs1).
    rewrite <- Hlen in Hrange.
    destruct (append_to_agents_spec class_ picked assignments Hrange Hnd)
      as (a1 & -> & Hlen1 & Htot1 & Hocc1).
    destruct (IH a1 w1) as (w2 & a2 & -> & Hlen2 & Hl2 & Hc2 & Hs2 & Htot2 & Hocc2);
      [congruence|].
    eexists w2, a2. split; [done|]. split_and!; try congruence.
    + intros c. rewrite Htot2, Htot1, Hpicked, occurrences_cons.
      repeat case_decide; simpl; try congruence; lia.
    + intros i l c Hl. destruct (Hocc1 i l c Hl) as (l1 & Hl1' & Heq1).
      destruct (Hocc2 i l1 c Hl1') as (l2 & Hl2' & Hle2).
      exists l2. split; [done|]. rewrite occurrences_cons.
      revert Heq1 Hle2. repeat case_decide; simpl; try lia;
        try (intros; exfalso; naive_solver).
Qed.

(** [_assign_classes_to_agents] with at least one agent: it returns a list
    for each agent; every occurrence of a class among [classes] goes to
    [min(num_agents, agents_per_class)] agents, and to none twice. *)
Lemma assign_classes_to_agents_spec classes (num_agents avg_agents_per_class : Z) w :
  (0 <= avg_agents_per_class)%Z -> (0 < num_agents)%Z ->
  exists w' assignments,
    DetailedSelector._assign_classes_to_agents classes num_agents
      avg_agents_per_class w = (w', Returned assignments)
    /\ Z.of_nat (length assignments) = num_agents
    /\ llm w' = llm w /\ calls w' = calls w /\ slept w' = slept w
    /\ (forall c, assigned_total c assignments
                  = Z.to_nat (num_agents `min` avg_agents_per_class)
                    * occurrences c classes)
    /\ (forall l c, l ∈ assignments -> occurrences c l <= occurrences c classes).
Proof.
  intros Hk Hn. unfold DetailedSelector._assign_classes_to_agents,
    DetailedSelector.bind.
  destruct (assign_loop_spec classes num_agents avg_agents_per_class
              (replicate (Z.to_nat num_agents) []) w Hk)
    as (w' & a & -> & Hlen & Hl & Hc & Hs & Htot & Hocc);
    [lia|by rewrite length_replicate|].
  rewrite length_replicate in Hlen.
  destruct a as [|l0 a]; [simpl in Hlen; lia|].
  eexists w', _. split; [done|]. split_and!; try done.
  - rewrite Hlen. lia.
  - intros c. rewrite Htot.
    assert (Hzero : forall n, assigned_total c (replicate n []) = 0).
    { induction n as [|n IHn]; [done|]. unfold assigned_total in *. csimpl.
      by rewrite IHn. }
    rewrite Hzero. lia.
  - intros l c Hin. apply list_elem_of_lookup in Hin as [i Hi].
    assert (Hi0 : replicate (Z.to_nat num_agents) [] !! i = Some ([] : list string)).
    { apply lookup_replicate_2. apply lookup_lt_Some in Hi. lia. }
    destruct (Hocc i [] c Hi0) as (l' & Hl' & Hle).
    rewrite Hi in Hl'. injection Hl' as <-. by rewrite Hle.
Qed.

End assign_loop_facts.

(** ** The votes of the ensemble *)

Lemma add_votes_lookup (votes : gmap string nat) (cast : list string) c :
  default 0 (foldl DetailedSelector.add_vote votes cast !! c)
  = default 0 (votes !! c) + occurrences c cast.
Proof.
  revert votes. induction cast as [|x cast IH]; intros votes; simpl.
  - unfold occurrences. simpl. lia.
  - rewrite IH, occurrences_cons. unfold DetailedSelector.add_vote.
    rewrite lookup_insert. repeat case_decide; subst; simpl; try congruence; lia.
Qed.

Lemma count_seen_lookup candidates (assignments : list (list string)) c :
  c ∈ candidates ->
  DetailedSelector.count_seen candidates assignments !! c
  = Some (length (filter (fun agent_classes => c ∈ agent_classes) assignments)).
Proof.
  unfold DetailedSelector.count_seen.
  assert (Hgen : forall l (seen : gmap string nat),
    foldl (fun seen class_ =>
             <[class_ := length (filter (fun agent_classes => class_ ∈ agent_classes)
                                   assignments)]> seen) seen l !! c
    = if decide (c ∈ l)
      then Some (length (filter (fun agent_classes => c ∈ agent_classes) assignments))
      else seen !! c).
  { induction l as [|x l IH]; intros seen; cbn [foldl].
    - case_decide as Hin; [by apply elem_of_nil in Hin|done].
    - rewrite IH. destruct (decide (c ∈ l)) as [Hl|Hl].
      + case_decide as Hin; [done|]. exfalso. apply Hin. by right.
      + destruct (decide (x = c)) as [->|Hne].
        * rewrite lookup_insert_eq. case_decide as Hin; [done|].
          exfalso. apply Hin. by left.
        * rewrite lookup_insert_ne by done. case_decide as Hin; [|done].
          apply elem_of_cons in Hin as [?|?]; congruence. }
  intros Hc. rewrite Hgen. by case_decide.
Qed.

Lemma seen_by_assignments (agents : list AgentResultDetail.t) c :
  length (filter (fun agent_classes : list string => c ∈ agent_classes)
            (AgentResultDetail.assigned_classes <$> agents))
  = seen_by agents c.
Proof.
  unfold seen_by. induction agents as [|a agents IH]; csimpl; [done|].
  rewrite !filter_cons. repeat case_decide; simpl; try done; by rewrite IH.
Qed.

Section vote_facts.
Context {E : Env}.
Implicit Types (w : World E) (acc : DetailedSelector.tally).

(** One agent: it is recorded with its assignment, never as failed, and
    its votes are names it was assigned. *)
Lemma agent_vote_spec self tn md cn acc agent_id agent_classes w :
  exists w' acc' r,
    DetailedSelector.agent_vote self tn md cn acc agent_id agent_classes w
    = (w', acc')
    /\ DetailedSelector.agent_results acc'
       = DetailedSelector.agent_results acc ++ [r]
    /\ AgentResultDetail.assigned_classes r = agent_classes
    /\ AgentResultDetail.status r = "success"
    /\ (forall c, c ∈ AgentResultDetail.voted_classes r -> c ∈ agent_classes)
    /\ DetailedSelector.failed_agents acc' = DetailedSelector.failed_agents acc
    /\ (forall c,
          default 0 (DetailedSelector.votes_per_class acc' !! c)
          = default 0 (DetailedSelector.votes_per_class acc !! c)
            + occurrences c (AgentResultDetail.voted_classes r)).
Proof.
  unfold DetailedSelector.agent_vote. destruct agent_classes as [|c0 cs].
  - eexists _, _, _. split; [done|]. simpl. split_and!; try done;
      try (intros c; unfold occurrences; simpl; lia);
      try (intros c Hc; by apply elem_of_nil in Hc).
  - destruct (call_llm_with_retry_returns self
                (DetailedSelector.data_for tn md cn (c0 :: cs)) w)
      as (w' & request & response & ->).
    eexists _, _, _. split; [done|]. simpl. split_and!; try done.
    + intros c. destruct (no_answer _); [by intros ?%elem_of_nil|].
      intros Hc. by apply list_elem_of_filter in Hc as [? _].
    + intros c. apply add_votes_lookup.
Qed.

Lemma agents_loop_spec self tn md cn assignments acc agent_id w :
  exists w' acc' rs,
    DetailedSelector.agents_loop self tn md cn acc agent_id assignments w
    = (w', acc')
    /\ DetailedSelector.agent_results acc'
       = DetailedSelector.agent_results acc ++ rs
    /\ AgentResultDetail.assigned_classes <$> rs = assignments
    /\ Forall (fun r => AgentResultDetail.status r = "success"
                        /\ forall c, c ∈ AgentResultDetail.voted_classes r ->
                                     c ∈ AgentResultDetail.assigned_classes r) rs
    /\ DetailedSelector.failed_agents acc' = DetailedSelector.failed_agents acc
    /\ (forall c,
          default 0 (DetailedSelector.votes_per_class acc' !! c)
          = default 0 (DetailedSelector.votes_per_class acc !! c)
            + votes_for rs c).
Proof.
  revert acc agent_id w.
  induction assignments as [|agent_classes assignments IH];
    intros acc agent_id w; simpl.
  - eexists w, acc, []. rewrite app_nil_r. split_and!; try done;
      try (intros c; unfold votes_for; simpl; lia).
  - destruct (agent_vote_spec self tn md cn acc agent_id agent_classes w)
      as (w1 & acc1 & r & -> & Hres1 & Hasg & Hst & Hvalid & Hfail1 & Hvotes1).
    destruct (IH acc1 (S agent_id) w1)
      as (w2 & acc2 & rs & -> & Hres2 & Hasgs & Hall & Hfail2 & Hvotes2).
    eexists w2, acc2, (r :: rs). split; [done|]. split_and!.
    + rewrite Hres2, Hres1. by rewrite <- app_assoc.
    + csimpl. by rewrite Hasg, Hasgs.
    + apply Forall_cons. split; [|done]. split; [done|]. by rewrite Hasg.
    + congruence.
    + intros c. rewrite Hvotes2, Hvotes1. unfold votes_for. csimpl. lia.
Qed.

End vote_facts.

(** The names the summary loop selects. *)
Lemma summarize_selected threshold (seen votes : gmap string nat) candidates acc c :
  c ∈ (foldl (DetailedSelector.summarize threshold seen votes) acc candidates).2
  <-> c ∈ acc.2
      \/ (c ∈ candidates
          /\ 0 < default 0 (seen !! c)
          /\ PrimFloat.leb threshold
               (py_truediv (default 0 (votes !! c)) (default 0 (seen !! c))) = true
          /\ 0 < default 0 (votes !! c)).
Proof.
  revert acc. induction candidates as [|x candidates IH]; intros acc; simpl.
  - rewrite elem_of_nil. naive_solver.
  - rewrite IH, elem_of_cons. unfold DetailedSelector.summarize.
    destruct (bool_decide (0 < default 0 (seen !! x))) eqn:Hseen;
      [destruct (PrimFloat.leb threshold
                   (py_truediv (default 0 (votes !! x)) (default 0 (seen !! x))))
         eqn:Hleb;
       [destruct (bool_decide (0 < default 0 (votes !! x))) eqn:Hvotes|]|];
      simpl; rewrite ?elem_of_app, ?list_elem_of_singleton;
      rewrite ?bool_decide_eq_true, ?bool_decide_eq_false in *.
    + split; [intros [[?| ->]|?]|]; tauto.
    + split; [tauto|]. intros [?|[[-> |?] (? & ? & ?)]]; tauto.
    + split; [tauto|]. intros [?|[[-> |?] (? & ? & ?)]]; [tauto|congruence|tauto].
    + split; [tauto|]. intros [?|[[-> |?] (? & ? & ?)]]; tauto.
Qed.

Section collect_votes_facts.
Context {E : Env}.

(** What [select_edm] returns once the classes are assigned. *)
Lemma collect_votes_spec self tn md cn candidates assignments (w : World E) :
  exists w' result edm,
    DetailedSelector.collect_votes self tn md cn candidates assignments w
    = (w', Returned result)
    /\ SelectionResult.edm_result result = Some edm
    /\ SelectionResult.status result = "completed"
    /\ EDMResultDetail.consensus_threshold edm
       = EDMOptions.consensus_threshold (DetailedSelector.edm_options self)
    /\ EDMResultDetail.total_agents edm = length assignments
    /\ AgentResultDetail.assigned_classes <$> EDMResultDetail.agents edm
       = assignments
    /\ Forall (fun r => AgentResultDetail.status r = "success"
                        /\ forall c, c ∈ AgentResultDetail.voted_classes r ->
                                     c ∈ AgentResultDetail.assigned_classes r)
         (EDMResultDetail.agents edm)
    /\ (forall c,
          c ∈ SelectionResult.selected result
          <-> c ∈ candidates
              /\ accepted
                   (EDMOptions.consensus_threshold (DetailedSelector.edm_options self))
                   (EDMResultDetail.agents edm) c).
Proof.
  unfold DetailedSelector.collect_votes.
  destruct (agents_loop_spec self tn md cn assignments
              {| DetailedSelector.agent_results := [];
                 DetailedSelector.votes_per_class := ∅;
                 DetailedSelector.failed_agents := 0 |} 1 w)
    as (w' & voted & rs & -> & Hres & Hasg & Hall & Hfail & Hvotes).
  simpl in Hres, Hfail, Hvotes. subst rs. rewrite Hfail.
  rewrite bool_decide_false by lia.
  eexists w', _, _. split; [done|]. simpl. split_and!; try done.
  intros c. rewrite summarize_selected. simpl. unfold accepted.
  split.
  - intros [Hnil|(Hc & Hseen & Hleb & Hv)]; [by apply elem_of_nil in Hnil|].
    rewrite count_seen_lookup in Hseen, Hleb by done.
    rewrite <- Hasg, seen_by_assignments in Hseen, Hleb. simpl in Hseen, Hleb.
    rewrite Hvotes, lookup_empty in Hleb, Hv. simpl in Hleb, Hv. done.
  - intros (Hc & Hseen & Hleb & Hv). right. split; [done|].
    rewrite count_seen_lookup by done.
    rewrite <- Hasg, seen_by_assignments. simpl.
    rewrite Hvotes, lookup_empty. simpl. done.
Qed.

End collect_votes_facts.

(** When no agent names [c] twice, its votes are the agents that voted
    for it. *)
Lemma votes_for_voters (agents : list AgentResultDetail.t) c :
  (forall a, a ∈ agents -> occurrences c (AgentResultDetail.voted_classes a) <= 1) ->
  votes_for agents c = voters agents c.
Proof.
  unfold votes_for, voters. induction agents as [|a agents IH]; intros Hone;
    csimpl; [done|].
  rewrite filter_cons, IH by (intros; apply Hone; by right).
  pose proof (Hone a (list_elem_of_here _ _)) as Ha.
  pose proof (occurrences_pos c (AgentResultDetail.voted_classes a)) as Hpos.
  case_decide as Hin; simpl.
  - apply Hpos in Hin. lia.
  - assert (~ 0 < occurrences c (AgentResultDetail.voted_classes a)) by tauto. lia.
Qed.

(** ** C2: the acceptance rule of the ensemble *)

(** C2. The code fails the claim when an agent names a candidate more
    than once: the tally of [select_edm] adds one vote for each name of the
    parsed answer, so it counts names, not agents. Here three agents see
    [A]; the first answers [A, A], the second [A], the third declines. Two
    of the three agents voted for [A], which the claim says is not enough at
    threshold [0.8]; yet [A] is selected, its three votes out of three
    agents giving [1.0]. *)
Lemma ensemble_repeated_vote_selected :
  exists w' result edm,
    DetailedSelector.select_edm ensemble_selector "table" "| a |" "a" ["A"]
      (fresh (scripted_env repeated_vote_answers) 0 tt)
    = (w', Returned result)
    /\ SelectionResult.edm_result result = Some edm
    /\ EDMResultDetail.consensus_threshold edm = 0x1.999999999999ap-1%float
    /\ seen_by (EDMResultDetail.agents edm) "A" = 3
    /\ voters (EDMResultDetail.agents edm) "A" = 2
    /\ votes_for (EDMResultDetail.agents edm) "A" = 3
    /\ SelectionResult.selected result = ["A"].
Proof. eexists _, _, _. split; [by vm_compute|]. by vm_compute. Qed.

(** The rule [select_edm] computes. Whenever the ensemble returns, the
    votes recorded for an agent are names it was assigned, and a name is
    selected if and only if it is a candidate seen by at least one agent
    with [votes / seen_by >= consensus_threshold] and [votes > 0], where
    [votes] is the tally of the names cast by the agents that saw the
    candidate. When no agent repeats a name, [votes] is the number of
    agents that voted for the candidate. In particular, with threshold
    [0.8], a candidate with a tally of 2 from the 3 agents that saw it is
    not selected. *)
Theorem ensemble_acceptance (E : Env) (self : DetailedSelector.t)
    (table_name table_in_markdown column_name : string)
    (candidates : list string) (w w' : World E) (result : SelectionResult.t) :
  DetailedSelector.select_edm self table_name table_in_markdown column_name
    candidates w = (w', Returned result) ->
  let agents :=
    from_option EDMResultDetail.agents [] (SelectionResult.edm_result result) in
  let threshold :=
    EDMOptions.consensus_threshold (DetailedSelector.edm_options self) in
  (forall a c, a ∈ agents -> c ∈ AgentResultDetail.voted_classes a ->
               c ∈ AgentResultDetail.assigned_classes a)
  /\ (forall c, c ∈ SelectionResult.selected result
                <-> c ∈ candidates /\ accepted threshold agents c)
  /\ (forall c,
        (forall a, a ∈ agents ->
                   occurrences c (AgentResultDetail.voted_classes a) <= 1) ->
        votes_for agents c = voters agents c)
  /\ (forall c, threshold = 0x1.999999999999ap-1%float ->
                seen_by agents c = 3 -> votes_for agents c = 2 ->
                c ∉ SelectionResult.selected result).
Proof.
  intros Hsel agents threshold.
  assert (Hmain :
    (forall a c, a ∈ agents -> c ∈ AgentResultDetail.voted_classes a ->
                 c ∈ AgentResultDetail.assigned_classes a)
    /\ (forall c, c ∈ SelectionResult.selected result
                  <-> c ∈ candidates /\ accepted threshold agents c)).
  { unfold DetailedSelector.select_edm in Hsel.
    destruct candidates as [|c0 cs].
    - injection Hsel as <- <-. subst agents. simpl. split.
      + intros a c Ha. by apply elem_of_nil in Ha.
      + intros c. split; [intros Hc; by apply elem_of_nil in Hc|].
        intros [Hc _]. by apply elem_of_nil in Hc.
    - case_decide; [done|]. unfold DetailedSelector.bind in Hsel.
      destruct (DetailedSelector._assign_classes_to_agents _ _ _ w)
        as [w1 [assignments|e]]; [|done].
      destruct (collect_votes_spec self table_name table_in_markdown
                  column_name (c0 :: cs) assignments w1)
        as (w2 & r & edm & Hcv & Hedm & _ & _ & _ & _ & Hall & Hiff).
      rewrite Hcv in Hsel. injection Hsel as <- <-.
      subst agents threshold. rewrite Hedm. simpl. split; [|done].
      intros a c Ha. rewrite Forall_forall in Hall. by apply Hall. }
  destruct Hmain as [Hvalid Hiff]. split_and!; [done|done| |].
  - intros c. apply votes_for_voters.
  - intros c Hthr Hseen Hvotes Hin. apply Hiff in Hin as (_ & _ & Hleb & _).
    rewrite Hthr, Hseen, Hvotes in Hleb. by vm_compute in Hleb.
Qed.

Lemma ensemble_acceptance_witness :
  exists w' result,
    DetailedSelector.select_edm ensemble_selector "table" "| a |" "a" ["A"]
      (fresh (scripted_env repeated_vote_answers) 0 tt)
    = (w', Returned result)
    /\ (forall c, c ∈ SelectionResult.selected result
          <-> c ∈ ["A"]
              /\ accepted 0x1.999999999999ap-1%float
                   (from_option EDMResultDetail.agents []
                      (SelectionResult.edm_result result)) c).
Proof.
  destruct (DetailedSelector.select_edm ensemble_selector "table" "| a |" "a"
              ["A"] (fresh (scripted_env repeated_vote_answers) 0 tt))
    as [w' [result|e]] eqn:Hsel.
  - exists w', result. split; [reflexivity|].
    apply (proj1 (proj2 (ensemble_acceptance (scripted_env repeated_vote_answers)
             ensemble_selector "table" "| a |" "a" ["A"] _ w' result Hsel))).
  - vm_compute in Hsel. discriminate Hsel.
Defined.

(** ** C7: the size of the ensemble and who sees what *)

Lemma assigned_total_seen c (assignments : list (list string)) :
  (forall l, l ∈ assignments -> occurrences c l <= 1) ->
  assigned_total c assignments
  = length (filter (fun l : list string => c ∈ l) assignments).
Proof.
  unfold assigned_total. induction assignments as [|l ls IH]; intros Hone;
    csimpl; [done|].
  rewrite filter_cons, IH by (intros; apply Hone; by right).
  pose proof (Hone l (list_elem_of_here _ _)) as Hl.
  pose proof (occurrences_pos c l) as Hpos.
  case_decide as Hin; simpl.
  - apply Hpos in Hin. lia.
  - assert (~ 0 < occurrences c l) by tauto. lia.
Qed.

Lemma assigned_total_agents c (agents : list AgentResultDetail.t) :
  assigned_total c (AgentResultDetail.assigned_classes <$> agents)
  = sum_list ((fun a => occurrences c (AgentResultDetail.assigned_classes a)) <$> agents).
Proof. unfold assigned_total. by rewrite <- list_fmap_compose. Qed.

(** Picking the first [k] agents is a sample without replacement. *)
Lemma scripted_sample_ok answers : sample_ok (scripted_env answers).
Proof.
  intros n k r Hk. simpl. split_and!.
  - apply NoDup_seq.
  - apply length_seq.
  - apply Forall_forall. intros i Hi. apply elem_of_seq in Hi. lia.
Qed.

(** C7. With a sampler that draws without replacement, a non-zero
    [classes_per_agent] and a non-negative [agents_per_class], the ensemble
    on [N >= 1] candidates returns with
    [max(agents_per_class, floor(N * agents_per_class / classes_per_agent) + 1)]
    agents; every occurrence of a candidate goes to [agents_per_class]
    agents, none of them twice, so a candidate listed once is seen by
    exactly [agents_per_class] agents. In general [_assign_classes_to_agents]
    hands each class to [min(num_agents, agents_per_class)] distinct agents,
    which is every agent when [num_agents < agents_per_class]. With 10
    candidates, [classes_per_agent = 30] and [agents_per_class = 3] there
    are 3 agents and each of them is assigned every candidate. *)
Theorem ensemble_sizing_and_assignment (E : Env) (self : DetailedSelector.t)
    (table_name table_in_markdown column_name : string)
    (candidates : list string) (w : World E) :
  sample_ok E ->
  candidates ≠ [] ->
  EDMOptions.classes_per_agent (DetailedSelector.edm_options self) ≠ 0%Z ->
  (0 <= EDMOptions.agents_per_class (DetailedSelector.edm_options self))%Z ->
  let classes_per_agent :=
    EDMOptions.classes_per_agent (DetailedSelector.edm_options self) in
  let agents_per_class :=
    EDMOptions.agents_per_class (DetailedSelector.edm_options self) in
  (exists w' result edm,
     DetailedSelector.select_edm self table_name table_in_markdown column_name
       candidates w = (w', Returned result)
     /\ SelectionResult.edm_result result = Some edm
     /\ Z.of_nat (EDMResultDetail.total_agents edm)
        = (agents_per_class `max`
           ((Z.of_nat (length candidates) * agents_per_class)
            `div` classes_per_agent + 1))%Z
     /\ length (EDMResultDetail.agents edm) = EDMResultDetail.total_agents edm
     /\ (forall c,
           sum_list ((fun a => occurrences c (AgentResultDetail.assigned_classes a))
                       <$> EDMResultDetail.agents edm)
           = Z.to_nat agents_per_class * occurrences c candidates)
     /\ (forall a c, a ∈ EDMResultDetail.agents edm ->
           occurrences c (AgentResultDetail.assigned_classes a)
           <= occurrences c candidates)
     /\ (forall c, occurrences c candidates = 1 ->
           seen_by (EDMResultDetail.agents edm) c = Z.to_nat agents_per_class)
     /\ (length candidates = 10 -> classes_per_agent = 30%Z ->
         agents_per_class = 3%Z ->
         EDMResultDetail.total_agents edm = 3
         /\ forall a c, a ∈ EDMResultDetail.agents edm -> c ∈ candidates ->
                        c ∈ AgentResultDetail.assigned_classes a))
  /\ (forall classes (num_agents avg_agents_per_class : Z) (w0 : World E),
        (0 <= avg_agents_per_class)%Z -> (0 < num_agents)%Z ->
        exists w1 assignments,
          DetailedSelector._assign_classes_to_agents classes num_agents
            avg_agents_per_class w0 = (w1, Returned assignments)
          /\ Z.of_nat (length assignments) = num_agents
          /\ (forall c, assigned_total c assignments
                        = Z.to_nat (num_agents `min` avg_agents_per_class)
                          * occurrences c classes)
          /\ (forall l c, l ∈ assignments ->
                          occurrences c l <= occurrences c classes)).
Proof.
  intros Hsample Hne Hcpa Hapc cpa apc. subst cpa apc.
  set (apc := EDMOptions.agents_per_class (DetailedSelector.edm_options self)) in *.
  set (cpa := EDMOptions.classes_per_agent (DetailedSelector.edm_options self)) in *.
  split.
  2:{ intros classes n k w0 Hk Hn.
      destruct (assign_classes_to_agents_spec Hsample classes n k w0 Hk Hn)
        as (w1 & a & Heq & Hlen & _ & _ & _ & Htot & Hocc). eauto 10. }
  unfold DetailedSelector.select_edm. destruct candidates as [|c0 cs]; [done|].
  rewrite decide_False by done. unfold DetailedSelector.bind.
  set (candidates := c0 :: cs) in *.
  assert (Hnum : (0 < DetailedSelector.num_agents_for self candidates)%Z
                 /\ (apc <= DetailedSelector.num_agents_for self candidates)%Z).
  { unfold DetailedSelector.num_agents_for. fold apc cpa.
    destruct (decide (apc = 0%Z)) as [Hz|]; [|lia].
    rewrite Hz, Z.mul_0_r, Zdiv_0_l. lia. }
  destruct Hnum as [Hpos Hge]. fold apc.
  destruct (assign_classes_to_agents_spec Hsample candidates
              (DetailedSelector.num_agents_for self candidates) apc w Hapc Hpos)
    as (w1 & assignments & -> & Hlen & _ & _ & _ & Htot & Hocc).
  rewrite Z.min_r in Htot by done.
  destruct (collect_votes_spec self table_name table_in_markdown column_name
              candidates assignments w1)
    as (w2 & result & edm & -> & Hedm & _ & _ & Htotal & Hasg & _ & _).
  eexists w2, result, edm. split; [done|]. split; [done|].
  assert (Hagents : forall a c, a ∈ EDMResultDetail.agents edm ->
            occurrences c (AgentResultDetail.assigned_classes a)
            <= occurrences c candidates).
  { intros a c Ha. apply Hocc. rewrite <- Hasg.
    by apply (list_elem_of_fmap_2 AgentResultDetail.assigned_classes). }
  split_and!.
  - by rewrite Htotal, Hlen.
  - by rewrite Htotal, <- Hasg, length_fmap.
  - intros c. by rewrite <- assigned_total_agents, Hasg.
  - done.
  - intros c Hone. rewrite <- seen_by_assignments, Hasg.
    rewrite <- assigned_total_seen, Htot, Hone; [lia|].
    intros l Hl. rewrite <- Hone. by apply Hocc.
  - intros Hten Hcpa30 Hapc3.
    assert (Hthree : length assignments = 3).
    { apply Nat2Z.inj. rewrite Hlen. unfold DetailedSelector.num_agents_for.
      fold apc cpa. rewrite Hten, Hcpa30, Hapc3. done. }
    split; [by rewrite Htotal|].
    intros a c Ha Hc. apply occurrences_pos.
    apply occurrences_pos in Hc.
    assert (Hsum : sum_list ((fun a => occurrences c (AgentResultDetail.assigned_classes a))
                       <$> EDMResultDetail.agents edm)
                   = 3 * occurrences c candidates).
    { rewrite <- assigned_total_agents, Hasg, Htot, Hapc3. done. }
    assert (Hlen3 : length (EDMResultDetail.agents edm) = 3)
      by (by rewrite <- Hthree, <- Hasg, length_fmap).
    destruct (EDMResultDetail.agents edm) as [|a1 [|a2 [|a3 [|a4 rest]]]];
      try discriminate Hlen3.
    pose proof (Hagents a1 c) as H1. pose proof (Hagents a2 c) as H2.
    pose proof (Hagents a3 c) as H3.
    specialize (H1 ltac:(set_solver)). specialize (H2 ltac:(set_solver)).
    specialize (H3 ltac:(set_solver)). csimpl in Hsum.
    apply elem_of_cons in Ha as [->|Ha]; [lia|].
    apply elem_of_cons in Ha as [->|Ha]; [lia|].
    apply list_elem_of_singleton in Ha as ->. lia.
Qed.

Lemma ensemble_sizing_and_assignment_witness :
  exists w' result edm,
    DetailedSelector.select_edm ensemble_selector "table" "| a |" "a"
      ten_candidates (fresh (scripted_env []) 0 tt) = (w', Returned result)
    /\ SelectionResult.edm_result result = Some edm
    /\ EDMResultDetail.total_agents edm = 3
    /\ forall a c, a ∈ EDMResultDetail.agents edm -> c ∈ ten_candidates ->
                   c ∈ AgentResultDetail.assigned_classes a.
Proof.
  destruct (ensemble_sizing_and_assignment (scripted_env []) ensemble_selector
              "table" "| a |" "a" ten_candidates (fresh (scripted_env []) 0 tt)
              (scripted_sample_ok []))
    as [(w' & result & edm & Hsel & Hedm & _ & _ & _ & _ & _ & Hten) _].
  - discriminate.
  - discriminate.
  - simpl. lia.
  - exists w', result, edm. split; [exact Hsel|]. split; [exact Hedm|].
    apply Hten; reflexivity.
Defined.

(** ** The traversal ends *)

Section executor_facts.
Context (self : RunExecutor.t).
Context (table_name table_markdown column_name : string).
Context (ontology_dag : OntologyDAG.t).

Local Abbreviation St := (sel_state (RunExecutor.selector self)).
Local Abbreviation visit :=
  (RunExecutor.visit self table_name table_markdown column_name ontology_dag).
Local Abbreviation bfs_loop :=
  (RunExecutor.bfs_loop self table_name table_markdown column_name ontology_dag).
Local Abbreviation cached_select :=
  (RunExecutor.cached_select self table_name table_markdown column_name).
Implicit Types (st : RunExecutor.state St).

Lemma end_path_queue st path :
  RunExecutor.queue (RunExecutor.end_path st path) = RunExecutor.queue st.
Proof. by destruct path. Qed.

Lemma cached_select_queue st parent_url candidates :
  RunExecutor.queue (cached_select st parent_url candidates).1
  = RunExecutor.queue st.
Proof.
  unfold RunExecutor.cached_select.
  destruct (RunExecutor.selection_cache st !! parent_url); [done|].
  by destruct (sel_select _ _ _ _ _ _) as [s' [result|e]].
Qed.

(** An iteration only appends to the queue, and what it appends is one
    level deeper than the item it handled, which was above [max_depth]. *)
Lemma visit_queue st level parent_url current_path :
  exists new,
    RunExecutor.queue (visit st level parent_url current_path).1
    = RunExecutor.queue st ++ new
    /\ Forall (fun item => S (levels_left self item)
                           <= levels_left self (level, parent_url, current_path))
         new.
Proof.
  unfold RunExecutor.visit.
  destruct (bool_decide (od_get_list _ parent_url = [])
            || bool_decide (RunExecutor.max_depth self ≤ Z.of_nat level)%Z)
    eqn:Hstop; simpl.
  { exists []. by rewrite end_path_queue, app_nil_r. }
  destruct (bool_decide (RunExecutor.candidate_names _ _ = [])); simpl.
  { exists []. by rewrite end_path_queue, app_nil_r. }
  pose proof (cached_select_queue st parent_url
                (RunExecutor.candidate_names ontology_dag
                   (od_get_list (OntologyDAG.edges_subclassof ontology_dag) parent_url)))
    as Hq.
  destruct (cached_select _ _ _) as [st1 [result|e]]; simpl in Hq |- *.
  2:{ exists []. by rewrite app_nil_r. }
  destruct (decide (SelectionResult.status result = "failed")); simpl.
  { exists []. by rewrite app_nil_r. }
  destruct (bool_decide (SelectionResult.selected result = [])).
  { exists []. cbn [fst]. rewrite end_path_queue, app_nil_r. simpl.
    by rewrite Hq. }
  simpl. eexists. split; [by rewrite Hq|].
  apply Forall_forall. intros item Hitem.
  unfold RunExecutor.expansions in Hitem.
  apply list_elem_of_omap in Hitem as (selected_name & _ & Hsome).
  destruct (RunExecutor.url_of_selected _ _ _) as [selected_url|]; [|done].
  case_decide; [done|]. injection Hsome as <-.
  apply orb_false_iff in Hstop as [_ Hdepth].
  apply bool_decide_eq_false in Hdepth.
  unfold levels_left. simpl. lia.
Qed.

Lemma reaches_halts st st' :
  reaches self table_name table_markdown column_name ontology_dag st st' ->
  halts self table_name table_markdown column_name ontology_dag st' ->
  halts self table_name table_markdown column_name ontology_dag st.
Proof.
  intros [k Hk] (fuel & out & Hout). exists (k + fuel), out. by rewrite Hk.
Qed.

(** Handling the items at the front of the queue: the loop is left by an
    exception, or it comes to a state whose queue holds what stood behind
    them and, after that, only deeper items. *)
Lemma bfs_loop_front front :
  forall st behind bound,
    RunExecutor.queue st = front ++ behind ->
    Forall (fun item => levels_left self item <= bound) front ->
    halts self table_name table_markdown column_name ontology_dag st
    \/ exists st' new,
         reaches self table_name table_markdown column_name ontology_dag st st'
         /\ RunExecutor.queue st' = behind ++ new
         /\ Forall (fun item => S (levels_left self item) <= bound) new.
Proof.
  induction front as [|[[level parent_url] current_path] front IH];
    intros st behind bound Hq Hfront.
  - right. exists st, []. split_and!.
    + by exists 0.
    + by rewrite app_nil_r.
    + done.
  - apply Forall_cons in Hfront as [Hitem Hfront].
    destruct (visit (RunExecutor.dequeue st (front ++ behind)) level parent_url
                current_path) as [st1 o] eqn:Hvisit.
    destruct o as [e|].
    { left. exists 1, (st1, Some e). simpl. rewrite Hq. simpl. by rewrite Hvisit. }
    destruct (visit_queue (RunExecutor.dequeue st (front ++ behind)) level
                parent_url current_path) as (new & Hq1 & Hnew).
    rewrite Hvisit in Hq1. simpl in Hq1.
    assert (Hstep : reaches self table_name table_markdown column_name
                      ontology_dag st st1).
    { exists 1. intros fuel. simpl. rewrite Hq. simpl. by rewrite Hvisit. }
    destruct (IH st1 (behind ++ new) bound) as [Hhalt|(st' & new' & Hreach & Hq' & Hnew')].
    + by rewrite Hq1, <- app_assoc.
    + done.
    + left. by eapply reaches_halts.
    + right. exists st', (new ++ new'). split_and!.
      * destruct Hstep as [k1 Hk1], Hreach as [k2 Hk2]. exists (k1 + k2).
        intros fuel. by rewrite <- Nat.add_assoc, Hk1, Hk2.
      * by rewrite Hq', <- app_assoc.
      * apply Forall_app. split; [|done].
        eapply Forall_impl; [exact Hnew|]. simpl. intros; lia.
Qed.

(** The loop always ends. *)
Lemma bfs_loop_halts bound :
  forall st,
    Forall (fun item => levels_left self item <= bound) (RunExecutor.queue st) ->
    halts self table_name table_markdown column_name ontology_dag st.
Proof.
  induction bound as [|bound IH]; intros st Hbound.
  - destruct (bfs_loop_front (RunExecutor.queue st) st [] 0)
      as [?|(st' & new & Hreach & Hq & Hnew)]; [by rewrite app_nil_r|done|done|].
    eapply reaches_halts; [done|]. destruct new as [|item new].
    + exists 1, (st', None). simpl. by rewrite Hq.
    + apply Forall_cons in Hnew as [? _]. lia.
  - destruct (bfs_loop_front (RunExecutor.queue st) st [] (S bound))
      as [?|(st' & new & Hreach & Hq & Hnew)]; [by rewrite app_nil_r|done|done|].
    eapply reaches_halts; [done|]. apply IH. rewrite Hq. simpl.
    eapply Forall_impl; [exact Hnew|]. simpl. intros; lia.
Qed.

(** [execute_column] always returns or raises. *)
Lemma execute_column_halts (s0 : St) :
  exists fuel out,
    RunExecutor.execute_column self table_name table_markdown column_name
      ontology_dag fuel s0 = Some out.
Proof.
  destruct (bfs_loop_halts (levels_left self (0, OntologyDAG.root ontology_dag, []))
              (RunExecutor.initial self ontology_dag s0))
    as (fuel & [st o] & Hloop).
  { simpl. by apply Forall_singleton. }
  exists fuel. unfold RunExecutor.execute_column. rewrite Hloop.
  destruct o; eauto.
Qed.

(** The three ways "make selection (with caching)" can go. *)
Lemma cached_select_cases st parent_url candidates :
  (exists result,
      RunExecutor.selection_cache st !! parent_url = Some result
      /\ cached_select st parent_url candidates = (st, Returned result))
  \/ (exists s' result,
        RunExecutor.selection_cache st !! parent_url = None
        /\ sel_select (RunExecutor.selector self) table_name table_markdown
             column_name candidates (RunExecutor.sel st) = (s', Returned result)
        /\ cached_select st parent_url candidates
           = (RunExecutor.remember (RunExecutor.called st parent_url s')
                parent_url result, Returned result))
  \/ (exists s' e,
        RunExecutor.selection_cache st !! parent_url = None
        /\ sel_select (RunExecutor.selector self) table_name table_markdown
             column_name candidates (RunExecutor.sel st) = (s', Raised e)
        /\ cached_select st parent_url candidates
           = (RunExecutor.called st parent_url s', Raised e)).
Proof.
  unfold RunExecutor.cached_select.
  destruct (RunExecutor.selection_cache st !! parent_url) as [result|];
    [left; eauto|].
  destruct (sel_select _ _ _ _ _ _) as [s' [result|e]]; eauto 10.
Qed.

(** The ways one iteration can go: the path ends without a selection; the
    selector raises; or a step is recorded and the branch is terminated,
    ended or expanded. *)
Lemma visit_cases st level parent_url current_path :
  let children_urls :=
    od_get_list (OntologyDAG.edges_subclassof ontology_dag) parent_url in
  let candidates := RunExecutor.candidate_names ontology_dag children_urls in
  visit st level parent_url current_path
  = (RunExecutor.end_path st current_path, None)
  \/ (exists st1 e,
        cached_select st parent_url candidates = (st1, Raised e)
        /\ visit st level parent_url current_path = (st1, Some e))
  \/ (exists st1 result step,
        cached_select st parent_url candidates = (st1, Returned result)
        /\ BFSStepDetail.status step = SelectionResult.status result
        /\ BFSStepDetail.selected step = SelectionResult.selected result
        /\ (RunExecutor.max_depth self > Z.of_nat level)%Z
        /\ ((SelectionResult.status result = "failed"
             /\ visit st level parent_url current_path
                = (RunExecutor.push_path
                     (RunExecutor.record_step st1 step current_path)
                     (current_path ++ ["[terminated]"]), None))
            \/ (SelectionResult.status result ≠ "failed"
                /\ SelectionResult.selected result = []
                /\ visit st level parent_url current_path
                   = (RunExecutor.end_path
                        (RunExecutor.record_step st1 step current_path)
                        current_path, None))
            \/ (SelectionResult.status result ≠ "failed"
                /\ SelectionResult.selected result ≠ []
                /\ visit st level parent_url current_path
                   = (RunExecutor.enqueue
                        (RunExecutor.record_step st1 step current_path)
                        (RunExecutor.expansions ontology_dag children_urls level
                           current_path (SelectionResult.selected result)),
                      None)))).
Proof.
  intros children_urls candidates. unfold RunExecutor.visit.
  fold children_urls. fold candidates.
  destruct (bool_decide (children_urls = [])
            || bool_decide (RunExecutor.max_depth self ≤ Z.of_nat level)%Z)
    eqn:Hstop; [by left|].
  apply orb_false_iff in Hstop as [_ Hdepth].
  apply bool_decide_eq_false in Hdepth.
  destruct (bool_decide (candidates = [])); [by left|]. right.
  destruct (cached_select st parent_url candidates) as [st1 [result|e]];
    [right|left; eauto].
  eexists st1, result, (RunExecutor.step_of level _ candidates result).
  split; [done|]. split; [done|]. split; [done|]. split; [lia|].
  destruct (decide (SelectionResult.status result = "failed")); [by left|].
  right. destruct (bool_decide (SelectionResult.selected result = [])) eqn:Hsel.
  - left. by apply bool_decide_eq_true in Hsel.
  - right. by apply bool_decide_eq_false in Hsel.
Qed.

(** Proving a property of the state in which the loop is left. *)
Lemma bfs_loop_invariant (P Q : RunExecutor.state St -> Prop) :
  (forall st level parent_url current_path rest st',
      P st -> RunExecutor.queue st = (level, parent_url, current_path) :: rest ->
      visit (RunExecutor.dequeue st rest) level parent_url current_path
      = (st', None) -> P st') ->
  (forall st level parent_url current_path rest st' e,
      P st -> RunExecutor.queue st = (level, parent_url, current_path) :: rest ->
      visit (RunExecutor.dequeue st rest) level parent_url current_path
      = (st', Some e) -> Q st') ->
  (forall st, P st -> RunExecutor.queue st = [] -> Q st) ->
  forall fuel st st' o, P st -> bfs_loop fuel st = Some (st', o) -> Q st'.
Proof.
  intros Hstep Hraise Hend. induction fuel as [|fuel IH]; intros st st' o HP;
    simpl; [done|].
  destruct (RunExecutor.queue st) as [|[[level parent_url] current_path] rest]
    eqn:Hq.
  - intros [= <- <-]. by apply Hend.
  - destruct (visit _ _ _ _) as [st1 [e|]] eqn:Hvisit.
    + intros [= <- <-]. by eapply Hraise.
    + intros Hloop. eapply IH; [|done]. by eapply Hstep.
Qed.

End executor_facts.

(** ** Sample runs *)

(** With [max_depth = 0] the root is not expanded: no step, no path. *)
Example run_without_step :
  exists st r,
    RunExecutor.execute_column (counting_executor 0) "table" "| a |" "a"
      scenario_dag 2 0 = Some (st, Returned r)
    /\ ColumnResultDetail.steps r = []
    /\ ColumnResultDetail.final_paths r = [[]]
    /\ ColumnResultDetail.status r = "failed"
    /\ RunExecutor.invoked st = [].
Proof. eexists _, _. split; [by vm_compute|]. by vm_compute. Qed.

(** One step of two fails: the branch below [B] is terminated, the run is
    [partial]. *)
Example run_with_failed_branch :
  exists st r,
    RunExecutor.execute_column (counting_executor 3) "table" "| a |" "a"
      scenario_dag 6 0 = Some (st, Returned r)
    /\ BFSStepDetail.status <$> ColumnResultDetail.steps r
       = ["completed"; "failed"]
    /\ ColumnResultDetail.final_paths r = [["A"]; ["B"; "[terminated]"]]
    /\ ColumnResultDetail.status r = "partial".
Proof. eexists _, _. split; [by vm_compute|]. by vm_compute. Qed.

(** [D] is dequeued twice, once below [A] and once below [B]: two steps are
    recorded for it, the selector is called for it once. *)
Example run_through_diamond :
  exists st r,
    RunExecutor.execute_column (counting_executor 3) "table" "| a |" "a"
      diamond_dag 10 0 = Some (st, Returned r)
    /\ BFSStepDetail.parent <$> ColumnResultDetail.steps r
       = ["R"; "A"; "B"; "D"; "D"]
    /\ RunExecutor.invoked st = ["R"; "A"; "B"; "D"]
    /\ RunExecutor.sel st = 4
    /\ ColumnResultDetail.final_paths r
       = [["A"; "D"; "E"]; ["B"; "D"; "E"]]
    /\ ColumnResultDetail.status r = "completed".
Proof. eexists _, _. split; [by vm_compute|]. by vm_compute. Qed.

(** ** C5: one call of the selector per parent *)

Section memo_facts.
Context (self : RunExecutor.t).
Context (table_name table_markdown column_name : string).
Context (ontology_dag : OntologyDAG.t).

Local Abbreviation St := (sel_state (RunExecutor.selector self)).
Local Abbreviation visit :=
  (RunExecutor.visit self table_name table_markdown column_name ontology_dag).
Local Abbreviation cached_select :=
  (RunExecutor.cached_select self table_name table_markdown column_name).
Implicit Types (st : RunExecutor.state St).

Lemma end_path_memo st path :
  RunExecutor.invoked (RunExecutor.end_path st path) = RunExecutor.invoked st
  /\ RunExecutor.selection_cache (RunExecutor.end_path st path)
     = RunExecutor.selection_cache st.
Proof. by destruct path. Qed.

(** An iteration leaves the call log and the cache alone, or it calls the
    selector for a parent that was not cached and logs that call. *)
Lemma visit_memo st level parent_url current_path st' o :
  visit st level parent_url current_path = (st', o) ->
  (RunExecutor.invoked st' = RunExecutor.invoked st
   /\ RunExecutor.selection_cache st' = RunExecutor.selection_cache st)
  \/ (RunExecutor.selection_cache st !! parent_url = None
      /\ RunExecutor.invoked st' = RunExecutor.invoked st ++ [parent_url]
      /\ ((exists e, o = Some e)
          \/ exists result,
               RunExecutor.selection_cache st'
               = <[parent_url := result]> (RunExecutor.selection_cache st))).
Proof.
  intros Hvisit.
  destruct (visit_cases self table_name table_markdown column_name ontology_dag
              st level parent_url current_path)
    as [Hv|[(st1 & e & Hcs & Hv)|(st1 & result & step & Hcs & _ & _ & _ & Hv)]].
  - rewrite Hv in Hvisit. injection Hvisit as <- <-. left. apply end_path_memo.
  - rewrite Hv in Hvisit. injection Hvisit as <- <-.
    destruct (cached_select_cases self table_name table_markdown column_name
                st parent_url
                (RunExecutor.candidate_names ontology_dag
                   (od_get_list (OntologyDAG.edges_subclassof ontology_dag) parent_url)))
      as [(r & _ & Hc)|[(s' & r & _ & _ & Hc)|(s' & e' & Hnone & _ & Hc)]];
      rewrite Hc in Hcs; try discriminate.
    injection Hcs as <- <-. right. split; [done|]. split; [done|]. left. eauto.
  - assert (Hst1 :
      (RunExecutor.invoked st1 = RunExecutor.invoked st
       /\ RunExecutor.selection_cache st1 = RunExecutor.selection_cache st)
      \/ (RunExecutor.selection_cache st !! parent_url = None
          /\ RunExecutor.invoked st1 = RunExecutor.invoked st ++ [parent_url]
          /\ RunExecutor.selection_cache st1
             = <[parent_url := result]> (RunExecutor.selection_cache st))).
    { destruct (cached_select_cases self table_name table_markdown column_name
                  st parent_url
                  (RunExecutor.candidate_names ontology_dag
                     (od_get_list (OntologyDAG.edges_subclassof ontology_dag) parent_url)))
        as [(r & _ & Hc)|[(s' & r & Hnone & _ & Hc)|(s' & e' & _ & _ & Hc)]];
        rewrite Hc in Hcs; try discriminate.
      - injection Hcs as <- <-. by left.
      - injection Hcs as <- <-. right. done. }
    assert (Hst' : RunExecutor.invoked st' = RunExecutor.invoked st1
                   /\ RunExecutor.selection_cache st'
                      = RunExecutor.selection_cache st1 /\ o = None).
    { destruct Hv as [[_ Hv]|[(_ & _ & Hv)|(_ & _ & Hv)]];
        rewrite Hv in Hvisit; injection Hvisit as <- <-; try done.
      destruct (end_path_memo (RunExecutor.record_step st1 step current_path)
                  current_path) as [-> ->]. done. }
    destruct Hst' as (-> & -> & ->).
    destruct Hst1 as [[-> ->]|(Hnone & -> & ->)]; [by left|].
    right. split; [done|]. split; [done|]. right. eauto.
Qed.

End memo_facts.

(** In a run of [execute_column], whatever the selector, the run ends and
    the selector is called at most once for each parent id: the log of the
    parents it was called for has no repetition. When a parent is dequeued
    again its cached result is returned and nothing else changes: the
    selector, and so the language model behind it, is not called. *)
Lemma selector_invoked_once (self : RunExecutor.t)
    (table_name table_markdown column_name : string)
    (ontology_dag : OntologyDAG.t)
    (s0 : sel_state (RunExecutor.selector self)) :
  (exists fuel out,
      RunExecutor.execute_column self table_name table_markdown column_name
        ontology_dag fuel s0 = Some out)
  /\ (forall fuel st out,
        RunExecutor.execute_column self table_name table_markdown column_name
          ontology_dag fuel s0 = Some (st, out) ->
        NoDup (RunExecutor.invoked st)
        /\ forall parent_url,
             occurrences parent_url (RunExecutor.invoked st) <= 1)
  /\ (forall st parent_url candidates result,
        RunExecutor.selection_cache st !! parent_url = Some result ->
        RunExecutor.cached_select self table_name table_markdown column_name
          st parent_url candidates = (st, Returned result)).
Proof.
  split_and!.
  - apply execute_column_halts.
  - intros fuel st out Hexec.
    assert (Hnd : NoDup (RunExecutor.invoked st)).
    { unfold RunExecutor.execute_column in Hexec.
      destruct (RunExecutor.bfs_loop _ _ _ _ _ fuel _) as [[st' o]|] eqn:Hloop;
        [|done].
      assert (st' = st) as -> by (destruct o; by injection Hexec as -> _).
      refine (bfs_loop_invariant self table_name table_markdown column_name
                ontology_dag
                (fun st => NoDup (RunExecutor.invoked st)
                           /\ forall p, p ∈ RunExecutor.invoked st ->
                                is_Some (RunExecutor.selection_cache st !! p))
                (fun st => NoDup (RunExecutor.invoked st))
                _ _ _ fuel _ st o _ Hloop).
      - intros st1 level parent_url current_path rest st2 [Hnd Hcached] _ Hvisit.
        apply visit_memo in Hvisit
          as [[-> ->]|(Hnone & -> & [[e [=]]|[result ->]])]; simpl in *.
        + done.
        + split.
          * apply NoDup_app. split_and!; [done| |apply NoDup_singleton].
            intros p Hp ->%list_elem_of_singleton.
            apply Hcached in Hp as [? Hp]. congruence.
          * intros p Hp. rewrite lookup_insert. case_decide; [eauto|].
            apply Hcached. apply elem_of_app in Hp as [?|Hp]; [done|].
            apply list_elem_of_singleton in Hp. congruence.
      - intros st1 level parent_url current_path rest st2 e [Hnd Hcached] _ Hvisit.
        apply visit_memo in Hvisit as [[-> _]|(Hnone & -> & _)]; simpl in *;
          [done|].
        apply NoDup_app. split_and!; [done| |apply NoDup_singleton].
        intros p Hp ->%list_elem_of_singleton.
        apply Hcached in Hp as [? Hp]. congruence.
      - tauto.
      - simpl. split; [apply NoDup_nil_2|]. intros p Hp.
        by apply elem_of_nil in Hp. }
    split; [done|]. intros parent_url.
    clear Hexec. induction Hnd as [|p l Hp Hnd IH];
      [unfold occurrences; simpl; lia|].
    rewrite occurrences_cons. case_decide; [|done]. subst.
    pose proof (occurrences_pos parent_url l) as Hpos.
    assert (~ 0 < occurrences parent_url l) by tauto. lia.
  - intros st parent_url candidates result Hhit.
    unfold RunExecutor.cached_select. by rewrite Hhit.
Qed.

(** ** C3: the status of the column *)

(** An iteration records a step when it emits it, and only then. *)
Lemma visit_events (self : RunExecutor.t)
    (table_name table_markdown column_name : string)
    (ontology_dag : OntologyDAG.t)
    (st st' : RunExecutor.state (sel_state (RunExecutor.selector self)))
    level parent_url current_path rest o :
  RunExecutor.steps st = (RunExecutor.events st).*1 ->
  RunExecutor.visit self table_name table_markdown column_name ontology_dag
    (RunExecutor.dequeue st rest) level parent_url current_path = (st', o) ->
  RunExecutor.steps st' = (RunExecutor.events st').*1.
Proof.
  intros Hst.
  assert (Hkeep : forall st1 o1 candidates,
            RunExecutor.cached_select self table_name table_markdown column_name
              (RunExecutor.dequeue st rest) parent_url candidates = (st1, o1) ->
            RunExecutor.steps st1 = (RunExecutor.events st1).*1).
  { intros st1 o1 candidates. unfold RunExecutor.cached_select.
    destruct (RunExecutor.selection_cache _ !! parent_url).
    - by intros [= <- _].
    - destruct (sel_select _ _ _ _ _ _) as [s' [result|e]]; by intros [= <- _]. }
  assert (Hend :
    forall st1 : RunExecutor.state (sel_state (RunExecutor.selector self)),
            RunExecutor.steps st1 = (RunExecutor.events st1).*1 ->
            RunExecutor.steps (RunExecutor.end_path st1 current_path)
            = (RunExecutor.events (RunExecutor.end_path st1 current_path)).*1).
  { intros st1 Hst1. by destruct current_path. }
  destruct (visit_cases self table_name table_markdown column_name ontology_dag
              (RunExecutor.dequeue st rest) level parent_url current_path)
    as [Hv|[(st1 & e & Hcs & Hv)
           |(st1 & result & step & Hcs & _ & _ & _ & Hv)]].
  - rewrite Hv. intros [= <- _]. by apply Hend.
  - rewrite Hv. intros [= <- _]. by eapply Hkeep.
  - apply Hkeep in Hcs.
    assert (Hrec : RunExecutor.steps (RunExecutor.record_step st1 step current_path)
                   = (RunExecutor.events
                        (RunExecutor.record_step st1 step current_path)).*1).
    { simpl. by rewrite fmap_app, Hcs. }
    destruct Hv as [[_ Hv]|[(_ & _ & Hv)|(_ & _ & Hv)]]; rewrite Hv;
      intros [= <- _]; [done|by apply Hend|done].
Qed.

(** C3. [execute_column] always ends, and when it returns, the steps of
    the result are the steps the run recorded, in the order it recorded
    them, and the status of the column is [failed] if every recorded step
    has status [failed], [partial] if some but not all have, and
    [completed] otherwise. A run that records no step falls under the first
    case and returns [failed]; this is so when the root has no children and
    when [max_depth <= 0]. *)
Theorem column_status (self : RunExecutor.t)
    (table_name table_markdown column_name : string)
    (ontology_dag : OntologyDAG.t)
    (s0 : sel_state (RunExecutor.selector self)) :
  (exists fuel out,
      RunExecutor.execute_column self table_name table_markdown column_name
        ontology_dag fuel s0 = Some out)
  /\ forall fuel st r,
       RunExecutor.execute_column self table_name table_markdown column_name
         ontology_dag fuel s0 = Some (st, Returned r) ->
       let failed step := BFSStepDetail.status step = "failed" in
       let every_failed :=
         forall step, step ∈ RunExecutor.steps st -> failed step in
       let some_failed :=
         exists step, step ∈ RunExecutor.steps st /\ failed step in
       ColumnResultDetail.steps r = RunExecutor.steps st
       /\ RunExecutor.steps st = (RunExecutor.events st).*1
       /\ (every_failed -> ColumnResultDetail.status r = "failed")
       /\ (some_failed -> ~ every_failed ->
           ColumnResultDetail.status r = "partial")
       /\ (~ every_failed -> ~ (some_failed /\ ~ every_failed) ->
           ColumnResultDetail.status r = "completed")
       /\ (RunExecutor.steps st = [] ->
           ColumnResultDetail.status r = "failed")
       /\ (OntologyDAG.get_children ontology_dag (OntologyDAG.root ontology_dag) = []
           \/ (RunExecutor.max_depth self <= 0)%Z ->
           RunExecutor.steps st = []
           /\ ColumnResultDetail.status r = "failed").
Proof.
  split; [apply execute_column_halts|].
  intros fuel st r Hexec failed every_failed some_failed.
  unfold RunExecutor.execute_column in Hexec.
  destruct (RunExecutor.bfs_loop _ _ _ _ _ fuel _) as [[st' [e|]]|] eqn:Hloop;
    try discriminate.
  injection Hexec as -> <-.
  subst failed every_failed some_failed. unfold RunExecutor.finish. simpl.
  set (is_failed := fun step : BFSStepDetail.t =>
                      bool_decide (BFSStepDetail.status step = "failed")).
  assert (Hall : forallb is_failed (RunExecutor.steps st) = true
                 <-> forall step, step ∈ RunExecutor.steps st ->
                       BFSStepDetail.status step = "failed").
  { rewrite forallb_forall. subst is_failed. simpl.
    setoid_rewrite bool_decide_eq_true. setoid_rewrite list_elem_of_In. done. }
  assert (Hany : existsb is_failed (RunExecutor.steps st) = true
                 <-> exists step, step ∈ RunExecutor.steps st
                       /\ BFSStepDetail.status step = "failed").
  { rewrite existsb_exists. subst is_failed. simpl.
    setoid_rewrite bool_decide_eq_true. setoid_rewrite list_elem_of_In. done. }
  assert (Hzero : RunExecutor.steps st = [] ->
                  (if forallb is_failed (RunExecutor.steps st) then "failed"
                   else if existsb is_failed (RunExecutor.steps st)
                        then "partial" else "completed") = "failed").
  { by intros ->. }
  split_and!.
  - done.
  - eapply (bfs_loop_invariant self table_name table_markdown column_name
              ontology_dag
              (fun st => RunExecutor.steps st = (RunExecutor.events st).*1)
              (fun st => RunExecutor.steps st = (RunExecutor.events st).*1));
      [| |done| |exact Hloop]; [| |done].
    + intros st1 level parent_url current_path rest st2 Hst1 _ Hvisit.
      by eapply visit_events.
    + intros st1 level parent_url current_path rest st2 e Hst1 _ Hvisit.
      by eapply visit_events.
  - intros Hevery. apply Hall in Hevery. by rewrite Hevery.
  - intros Hsome Hnot. apply Hany in Hsome. rewrite Hsome.
    destruct (forallb is_failed (RunExecutor.steps st)) eqn:Hf; [|done].
    exfalso. apply Hnot. by apply Hall.
  - intros Hnot Hnotpartial.
    destruct (forallb is_failed (RunExecutor.steps st)) eqn:Hf.
    { exfalso. apply Hnot. by apply Hall. }
    destruct (existsb is_failed (RunExecutor.steps st)) eqn:He; [|done].
    exfalso. apply Hnotpartial. split; [by apply Hany|done].
  - done.
  - intros Hleaf.
    assert (Hsteps : RunExecutor.steps st = []); [|by split; [|apply Hzero]].
    destruct fuel as [|fuel]; [done|]. simpl in Hloop.
    unfold RunExecutor.visit in Hloop.
    assert (Hstop :
      bool_decide (od_get_list (OntologyDAG.edges_subclassof ontology_dag)
                     (OntologyDAG.root ontology_dag) = [])
      || bool_decide (RunExecutor.max_depth self ≤ Z.of_nat 0)%Z = true).
    { apply orb_true_iff. destruct Hleaf as [Hleaf|Hdepth].
      - left. by apply bool_decide_eq_true.
      - right. apply bool_decide_eq_true. lia. }
    rewrite Hstop in Hloop. simpl in Hloop.
    destruct fuel as [|fuel]; [done|]. simpl in Hloop.
    by injection Hloop as <-.
Qed.

(** ** C4: the result is never empty *)

Section path_facts.
Context (self : RunExecutor.t).
Context (table_name table_markdown column_name : string).
Context (ontology_dag : OntologyDAG.t).

Local Abbreviation St := (sel_state (RunExecutor.selector self)).
Local Abbreviation visit :=
  (RunExecutor.visit self table_name table_markdown column_name ontology_dag).
Local Abbreviation cached_select :=
  (RunExecutor.cached_select self table_name table_markdown column_name).
Implicit Types (st : RunExecutor.state St).

(** The selector of this section never returns a failed result. *)
Context (Hselector : forall candidates s s' result,
  sel_select (RunExecutor.selector self) table_name table_markdown column_name
    candidates s = (s', Returned result) ->
  SelectionResult.status result ≠ "failed").

Lemma cached_select_frame st parent_url candidates st1 result :
  (forall p r, RunExecutor.selection_cache st !! p = Some r ->
               SelectionResult.status r ≠ "failed") ->
  cached_select st parent_url candidates = (st1, Returned result) ->
  RunExecutor.steps st1 = RunExecutor.steps st
  /\ RunExecutor.final_paths st1 = RunExecutor.final_paths st
  /\ RunExecutor.queue st1 = RunExecutor.queue st
  /\ SelectionResult.status result ≠ "failed"
  /\ (forall p r, RunExecutor.selection_cache st1 !! p = Some r ->
                  SelectionResult.status r ≠ "failed").
Proof.
  intros Hcache Hcs.
  destruct (cached_select_cases self table_name table_markdown column_name
              st parent_url candidates)
    as [(r & Hhit & Hc)|[(s' & r & Hnone & Hsel & Hc)|(s' & e & _ & _ & Hc)]];
    rewrite Hc in Hcs; try discriminate; injection Hcs as <- <-.
  - split_and!; try done. by eapply Hcache.
  - simpl. split_and!; try done; [by eapply Hselector|].
    intros p r'. rewrite lookup_insert. case_decide.
    + intros [= <-]. by eapply Hselector.
    + apply Hcache.
Qed.

Lemma visit_nothing_selected st level parent_url current_path rest st' :
  nothing_selected st ->
  RunExecutor.queue st = (level, parent_url, current_path) :: rest ->
  visit (RunExecutor.dequeue st rest) level parent_url current_path = (st', None) ->
  nothing_selected st'.
Proof.
  intros [Hcache Hnone] Hq Hvisit. rewrite Hq in Hnone.
  destruct (visit_cases self table_name table_markdown column_name ontology_dag
              (RunExecutor.dequeue st rest) level parent_url current_path)
    as [Hv|[(st1 & e & _ & Hv)|(st1 & result & step & Hcs & Hstatus & Hsel & _ & Hv)]];
    try (rewrite Hv in Hvisit; discriminate).
  - rewrite Hv in Hvisit. injection Hvisit as <-. split.
    + intros p r. destruct current_path; apply Hcache.
    + intros Hsteps.
      destruct Hnone as [Hpaths Hqueue]; [by destruct current_path|].
      apply Forall_cons in Hqueue as [Hpath Hqueue]. simpl in Hpath. subst.
      done.
  - destruct (cached_select_frame (RunExecutor.dequeue st rest) _ _ _ _ Hcache Hcs)
      as (Hsteps1 & Hpaths1 & Hq1 & Hok & Hcache1).
    simpl in Hsteps1, Hpaths1, Hq1.
    destruct Hv as [[Hfailed _]|[(_ & Hempty & Hv)|(_ & Hsome & Hv)]]; [done| |];
      rewrite Hv in Hvisit; injection Hvisit as <-.
    + split; [by destruct current_path|]. intros Hsteps.
      destruct Hnone as [Hpaths Hqueue].
      { intros s Hs. apply Hsteps. destruct current_path; simpl;
          rewrite Hsteps1; apply elem_of_app; by left. }
      apply Forall_cons in Hqueue as [Hpath Hqueue]. simpl in Hpath.
      rewrite Hpath. simpl. by rewrite Hpaths1, Hq1.
    + split; [done|]. simpl. intros Hsteps. exfalso. apply Hsome.
      rewrite <- Hsel. apply Hsteps. apply elem_of_app. right.
      by apply list_elem_of_singleton.
Qed.

Lemma bfs_loop_nothing_selected fuel s0 st :
  RunExecutor.bfs_loop self table_name table_markdown column_name ontology_dag
    fuel (RunExecutor.initial self ontology_dag s0) = Some (st, None) ->
  (forall step, step ∈ RunExecutor.steps st -> BFSStepDetail.selected step = []) ->
  RunExecutor.final_paths st = [].
Proof.
  intros Hloop Hsteps.
  assert (Hgen : forall fuel st0, nothing_selected st0 ->
            RunExecutor.bfs_loop self table_name table_markdown column_name
              ontology_dag fuel st0 = Some (st, None) -> nothing_selected st).
  { clear Hloop Hsteps fuel.
    induction fuel as [|fuel IH]; intros st0 Hst0; simpl; [done|].
    destruct (RunExecutor.queue st0) as [|[[level parent_url] current_path] rest]
      eqn:Hq.
    - by intros [= <-].
    - destruct (visit _ _ _ _) as [st1 [e|]] eqn:Hvisit; [done|].
      intros Hloop. eapply IH; [|done].
      by eapply visit_nothing_selected. }
  assert (Hinit : nothing_selected (RunExecutor.initial self ontology_dag s0)).
  { split; [intros p r Hp; simpl in Hp; by rewrite lookup_empty in Hp|].
    intros _. simpl. split; [done|]. by apply Forall_singleton. }
  destruct (Hgen fuel _ Hinit Hloop) as [_ Hnone]. by apply Hnone.
Qed.

End path_facts.

(** [DetailedSelector.select] never returns a failed result: an oracle call
    cannot raise past the retry wrapper. *)
Lemma select_completed (E : Env) (self : DetailedSelector.t)
    (table_name table_in_markdown column_name : string)
    (candidates : list string) (w w' : World E) (result : SelectionResult.t) :
  DetailedSelector.select self table_name table_in_markdown column_name
    candidates w = (w', Returned result) ->
  SelectionResult.status result = "completed".
Proof.
  unfold DetailedSelector.select. case_decide.
  - unfold DetailedSelector.select_edm. destruct candidates as [|c0 cs].
    + by intros [= _ <-].
    + case_decide; [done|]. unfold DetailedSelector.bind.
      destruct (DetailedSelector._assign_classes_to_agents _ _ _ w)
        as [w1 [assignments|e]]; [|done].
      destruct (collect_votes_spec self table_name table_in_markdown
                  column_name (c0 :: cs) assignments w1)
        as (w2 & r & edm & -> & _ & Hstatus & _).
      by intros [= _ <-].
  - unfold DetailedSelector.select_single. destruct candidates as [|c0 cs].
    + by intros [= _ <-].
    + destruct (call_llm_with_retry_returns self
                  (DetailedSelector.data_for table_name table_in_markdown
                     column_name (c0 :: cs)) w)
        as (w1 & request & response & ->).
      by intros [= _ <-].
Qed.

(** The paths [execute_column] returns, given those it collected. *)
Lemma finish_final_paths (self : RunExecutor.t) (column_name : string)
    (st : RunExecutor.state (sel_state (RunExecutor.selector self))) :
  ColumnResultDetail.final_paths (RunExecutor.finish self column_name st) ≠ []
  /\ (RunExecutor.final_paths st = [] ->
      ColumnResultDetail.final_paths (RunExecutor.finish self column_name st)
      = [[]])
  /\ (RunExecutor.final_paths st ≠ [] ->
      ColumnResultDetail.final_paths (RunExecutor.finish self column_name st)
      = RunExecutor.final_paths st).
Proof.
  unfold RunExecutor.finish. simpl.
  destruct (RunExecutor.final_paths st); split_and!; done.
Qed.

(** C4. With the selector [RunExecutor] builds, [execute_column] always
    ends, and when it returns, [final_paths] is not empty: it is the list
    of the terminal paths collected, or the single empty path [[[]]] if none
    was collected. In particular, if no step selected any candidate, the
    result is [[[]]]. *)
Theorem final_paths_never_empty (E : Env) (selector : DetailedSelector.t)
    (max_depth : Z) (table_name table_markdown column_name : string)
    (ontology_dag : OntologyDAG.t) (w0 : World E) :
  let self :=
    {| RunExecutor.selector := detailed_selector E selector;
       RunExecutor.max_depth := max_depth |} in
  (exists fuel out,
      RunExecutor.execute_column self table_name table_markdown column_name
        ontology_dag fuel w0 = Some out)
  /\ forall fuel st r,
       RunExecutor.execute_column self table_name table_markdown column_name
         ontology_dag fuel w0 = Some (st, Returned r) ->
       ColumnResultDetail.final_paths r ≠ []
       /\ (RunExecutor.final_paths st = [] ->
           ColumnResultDetail.final_paths r = [[]])
       /\ (RunExecutor.final_paths st ≠ [] ->
           ColumnResultDetail.final_paths r = RunExecutor.final_paths st)
       /\ ((forall step, step ∈ ColumnResultDetail.steps r ->
                         BFSStepDetail.selected step = []) ->
           ColumnResultDetail.final_paths r = [[]]).
Proof.
  intros self. split; [apply (execute_column_halts self)|].
  intros fuel st r Hexec. unfold RunExecutor.execute_column in Hexec.
  destruct (RunExecutor.bfs_loop _ _ _ _ _ fuel _) as [[st' [e|]]|] eqn:Hloop;
    try discriminate.
  injection Hexec as -> <-.
  assert (Hnone : (forall step, step ∈ RunExecutor.steps st ->
                     BFSStepDetail.selected step = []) ->
                  RunExecutor.final_paths st = []).
  { eapply (bfs_loop_nothing_selected self); [|exact Hloop].
    intros candidates s s' result Hsel.
    apply select_completed in Hsel. rewrite Hsel. discriminate. }
  destruct (finish_final_paths self column_name st) as (Hne & Hempty & Hsome).
  split_and!; [done|done|done|].
  intros Hsteps. apply Hempty, Hnone, Hsteps.
Qed.

(** ** C1: the scenario *)

(** C1, as stated, fails: when only [A] is selected below the root, [B] is
    never expanded, so no path through [B] can be returned. The run makes
    one step and returns the single path [A]. *)
Lemma scenario_only_A_gives_one_path :
  exists st r,
    RunExecutor.execute_column (scenario_executor "A") "table" "| a |" "a"
      scenario_dag 4 (fresh (scenario_env "A") tt tt) = Some (st, Returned r)
    /\ ColumnResultDetail.final_paths r = [["A"]]
    /\ ColumnResultDetail.final_paths r ≠ [["A"]; ["B"; "C"]]
    /\ length (ColumnResultDetail.steps r) = 1
    /\ ColumnResultDetail.status r = "completed".
Proof. eexists _, _. split; [by vm_compute|]. by vm_compute. Qed.

(** C1 (amended). On the graph with root [R], children [A] and [B], [A] a
    leaf and [B] with the single child [C], with the single strategy and
    [max_depth = 3]: if the oracle selects [A] below the root, the run
    returns [final_paths = [["A"]]] with status [completed]; the result
    [[["A"], ["B","C"]]] with status [completed] is what the run returns
    when the oracle selects both [A] and [B] below the root and [C] below
    [B]. *)
Theorem scenario_final_paths (table_name table_markdown column_name : string) :
  (exists fuel st r,
      RunExecutor.execute_column (scenario_executor "A") table_name
        table_markdown column_name scenario_dag fuel
        (fresh (scenario_env "A") tt tt) = Some (st, Returned r)
      /\ ColumnResultDetail.final_paths r = [["A"]]
      /\ ColumnResultDetail.status r = "completed")
  /\ (exists fuel st r,
        RunExecutor.execute_column (scenario_executor "A, B") table_name
          table_markdown column_name scenario_dag fuel
          (fresh (scenario_env "A, B") tt tt) = Some (st, Returned r)
        /\ ColumnResultDetail.final_paths r = [["A"]; ["B"; "C"]]
        /\ ColumnResultDetail.status r = "completed").
Proof.
  split.
  - exists 4. eexists _, _. split; [by vm_compute|]. by vm_compute.
  - exists 6. eexists _, _. split; [by vm_compute|]. by vm_compute.
Qed.

(** ** The paths [execute_column] returns *)

Lemma url_of_selected_spec dag children_urls selected_name url :
  RunExecutor.url_of_selected dag children_urls selected_name = Some url ->
  url ∈ children_urls
  /\ exists node, od_get (OntologyDAG.nodes dag) url = Some node
                  /\ OntologyClass.name node = selected_name.
Proof.
  induction children_urls as [|u rest IH]; simpl; [done|].
  destruct (od_get (OntologyDAG.nodes dag) u) as [node|] eqn:Hnode.
  - case_decide as Hname.
    + intros [= <-]. split; [apply list_elem_of_here|]. eauto.
    + intros Hrest. destruct (IH Hrest) as [? ?]. split; [by right|done].
  - intros Hrest. destruct (IH Hrest) as [? ?]. split; [by right|done].
Qed.

Lemma expansions_spec dag children_urls level current_path selected item :
  item ∈ RunExecutor.expansions dag children_urls level current_path selected ->
  exists url node,
    item = (level + 1, url, current_path ++ [OntologyClass.name node])
    /\ OntologyClass.name node ∈ selected
    /\ url ∈ children_urls
    /\ od_get (OntologyDAG.nodes dag) url = Some node.
Proof.
  unfold RunExecutor.expansions. rewrite list_elem_of_omap.
  intros (selected_name & Hsel & Hitem).
  destruct (RunExecutor.url_of_selected dag children_urls selected_name)
    as [url|] eqn:Hurl; [|done].
  case_decide; [done|]. injection Hitem as <-.
  apply url_of_selected_spec in Hurl as (Hin & node & Hnode & <-).
  eauto 10.
Qed.

Section path_shape.
Context (self : RunExecutor.t).
Context (table_name table_markdown column_name : string).
Context (ontology_dag : OntologyDAG.t).

Local Abbreviation St := (sel_state (RunExecutor.selector self)).
Local Abbreviation visit :=
  (RunExecutor.visit self table_name table_markdown column_name ontology_dag).
Local Abbreviation cached_select :=
  (RunExecutor.cached_select self table_name table_markdown column_name).
Implicit Types (st : RunExecutor.state St).

Lemma cached_select_keeps st parent_url candidates st1 o :
  cached_select st parent_url candidates = (st1, o) ->
  RunExecutor.steps st1 = RunExecutor.steps st
  /\ RunExecutor.final_paths st1 = RunExecutor.final_paths st
  /\ RunExecutor.queue st1 = RunExecutor.queue st.
Proof.
  unfold RunExecutor.cached_select.
  destruct (RunExecutor.selection_cache st !! parent_url).
  - by intros [= <- _].
  - destruct (sel_select _ _ _ _ _ _) as [s' [result|e]]; by intros [= <- _].
Qed.

Lemma end_path_inv st level parent_url current_path :
  paths_inv self ontology_dag st ->
  length current_path = level ->
  (Z.of_nat level <= 0 `max` RunExecutor.max_depth self)%Z ->
  chain ontology_dag (OntologyDAG.root ontology_dag) current_path parent_url ->
  paths_inv self ontology_dag (RunExecutor.end_path st current_path).
Proof.
  intros (Hq & Hp & Hs) Hlen Hlevel Hchain.
  destruct current_path as [|n names]; [done|]. simpl.
  split_and!; [done| |done]. apply Forall_app. split; [done|].
  apply Forall_singleton. split; [rewrite Hlen; lia|].
  exists (n :: names), parent_url. split; [done|by left].
Qed.

Lemma visit_paths_inv st level parent_url current_path rest st' o :
  paths_inv self ontology_dag st ->
  RunExecutor.queue st = (level, parent_url, current_path) :: rest ->
  visit (RunExecutor.dequeue st rest) level parent_url current_path = (st', o) ->
  paths_inv self ontology_dag st'.
Proof.
  intros (Hq & Hp & Hs) Hqueue. rewrite Hqueue in Hq.
  apply Forall_cons in Hq as [(Hlen & Hlevel & Hchain) Hq]. simpl in *.
  assert (Hst : paths_inv self ontology_dag (RunExecutor.dequeue st rest))
    by done.
  unfold RunExecutor.visit.
  destruct (bool_decide (od_get_list _ parent_url = [])
            || bool_decide (RunExecutor.max_depth self ≤ Z.of_nat level)%Z)
    eqn:Hstop.
  { intros [= <- _]. by eapply end_path_inv. }
  apply orb_false_iff in Hstop as [_ Hdepth].
  apply bool_decide_eq_false in Hdepth.
  case_bool_decide as Hcand.
  { intros [= <- _]. by eapply end_path_inv. }
  destruct (cached_select _ _ _) as [st1 [result|e]] eqn:Hcs.
  2:{ intros [= <- _].
      apply cached_select_keeps in Hcs as (Hs1 & Hp1 & Hq1). simpl in *.
      unfold paths_inv. by rewrite Hs1, Hp1, Hq1. }
  apply cached_select_keeps in Hcs as (Hs1 & Hp1 & Hq1). simpl in *.
  set (step := RunExecutor.step_of level _ _ result).
  assert (Hst2 : paths_inv self ontology_dag
                   (RunExecutor.record_step st1 step current_path)).
  { unfold paths_inv. simpl. rewrite Hs1, Hp1, Hq1. split_and!; [done..|].
    apply Forall_app. split; [done|]. apply Forall_singleton.
    simpl. split; [lia|done]. }
  case_decide as Hfailed.
  { intros [= <- _]. destruct Hst2 as (Hq2 & Hp2 & Hs2).
    split_and!; [done| |done]. simpl. apply Forall_app. split; [done|].
    apply Forall_singleton. split.
    - rewrite length_app. simpl. lia.
    - exists current_path, parent_url. split; [done|by right]. }
  case_bool_decide as Hnone.
  { intros [= <- _]. eapply end_path_inv; [done|done| |done]. lia. }
  intros [= <- _]. destruct Hst2 as (Hq2 & Hp2 & Hs2).
  split_and!; [|done..]. simpl. apply Forall_app. split; [done|].
  apply Forall_forall. intros item Hitem.
  apply expansions_spec in Hitem as (url & node & -> & _ & Hurl & Hnode).
  simpl. split_and!.
  - rewrite length_app. simpl. lia.
  - lia.
  - by eapply chain_snoc.
Qed.

Lemma bfs_loop_paths_inv fuel st st' o :
  paths_inv self ontology_dag st ->
  RunExecutor.bfs_loop self table_name table_markdown column_name ontology_dag
    fuel st = Some (st', o) ->
  paths_inv self ontology_dag st'.
Proof.
  apply (bfs_loop_invariant self table_name table_markdown column_name
           ontology_dag (paths_inv self ontology_dag)
           (paths_inv self ontology_dag)).
  - intros. by eapply visit_paths_inv.
  - intros. by eapply visit_paths_inv.
  - done.
Qed.

Lemma initial_paths_inv (s0 : St) :
  paths_inv self ontology_dag (RunExecutor.initial self ontology_dag s0).
Proof.
  split_and!; simpl; [|done..]. apply Forall_singleton. simpl.
  split_and!; [done|lia|apply chain_nil].
Qed.

End path_shape.

(** A run of [execute_column] ends, and when it returns, every path of
    [final_paths] has at most [max_depth] elements (none if [max_depth] is
    negative), the mark [[terminated]] included; every recorded step was
    made at a level below [max_depth] and on at least one candidate. This
    holds for every selector. *)
Theorem final_paths_within_max_depth (self : RunExecutor.t)
    (table_name table_markdown column_name : string)
    (ontology_dag : OntologyDAG.t)
    (s0 : sel_state (RunExecutor.selector self)) :
  (exists fuel out,
      RunExecutor.execute_column self table_name table_markdown column_name
        ontology_dag fuel s0 = Some out)
  /\ forall fuel st r,
       RunExecutor.execute_column self table_name table_markdown column_name
         ontology_dag fuel s0 = Some (st, Returned r) ->
       (forall path, path ∈ ColumnResultDetail.final_paths r ->
          (Z.of_nat (length path) <= 0 `max` RunExecutor.max_depth self)%Z)
       /\ (forall step, step ∈ ColumnResultDetail.steps r ->
             (Z.of_nat (BFSStepDetail.level step) < RunExecutor.max_depth self)%Z
             /\ BFSStepDetail.candidates step <> []).
Proof.
  split; [apply execute_column_halts|].
  intros fuel st r Hexec. unfold RunExecutor.execute_column in Hexec.
  destruct (RunExecutor.bfs_loop _ _ _ _ _ fuel _) as [[st' [e|]]|] eqn:Hloop;
    try discriminate.
  injection Hexec as -> <-.
  apply bfs_loop_paths_inv in Hloop as (_ & Hp & Hs);
    [|apply initial_paths_inv].
  rewrite Forall_forall in Hp. rewrite Forall_forall in Hs. split.
  - intros path. unfold RunExecutor.finish. simpl.
    destruct (RunExecutor.final_paths st) as [|p ps] eqn:Hfinal.
    + intros ->%list_elem_of_singleton. simpl. lia.
    + intros Hpath. by apply Hp.
  - intros step Hstep. by apply Hs.
Qed.

(** A run of [execute_column] ends, and when it returns, every path of
    [final_paths] follows the graph: its names are those of the nodes met
    along a chain of [edges_subclassof] that starts at the root, each a
    child of the one before, with [[terminated]] after them when the branch
    was ended by a failed selection. The single empty path is the chain that
    stays at the root. This holds for every selector, whatever it selects. *)
Theorem final_paths_follow_edges (self : RunExecutor.t)
    (table_name table_markdown column_name : string)
    (ontology_dag : OntologyDAG.t)
    (s0 : sel_state (RunExecutor.selector self)) :
  (exists fuel out,
      RunExecutor.execute_column self table_name table_markdown column_name
        ontology_dag fuel s0 = Some out)
  /\ forall fuel st r,
       RunExecutor.execute_column self table_name table_markdown column_name
         ontology_dag fuel s0 = Some (st, Returned r) ->
       forall path, path ∈ ColumnResultDetail.final_paths r ->
         traced ontology_dag path.
Proof.
  split; [apply execute_column_halts|].
  intros fuel st r Hexec. unfold RunExecutor.execute_column in Hexec.
  destruct (RunExecutor.bfs_loop _ _ _ _ _ fuel _) as [[st' [e|]]|] eqn:Hloop;
    try discriminate.
  injection Hexec as -> <-.
  apply bfs_loop_paths_inv in Hloop as (_ & Hp & _);
    [|apply initial_paths_inv].
  rewrite Forall_forall in Hp.
  intros path. unfold RunExecutor.finish. simpl.
  destruct (RunExecutor.final_paths st) as [|p ps] eqn:Hfinal.
  - intros ->%list_elem_of_singleton.
    exists [], (OntologyDAG.root ontology_dag). split; [apply chain_nil|by left].
  - intros Hpath. by apply Hp.
Qed.

(** ** The single strategy *)

(** [select_single] never raises and never fails: its status is
    [completed]. What it selects are candidates, named in the parsed answer.
    It asks the language model at most [max_retries] times, always showing
    it the candidates joined by a comma and a blank; with no candidate it
    does not ask at all and the world is left as it was. *)
Theorem select_single_selects_candidates (E : Env) (self : DetailedSelector.t)
    (table_name table_in_markdown column_name : string)
    (candidates : list string) (w : World E) :
  exists w' result attempts,
    DetailedSelector.select_single self table_name table_in_markdown
      column_name candidates w = (w', Returned result)
    /\ SelectionResult.status result = "completed"
    /\ SelectionResult.error result = None
    /\ (forall c, c ∈ SelectionResult.selected result -> c ∈ candidates)
    /\ (forall c response,
          c ∈ SelectionResult.selected result ->
          SelectionResult.llm_response result = Some response ->
          c ∈ parse_class_list (LLMResponseDetail.answer response))
    /\ attempts <= Z.to_nat (DetailedSelector.max_retries self)
    /\ calls w'
       = calls w
         ++ replicate attempts
              (DetailedSelector.data_for table_name table_in_markdown
                 column_name candidates)
    /\ LlmData.current_level_ontology_classes
         (DetailedSelector.data_for table_name table_in_markdown column_name
            candidates)
       = join ", " candidates
    /\ (candidates = [] -> w' = w /\ SelectionResult.selected result = []).
Proof.
  unfold DetailedSelector.select_single.
  destruct candidates as [|c0 cs].
  { eexists w, _, 0. split; [done|]. simpl. rewrite app_nil_r.
    split_and!; try done; lia. }
  set (candidates := c0 :: cs).
  set (data := DetailedSelector.data_for _ _ _ candidates).
  unfold DetailedSelector._call_llm_with_retry.
  pose proof (attempt_loop_spec self data
                (Z.to_nat (DetailedSelector.max_retries self)) 0 None w) as Hspec.
  destruct (DetailedSelector.attempt_loop self data _ None w)
    as [w' [response|last]].
  - destruct Hspec as (j & Hj & Hcalls & _).
    eexists w', _, (S j). split; [done|]. simpl.
    split_and!; try done; try lia.
    + intros c Hc. destruct (no_answer _); [by apply elem_of_nil in Hc|].
      by apply list_elem_of_filter in Hc as [? _].
    + intros c response' Hc [= <-].
      destruct (no_answer _); [by apply elem_of_nil in Hc|].
      by apply list_elem_of_filter in Hc as [_ ?].
  - destruct Hspec as (Hcalls & _).
    eexists w', _, (Z.to_nat (DetailedSelector.max_retries self)).
    split; [done|]. simpl.
    split_and!; try done.
    + intros c Hc. by apply elem_of_nil in Hc.
    + intros c response' Hc. by apply elem_of_nil in Hc.
Qed.

(** ** The ensemble: summaries and requests *)

Lemma filter_ext_in {A} (P Q : A -> Prop) `{!forall x, Decision (P x)}
    `{!forall x, Decision (Q x)} (l : list A) :
  (forall x, x ∈ l -> P x <-> Q x) -> filter P l = filter Q l.
Proof.
  induction l as [|x l IH]; intros Hiff; [done|].
  rewrite !filter_cons.
  pose proof (Hiff x (list_elem_of_here _ _)) as Hx.
  rewrite IH by (intros; apply Hiff; by right).
  repeat case_decide; tauto.
Qed.

(** The summary the loop over the candidates builds: an entry for each
    candidate some agent saw, and the names of those that pass the test. *)
Lemma summarize_fold threshold (seen votes : gmap string nat) candidates acc :
  let passes c :=
    PrimFloat.leb threshold
      (py_truediv (default 0 (votes !! c)) (default 0 (seen !! c)))
    && bool_decide (0 < default 0 (votes !! c)) in
  foldl (DetailedSelector.summarize threshold seen votes) acc candidates
  = (acc.1 ++
     ((fun c =>
         {| VoteSummaryDetail.class_name := c;
            VoteSummaryDetail.vote_count := default 0 (votes !! c);
            VoteSummaryDetail.total_agents := default 0 (seen !! c);
            VoteSummaryDetail.percentage :=
              py_truediv (default 0 (votes !! c)) (default 0 (seen !! c));
            VoteSummaryDetail.selected := passes c |})
        <$> filter (fun c => 0 < default 0 (seen !! c)) candidates),
     acc.2 ++
     filter (fun c => 0 < default 0 (seen !! c) /\ passes c = true) candidates).
Proof.
  intros passes. revert acc.
  induction candidates as [|c candidates IH]; intros [summary selected]; simpl.
  - by rewrite !app_nil_r.
  - rewrite IH. unfold DetailedSelector.summarize at 1 2. simpl.
    rewrite !filter_cons. fold (passes c).
    case_bool_decide as Hseen.
    + rewrite decide_True by done. csimpl.
      destruct (passes c) eqn:Hpass.
      * rewrite decide_True by done. simpl. by rewrite <- !app_assoc.
      * rewrite decide_False by (intros [_ ?]; done). simpl.
        by rewrite <- !app_assoc.
    + rewrite decide_False by done.
      rewrite decide_False by (intros [? _]; done). done.
Qed.

Lemma insert_by_votes_perm v sorted :
  DetailedSelector.insert_by_votes v sorted ≡ₚ v :: sorted.
Proof.
  induction sorted as [|x sorted IH]; simpl; [done|].
  case_bool_decide; [done|]. rewrite IH. apply perm_swap.
Qed.

Lemma insert_by_votes_sorted v sorted :
  StronglySorted
    (fun a b => VoteSummaryDetail.vote_count b <= VoteSummaryDetail.vote_count a)
    sorted ->
  StronglySorted
    (fun a b => VoteSummaryDetail.vote_count b <= VoteSummaryDetail.vote_count a)
    (DetailedSelector.insert_by_votes v sorted).
Proof.
  induction 1 as [|x sorted Hsorted IH Hx]; simpl.
  - repeat constructor.
  - case_bool_decide as Hlt.
    + constructor; [by constructor|]. constructor; [lia|].
      eapply Forall_impl; [exact Hx|]. simpl. intros y Hy. lia.
    + constructor; [done|]. rewrite insert_by_votes_perm.
      constructor; [lia|done].
Qed.

Lemma sort_by_votes_perm summary :
  DetailedSelector.sort_by_votes summary ≡ₚ summary.
Proof.
  unfold DetailedSelector.sort_by_votes.
  assert (Hgen : forall sorted,
    foldl (fun sorted v => DetailedSelector.insert_by_votes v sorted) sorted summary
    ≡ₚ sorted ++ summary).
  { induction summary as [|v summary IH]; intros sorted; simpl.
    - by rewrite app_nil_r.
    - rewrite IH, insert_by_votes_perm. simpl. apply Permutation_middle. }
  apply Hgen.
Qed.

Lemma sort_by_votes_sorted summary :
  StronglySorted
    (fun a b => VoteSummaryDetail.vote_count b <= VoteSummaryDetail.vote_count a)
    (DetailedSelector.sort_by_votes summary).
Proof.
  unfold DetailedSelector.sort_by_votes.
  assert (Hgen : forall sorted,
    StronglySorted
      (fun a b => VoteSummaryDetail.vote_count b <= VoteSummaryDetail.vote_count a)
      sorted ->
    StronglySorted
      (fun a b => VoteSummaryDetail.vote_count b <= VoteSummaryDetail.vote_count a)
      (foldl (fun sorted v => DetailedSelector.insert_by_votes v sorted)
         sorted summary)).
  { induction summary as [|v summary IH]; intros sorted Hsorted; simpl; [done|].
    apply IH. by apply insert_by_votes_sorted. }
  apply Hgen. constructor.
Qed.

Section ensemble_requests.
Context {E : Env}.
Implicit Types (w : World E) (acc : DetailedSelector.tally).

(** Assigning the classes draws from [random] only. *)
Lemma agents_for_keeps (num_agents avg_agents_per_class : Z) w :
  let out := DetailedSelector.agents_for num_agents avg_agents_per_class w in
  llm out.1 = llm w /\ calls out.1 = calls w /\ slept out.1 = slept w.
Proof.
  unfold DetailedSelector.agents_for, DetailedSelector.py_random_sample,
    DetailedSelector.ret.
  repeat case_bool_decide; simpl; try done.
  by destruct (random_sample E _ _ _).
Qed.

Lemma assign_loop_keeps classes (num_agents avg_agents_per_class : Z)
    assignments w :
  let out :=
    DetailedSelector.assign_loop classes num_agents avg_agents_per_class
      assignments w in
  llm out.1 = llm w /\ calls out.1 = calls w /\ slept out.1 = slept w.
Proof.
  revert assignments w.
  induction classes as [|class_ classes IH]; intros assignments w; simpl;
    [done|].
  unfold DetailedSelector.bind.
  pose proof (agents_for_keeps num_agents avg_agents_per_class w) as Hfor.
  destruct (DetailedSelector.agents_for _ _ w) as [w1 [picked|e]];
    simpl in Hfor; [|done].
  destruct Hfor as (Hl1 & Hc1 & Hs1).
  destruct (DetailedSelector.append_to_agents _ _ _) as [a1|e]; [|done].
  destruct (IH a1 w1) as (Hl2 & Hc2 & Hs2).
  rewrite Hl2, Hc2, Hs2. done.
Qed.

Lemma assign_classes_keeps classes (num_agents avg_agents_per_class : Z) w :
  let out :=
    DetailedSelector._assign_classes_to_agents classes num_agents
      avg_agents_per_class w in
  llm out.1 = llm w /\ calls out.1 = calls w /\ slept out.1 = slept w.
Proof.
  unfold DetailedSelector._assign_classes_to_agents, DetailedSelector.bind.
  pose proof (assign_loop_keeps classes num_agents avg_agents_per_class
                (replicate (Z.to_nat num_agents) []) w) as Hloop.
  by destruct (DetailedSelector.assign_loop _ _ _ _ _) as [w1 [a|e]].
Qed.

(** One agent asks for its own classes, at most [max_retries] times, and
    not at all when it has none. *)
Lemma agent_vote_calls self tn md cn acc agent_id agent_classes w :
  exists attempts,
    calls (DetailedSelector.agent_vote self tn md cn acc agent_id
             agent_classes w).1
    = calls w ++ replicate attempts (DetailedSelector.data_for tn md cn agent_classes)
    /\ attempts <= Z.to_nat (DetailedSelector.max_retries self)
    /\ (agent_classes = [] -> attempts = 0).
Proof.
  unfold DetailedSelector.agent_vote. destruct agent_classes as [|c0 cs].
  - exists 0. simpl. rewrite app_nil_r. split_and!; [done|lia|done].
  - unfold DetailedSelector._call_llm_with_retry.
    pose proof (attempt_loop_spec self
                  (DetailedSelector.data_for tn md cn (c0 :: cs))
                  (Z.to_nat (DetailedSelector.max_retries self)) 0 None w)
      as Hspec.
    destruct (DetailedSelector.attempt_loop self _ _ None w)
      as [w' [response|last]]; simpl.
    + destruct Hspec as (j & Hj & Hcalls & _). exists (S j).
      split_and!; [done|lia|done].
    + destruct Hspec as (Hcalls & _). eexists. split_and!; [done|lia|done].
Qed.

Lemma agents_loop_calls self tn md cn assignments acc agent_id w :
  exists new,
    calls (DetailedSelector.agents_loop self tn md cn acc agent_id
             assignments w).1
    = calls w ++ new
    /\ length new
       <= length assignments * Z.to_nat (DetailedSelector.max_retries self)
    /\ Forall
         (fun data =>
            exists agent_classes,
              agent_classes ∈ assignments /\ agent_classes <> []
              /\ data = DetailedSelector.data_for tn md cn agent_classes)
         new.
Proof.
  revert acc agent_id w.
  induction assignments as [|agent_classes assignments IH];
    intros acc agent_id w; simpl.
  - exists []. rewrite app_nil_r. split_and!; [done|simpl; lia|done].
  - destruct (agent_vote_calls self tn md cn acc agent_id agent_classes w)
      as (attempts & Hcalls & Hle & Hnone).
    destruct (DetailedSelector.agent_vote _ _ _ _ _ _ _ _) as [w1 acc1].
    simpl in Hcalls.
    destruct (IH acc1 (S agent_id) w1) as (new & Hnew & Hlen & Hall).
    exists (replicate attempts (DetailedSelector.data_for tn md cn agent_classes)
            ++ new).
    split_and!.
    + by rewrite Hnew, Hcalls, <- app_assoc.
    + rewrite length_app, length_replicate. lia.
    + apply Forall_app. split.
      * apply Forall_forall. intros data [-> Hpos]%elem_of_replicate.
        exists agent_classes. split_and!; [apply list_elem_of_here| |done].
        intros Hnil. apply Hnone in Hnil. lia.
      * eapply Forall_impl; [exact Hall|]. simpl.
        intros data (l & Hl & Hne & ->). exists l. split_and!; [by right|done..].
Qed.

End ensemble_requests.

Section ensemble_summary.
Context {E : Env}.

Lemma collect_votes_calls self tn md cn candidates assignments (w : World E) :
  exists new,
    calls (DetailedSelector.collect_votes self tn md cn candidates
             assignments w).1
    = calls w ++ new
    /\ length new
       <= length assignments * Z.to_nat (DetailedSelector.max_retries self)
    /\ Forall
         (fun data =>
            exists agent_classes,
              agent_classes ∈ assignments /\ agent_classes <> []
              /\ data = DetailedSelector.data_for tn md cn agent_classes)
         new.
Proof.
  unfold DetailedSelector.collect_votes.
  pose proof (agents_loop_calls self tn md cn assignments
                {| DetailedSelector.agent_results := [];
                   DetailedSelector.votes_per_class := ∅;
                   DetailedSelector.failed_agents := 0 |} 1 w) as Hcalls.
  by destruct (DetailedSelector.agents_loop _ _ _ _ _ _ _ _) as [w' voted].
Qed.

(** The summary of the votes once the classes are assigned. *)
Lemma collect_votes_summary self tn md cn candidates assignments (w : World E) :
  exists w' result edm,
    DetailedSelector.collect_votes self tn md cn candidates assignments w
    = (w', Returned result)
    /\ SelectionResult.edm_result result = Some edm
    /\ SelectionResult.selected result `sublist_of` candidates
    /\ StronglySorted
         (fun a b => VoteSummaryDetail.vote_count b <= VoteSummaryDetail.vote_count a)
         (EDMResultDetail.votes_summary edm)
    /\ VoteSummaryDetail.class_name <$> EDMResultDetail.votes_summary edm
       ≡ₚ filter (fun c => 0 < seen_by (EDMResultDetail.agents edm) c) candidates
    /\ Forall
         (fun v =>
            VoteSummaryDetail.total_agents v
            = seen_by (EDMResultDetail.agents edm) (VoteSummaryDetail.class_name v)
            /\ VoteSummaryDetail.vote_count v
               = votes_for (EDMResultDetail.agents edm) (VoteSummaryDetail.class_name v)
            /\ VoteSummaryDetail.percentage v
               = py_truediv (VoteSummaryDetail.vote_count v)
                   (VoteSummaryDetail.total_agents v)
            /\ (VoteSummaryDetail.selected v = true
                <-> VoteSummaryDetail.class_name v ∈ SelectionResult.selected result))
         (EDMResultDetail.votes_summary edm).
Proof.
  unfold DetailedSelector.collect_votes.
  destruct (agents_loop_spec self tn md cn assignments
              {| DetailedSelector.agent_results := [];
                 DetailedSelector.votes_per_class := ∅;
                 DetailedSelector.failed_agents := 0 |} 1 w)
    as (w' & voted & rs & -> & Hres & Hasg & Hall & Hfail & Hvotes).
  simpl in Hres, Hfail, Hvotes. subst rs.
  rewrite summarize_fold. simpl.
  eexists w', _, _. split; [done|]. simpl.
  assert (Hseen : forall c, c ∈ candidates ->
            default 0 (DetailedSelector.count_seen candidates assignments !! c)
            = seen_by (DetailedSelector.agent_results voted) c).
  { intros c Hc. rewrite count_seen_lookup by done.
    by rewrite <- Hasg, seen_by_assignments. }
  assert (Hcount : forall c,
            default 0 (DetailedSelector.votes_per_class voted !! c)
            = votes_for (DetailedSelector.agent_results voted) c).
  { intros c. rewrite Hvotes, lookup_empty. done. }
  split_and!; [done|apply sublist_filter|apply sort_by_votes_sorted| |].
  - simpl. rewrite sort_by_votes_perm, <- list_fmap_compose.
    rewrite (list_fmap_ext _ id); [|done]. rewrite list_fmap_id.
    erewrite filter_ext_in; [done|]. intros c Hc. simpl. by rewrite Hseen.
  - simpl. rewrite sort_by_votes_perm. apply Forall_fmap, Forall_forall.
    intros c [Hpos Hc]%list_elem_of_filter. simpl.
    split_and!; [by apply Hseen|by apply Hcount|done|].
    rewrite list_elem_of_filter. tauto.
Qed.

End ensemble_summary.

(** When the ensemble returns on at least one candidate, its summary of
    the votes has one entry for each candidate that some agent saw, ordered
    by falling vote count. An entry carries the number of agents that saw
    the candidate, the votes they cast for it and their quotient, and it is
    flagged as selected exactly when its candidate is among the selected
    names. The selected names keep the order of the candidates. *)
Theorem ensemble_votes_summary (E : Env) (self : DetailedSelector.t)
    (table_name table_in_markdown column_name : string)
    (candidates : list string) (w w' : World E) (result : SelectionResult.t) :
  DetailedSelector.select_edm self table_name table_in_markdown column_name
    candidates w = (w', Returned result) ->
  candidates <> [] ->
  exists edm,
    SelectionResult.edm_result result = Some edm
    /\ SelectionResult.selected result `sublist_of` candidates
    /\ StronglySorted
         (fun a b => VoteSummaryDetail.vote_count b <= VoteSummaryDetail.vote_count a)
         (EDMResultDetail.votes_summary edm)
    /\ VoteSummaryDetail.class_name <$> EDMResultDetail.votes_summary edm
       ≡ₚ filter (fun c => 0 < seen_by (EDMResultDetail.agents edm) c) candidates
    /\ Forall
         (fun v =>
            VoteSummaryDetail.total_agents v
            = seen_by (EDMResultDetail.agents edm) (VoteSummaryDetail.class_name v)
            /\ VoteSummaryDetail.vote_count v
               = votes_for (EDMResultDetail.agents edm) (VoteSummaryDetail.class_name v)
            /\ VoteSummaryDetail.percentage v
               = py_truediv (VoteSummaryDetail.vote_count v)
                   (VoteSummaryDetail.total_agents v)
            /\ (VoteSummaryDetail.selected v = true
                <-> VoteSummaryDetail.class_name v ∈ SelectionResult.selected result))
         (EDMResultDetail.votes_summary edm).
Proof.
  intros Hsel Hne. unfold DetailedSelector.select_edm in Hsel.
  destruct candidates as [|c0 cs]; [done|].
  case_decide; [done|]. unfold DetailedSelector.bind in Hsel.
  destruct (DetailedSelector._assign_classes_to_agents _ _ _ w)
    as [w1 [assignments|e]]; [|done].
  destruct (collect_votes_summary self table_name table_in_markdown column_name
              (c0 :: cs) assignments w1)
    as (w2 & r & edm & Hcv & Hedm & Hrest).
  rewrite Hcv in Hsel. injection Hsel as <- <-. eauto.
Qed.

Lemma ensemble_votes_summary_witness :
  exists w' result edm,
    DetailedSelector.select_edm ensemble_selector "table" "| a |" "a" ["A"]
      (fresh (scripted_env repeated_vote_answers) 0 tt)
    = (w', Returned result)
    /\ SelectionResult.edm_result result = Some edm
    /\ SelectionResult.selected result `sublist_of` ["A"]
    /\ VoteSummaryDetail.class_name <$> EDMResultDetail.votes_summary edm
       ≡ₚ filter (fun c => 0 < seen_by (EDMResultDetail.agents edm) c) ["A"].
Proof.
  destruct (DetailedSelector.select_edm ensemble_selector "table" "| a |" "a"
              ["A"] (fresh (scripted_env repeated_vote_answers) 0 tt))
    as [w' [result|e]] eqn:Hsel.
  - destruct (ensemble_votes_summary (scripted_env repeated_vote_answers)
                ensemble_selector "table" "| a |" "a" ["A"] _ w' result Hsel)
      as (edm & Hedm & Hsub & _ & Hperm & _); [discriminate|].
    exists w', result, edm. split; [reflexivity|]. split; [exact Hedm|].
    split; [exact Hsub|exact Hperm].
  - vm_compute in Hsel. discriminate Hsel.
Defined.

(** When the ensemble returns, every request it made to the language
    model showed one of its agents the classes assigned to that agent; an
    agent without classes is not asked, and none is asked more than
    [max_retries] times. Assigning the classes asks nothing. *)
Theorem ensemble_requests (E : Env) (self : DetailedSelector.t)
    (table_name table_in_markdown column_name : string)
    (candidates : list string) (w w' : World E) (result : SelectionResult.t) :
  DetailedSelector.select_edm self table_name table_in_markdown column_name
    candidates w = (w', Returned result) ->
  let agents :=
    from_option EDMResultDetail.agents [] (SelectionResult.edm_result result) in
  exists new,
    calls w' = calls w ++ new
    /\ length new <= length agents * Z.to_nat (DetailedSelector.max_retries self)
    /\ Forall
         (fun data =>
            exists a,
              a ∈ agents /\ AgentResultDetail.assigned_classes a <> []
              /\ data
                 = DetailedSelector.data_for table_name table_in_markdown
                     column_name (AgentResultDetail.assigned_classes a))
         new.
Proof.
  intros Hsel agents. subst agents.
  unfold DetailedSelector.select_edm in Hsel.
  destruct candidates as [|c0 cs].
  { injection Hsel as <- <-. exists []. rewrite app_nil_r. simpl.
    split_and!; [done|lia|done]. }
  case_decide; [done|]. unfold DetailedSelector.bind in Hsel.
  pose proof (assign_classes_keeps (c0 :: cs)
                (DetailedSelector.num_agents_for self (c0 :: cs))
                (EDMOptions.agents_per_class (DetailedSelector.edm_options self))
                w) as (_ & Hkeep & _).
  destruct (DetailedSelector._assign_classes_to_agents _ _ _ w)
    as [w1 [assignments|e]]; [|done]. simpl in Hkeep.
  destruct (collect_votes_calls self table_name table_in_markdown column_name
              (c0 :: cs) assignments w1) as (new & Hcalls & Hlen & Hall).
  destruct (collect_votes_spec self table_name table_in_markdown column_name
              (c0 :: cs) assignments w1)
    as (w2 & r & edm & Hcv & Hedm & _ & _ & _ & Hasg & _).
  rewrite Hcv in Hsel, Hcalls. injection Hsel as <- <-. simpl in Hcalls.
  rewrite Hedm. simpl. exists new. split_and!.
  - by rewrite Hcalls, Hkeep.
  - by rewrite <- (length_fmap AgentResultDetail.assigned_classes), Hasg.
  - eapply Forall_impl; [exact Hall|]. simpl.
    intros data (l & Hl & Hne & ->). rewrite <- Hasg in Hl.
    apply list_elem_of_fmap in Hl as (a & -> & Ha). eauto.
Qed.

Lemma ensemble_requests_witness :
  exists w' result new,
    DetailedSelector.select_edm ensemble_selector "table" "| a |" "a" ["A"]
      (fresh (scripted_env repeated_vote_answers) 0 tt)
    = (w', Returned result)
    /\ calls w' = [] ++ new
    /\ length new
       <= length (from_option EDMResultDetail.agents []
                    (SelectionResult.edm_result result))
          * 3.
Proof.
  destruct (DetailedSelector.select_edm ensemble_selector "table" "| a |" "a"
              ["A"] (fresh (scripted_env repeated_vote_answers) 0 tt))
    as [w' [result|e]] eqn:Hsel.
  - destruct (ensemble_requests (scripted_env repeated_vote_answers)
                ensemble_selector "table" "| a |" "a" ["A"] _ w' result Hsel)
      as (new & Hcalls & Hlen & _).
    exists w', result, new. split; [reflexivity|].
    split; [exact Hcalls|exact Hlen].
  - vm_compute in Hsel. discriminate Hsel.
Defined.

(** ** The ensemble at the edges of its options *)

Lemma occurrences_none (l : list string) :
  (forall c, occurrences c l = 0) -> l = [].
Proof.
  destruct l as [|x l]; [done|]. intros Hnone. specialize (Hnone x).
  rewrite occurrences_cons, decide_True in Hnone by done. lia.
Qed.

(** With [agents_per_class = 0] (and a sampler that keeps its contract) the
    ensemble sets up one agent, hands it no class and does not ask the
    language model: nothing is selected, no summary entry is made, and the
    result is [completed]. *)
Theorem ensemble_without_agents_per_class (E : Env) (self : DetailedSelector.t)
    (table_name table_in_markdown column_name : string)
    (candidates : list string) (w : World E) :
  sample_ok E ->
  candidates <> [] ->
  EDMOptions.classes_per_agent (DetailedSelector.edm_options self) <> 0%Z ->
  EDMOptions.agents_per_class (DetailedSelector.edm_options self) = 0%Z ->
  exists w' result edm,
    DetailedSelector.select_edm self table_name table_in_markdown column_name
      candidates w = (w', Returned result)
    /\ SelectionResult.status result = "completed"
    /\ SelectionResult.selected result = []
    /\ SelectionResult.edm_result result = Some edm
    /\ EDMResultDetail.total_agents edm = 1
    /\ AgentResultDetail.assigned_classes <$> EDMResultDetail.agents edm = [[]]
    /\ EDMResultDetail.votes_summary edm = []
    /\ calls w' = calls w.
Proof.
  intros Hsample Hne Hcpa Hapc. unfold DetailedSelector.select_edm.
  destruct candidates as [|c0 cs]; [done|].
  rewrite decide_False by done. unfold DetailedSelector.bind.
  assert (Hnum : DetailedSelector.num_agents_for self (c0 :: cs) = 1%Z).
  { unfold DetailedSelector.num_agents_for.
    rewrite Hapc, Z.mul_0_r, Zdiv_0_l. done. }
  rewrite Hnum, Hapc.
  destruct (assign_classes_to_agents_spec Hsample (c0 :: cs) 1 0 w)
    as (w1 & assignments & -> & Hlen & _ & Hcalls1 & _ & Htot & _); [lia..|].
  assert (assignments = [[]]) as ->.
  { destruct assignments as [|l [|l' ls]]; simpl in Hlen; try lia.
    f_equal. apply occurrences_none. intros c. specialize (Htot c).
    unfold assigned_total in Htot. csimpl in Htot. lia. }
  destruct (collect_votes_calls self table_name table_in_markdown column_name
              (c0 :: cs) [[]] w1) as (new & Hcalls & _ & Hall).
  destruct (collect_votes_summary self table_name table_in_markdown column_name
              (c0 :: cs) [[]] w1)
    as (w2 & r & edm & Hcv & Hedm & _ & _ & Hperm & _).
  destruct (collect_votes_spec self table_name table_in_markdown column_name
              (c0 :: cs) [[]] w1)
    as (w2' & r' & edm' & Hcv' & Hedm' & Hstatus & _ & Htotal & Hasg & _ & Hiff).
  rewrite Hcv in Hcv', Hcalls. injection Hcv' as <- <-.
  rewrite Hedm in Hedm'. injection Hedm' as <-. simpl in Hcalls.
  assert (Hunseen : forall c, seen_by (EDMResultDetail.agents edm) c = 0).
  { intros c. rewrite <- seen_by_assignments, Hasg.
    rewrite filter_cons, decide_False by (by intros ?%elem_of_nil). done. }
  exists w2, r, edm. rewrite Hcv. split_and!; try done.
  - assert (Hnone : forall c, c ∉ SelectionResult.selected r).
    { intros c Hc. apply Hiff in Hc as [_ [Hseen _]].
      rewrite Hunseen in Hseen. lia. }
    destruct (SelectionResult.selected r) as [|c sel]; [done|].
    destruct (Hnone c). apply list_elem_of_here.
  - rewrite (filter_ext_in _ (fun _ => False)) in Hperm.
    + assert (Hnil : filter (fun _ : string => False) (c0 :: cs) = []).
      { clear. induction (c0 :: cs) as [|x l IH]; [done|].
        rewrite filter_cons. rewrite decide_False by tauto. exact IH. }
      rewrite Hnil in Hperm. apply Permutation_nil_r in Hperm.
      by apply fmap_nil_inv in Hperm.
    + intros c _. rewrite Hunseen. lia.
  - rewrite Hcalls, Hcalls1.
    destruct new as [|data new]; [by rewrite app_nil_r|].
    apply Forall_cons in Hall as [(l & Hl & Hnonempty & _) _].
    apply list_elem_of_singleton in Hl. done.
Qed.

Lemma ensemble_without_agents_per_class_witness :
  exists w' result,
    DetailedSelector.select_edm
      {| DetailedSelector.mode := "edm";
         DetailedSelector.prompt_type := "cot";
         DetailedSelector.edm_options :=
           {| EDMOptions.classes_per_agent := 30;
              EDMOptions.agents_per_class := 0;
              EDMOptions.consensus_threshold := 0x1.999999999999ap-1%float |};
         DetailedSelector.max_retries := 3;
         DetailedSelector.model_name := "model" |}
      "table" "| a |" "a" ["A"; "B"]
      (fresh (scripted_env []) 0 tt)
    = (w', Returned result)
    /\ SelectionResult.selected result = []
    /\ calls w' = [].
Proof.
  destruct (ensemble_without_agents_per_class (scripted_env [])
              {| DetailedSelector.mode := "edm";
                 DetailedSelector.prompt_type := "cot";
                 DetailedSelector.edm_options :=
                   {| EDMOptions.classes_per_agent := 30;
                      EDMOptions.agents_per_class := 0;
                      EDMOptions.consensus_threshold :=
                        0x1.999999999999ap-1%float |};
                 DetailedSelector.max_retries := 3;
                 DetailedSelector.model_name := "model" |}
              "table" "| a |" "a" ["A"; "B"] (fresh (scripted_env []) 0 tt)
              (scripted_sample_ok []))
    as (w' & result & edm & Hsel & _ & Hnone & _ & _ & _ & _ & Hcalls).
  - discriminate.
  - discriminate.
  - reflexivity.
  - exists w', result. split; [exact Hsel|]. split; [exact Hnone|exact Hcalls].
Defined.

(** [_assign_classes_to_agents] at its edges. Asked for no agent (or a
    negative number) while [avg_agents_per_class] is larger, it falls back
    to one agent that is handed every class, and draws nothing from
    [random]. Asked for a negative [avg_agents_per_class] that does not
    exceed [num_agents], it raises the [ValueError] of [random.sample] at
    the first class. *)
Theorem assign_classes_edge_cases (E : Env) (classes : list string)
    (num_agents avg_agents_per_class : Z) (w : World E) :
  ((num_agents <= 0)%Z -> (num_agents < avg_agents_per_class)%Z ->
   DetailedSelector._assign_classes_to_agents classes num_agents
     avg_agents_per_class w = (w, Returned [classes]))
  /\ ((avg_agents_per_class < 0)%Z -> (avg_agents_per_class <= num_agents)%Z ->
      classes <> [] ->
      DetailedSelector._assign_classes_to_agents classes num_agents
        avg_agents_per_class w
      = (w, Raised "Sample larger than population or is negative")).
Proof.
  unfold DetailedSelector._assign_classes_to_agents, DetailedSelector.bind.
  split.
  - intros Hnone Hlt.
    replace (Z.to_nat num_agents) with 0 by lia. simpl.
    assert (Hloop : DetailedSelector.assign_loop classes num_agents
                      avg_agents_per_class [] w = (w, Returned [])).
    { induction classes as [|class_ classes IH]; simpl; [done|].
      unfold DetailedSelector.bind, DetailedSelector.agents_for.
      rewrite bool_decide_true by done.
      replace (Z.to_nat num_agents) with 0 by lia. simpl. exact IH. }
    by rewrite Hloop.
  - intros Hneg Hle Hne. destruct classes as [|class_ classes]; [done|].
    simpl. unfold DetailedSelector.bind, DetailedSelector.agents_for.
    rewrite bool_decide_false by lia.
    unfold DetailedSelector.py_random_sample.
    rewrite bool_decide_true by lia. done.
Qed.

(** ** The reverse edges and the root of [build_dag] *)

Section reverse_edges_facts.
Import OntologyDAG.

(** The inner loop of "Build reverse edges": one parent, its children. *)
Lemma add_reverse_spec (parent : string) (children : list string)
    (acc : odict (list string)) :
  let acc' :=
    foldl
      (fun acc child =>
         if od_mem acc child
         then od_set acc child (od_get_list acc child ++ [parent])
         else acc)
      acc children in
  od_keys acc' = od_keys acc
  /\ forall c q,
       q ∈ od_get_list acc' c
       <-> q ∈ od_get_list acc c
           \/ (q = parent /\ c ∈ children /\ c ∈ od_keys acc).
Proof.
  revert acc. induction children as [|child children IH]; intros acc; simpl.
  - split; [done|]. intros c q. split; [by left|].
    intros [?|(_ & Hc & _)]; [done|by apply elem_of_nil in Hc].
  - destruct (od_mem acc child) eqn:Hmem.
    + destruct (IH (od_set acc child (od_get_list acc child ++ [parent])))
        as [Hkeys Hget].
      split; [by rewrite Hkeys, od_keys_set, Hmem|].
      intros c q. rewrite Hget, od_keys_set, Hmem. unfold od_get_list at 1.
      rewrite od_get_set. apply od_mem_true in Hmem.
      rewrite elem_of_cons. case_decide as Hc; simpl.
      * subst c. rewrite elem_of_app, list_elem_of_singleton. tauto.
      * fold (od_get_list acc c). naive_solver.
    + destruct (IH acc) as [Hkeys Hget]. split; [done|].
      intros c q. rewrite Hget, elem_of_cons.
      assert (child ∉ od_keys acc).
      { intros Hin. apply od_mem_true in Hin. congruence. }
      naive_solver.
Qed.

Lemma reverse_edges_spec (nodes : odict OntologyClass.t)
    (es : odict (list string)) :
  NoDup (od_keys nodes) ->
  od_keys (reverse_edges nodes es) = od_keys nodes
  /\ forall c q,
       q ∈ od_get_list (reverse_edges nodes es) c
       <-> c ∈ od_keys nodes /\ exists children, (q, children) ∈ es /\ c ∈ children.
Proof.
  intros Hnd. unfold reverse_edges.
  set (base := foldl (fun acc k => od_set acc k []) [] (od_keys nodes)).
  assert (Hbase : od_keys base = od_keys nodes
                  /\ forall c, od_get_list base c = []).
  { subst base.
    assert (Hgen : forall keys (acc : odict (list string)),
      NoDup (od_keys acc ++ keys) ->
      (forall c, od_get_list acc c = []) ->
      od_keys (foldl (fun acc k => od_set acc k []) acc keys) = od_keys acc ++ keys
      /\ forall c, od_get_list (foldl (fun acc k => od_set acc k []) acc keys) c = []).
    { induction keys as [|k keys IH]; intros acc Hnd' Hempty; simpl.
      - by rewrite app_nil_r.
      - assert (Hfresh : od_mem acc k = false).
        { apply not_true_is_false. intros Hin%od_mem_true.
          apply NoDup_app in Hnd' as (_ & Hdisj & _).
          apply (Hdisj k Hin). apply list_elem_of_here. }
        destruct (IH (od_set acc k [])) as [Hkeys Hget].
        + rewrite od_keys_set, Hfresh, <- app_assoc. done.
        + intros c. unfold od_get_list. rewrite od_get_set.
          case_decide; [done|]. apply Hempty.
        + split; [|done]. rewrite Hkeys, od_keys_set, Hfresh, <- app_assoc. done. }
    destruct (Hgen (od_keys nodes) []) as [Hkeys Hget]; [done|done|].
    split; [exact Hkeys|exact Hget]. }
  destruct Hbase as [Hkeys0 Hget0]. clearbody base.
  assert (Hgen : forall es' (acc : odict (list string)),
    let acc' :=
      foldl
        (fun acc pc =>
           foldl
             (fun acc child =>
                if od_mem acc child
                then od_set acc child (od_get_list acc child ++ [pc.1])
                else acc)
             acc pc.2)
        acc es' in
    od_keys acc' = od_keys acc
    /\ forall c q,
         q ∈ od_get_list acc' c
         <-> q ∈ od_get_list acc c
             \/ (c ∈ od_keys acc
                 /\ exists children, (q, children) ∈ es' /\ c ∈ children)).
  { induction es' as [|[p children] es' IH]; intros acc; simpl.
    - split; [done|]. intros c q. split; [by left|].
      intros [?|(_ & children & Hin & _)]; [done|by apply elem_of_nil in Hin].
    - destruct (add_reverse_spec p children acc) as [Hkeys1 Hget1].
      simpl in Hkeys1, Hget1.
      match goal with
      | |- context [foldl _ ?a es'] => destruct (IH a) as [Hkeys2 Hget2]
      end.
      simpl in Hkeys2, Hget2. split; [by rewrite Hkeys2|].
      intros c q. rewrite Hget2, Hget1, Hkeys1.
      setoid_rewrite elem_of_cons. split.
      + intros [[?|(-> & Hc & Hk)]|(Hk & children' & Hin & Hc)]; eauto 8.
      + intros [?|(Hk & children' & [[= -> ->]|Hin] & Hc)]; eauto 8. }
  destruct (Hgen es base) as [Hkeys Hget]. simpl in Hkeys, Hget.
  split; [by rewrite Hkeys|].
  intros c q. rewrite Hget, Hget0, Hkeys0.
  split; [intros [Hnil|?]; [by apply elem_of_nil in Hnil|done]|by right].
Qed.

End reverse_edges_facts.

(** The graph [build_dag] builds always has its root among its nodes. Its
    reverse table [edges] has the loaded classes as keys, and lists for a
    class the parents it declares (other than itself), so that, apart from
    the virtual root, [p] is listed under [c] in [edges] exactly when [c] is
    listed under [p] in [edges_subclassof]. The virtual root is never
    recorded in [edges] for the classes attached to it. *)
Theorem build_dag_reverse_edges (classes : list OwlClass) :
  let dag := OntologyDAG.build_dag classes in
  is_Some (od_get (OntologyDAG.nodes dag) (OntologyDAG.root dag))
  /\ (forall u, u ∈ od_keys (OntologyDAG.edges dag) <-> is_class classes u)
  /\ (forall c p,
        p ∈ od_get_list (OntologyDAG.edges dag) c <-> declared_child classes p c)
  /\ (forall c p,
        p <> OntologyDAG.Thing_iri ->
        p ∈ od_get_list (OntologyDAG.edges dag) c
        <-> c ∈ OntologyDAG.get_children dag p).
Proof.
  intros dag.
  destruct (collect_classes_collected classes) as (Hn1 & Hn2 & Hkeys & Hedges).
  pose proof (fun u => root_candidates_parentless classes u) as Hcand.
  subst dag. unfold OntologyDAG.build_dag.
  destruct (OntologyDAG.collect_classes classes) as [n0 e0] eqn:Hcol.
  simpl in *.
  destruct (reverse_edges_spec n0 e0 Hn1) as [Hrkeys Hrget].
  assert (Hrev : forall c p,
            p ∈ od_get_list (OntologyDAG.reverse_edges n0 e0) c
            <-> declared_child classes p c).
  { intros c p. rewrite Hrget, <- Hedges. unfold edge.
    setoid_rewrite (od_get_entry e0 p _ Hn2). split; [tauto|].
    intros Hedge. split; [|done]. apply Hkeys.
    apply Hedges in Hedge as (cls & Hcls & Hiri & _). by exists cls. }
  assert (Hinv : forall c p,
            p ∈ od_get_list (OntologyDAG.reverse_edges n0 e0) c
            <-> c ∈ od_get_list e0 p).
  { intros c p. rewrite Hrev, <- Hedges. unfold edge, od_get_list.
    destruct (od_get e0 p) as [cs|]; simpl.
    - split; [by intros (? & [= <-] & ?)|eauto].
    - split; [by intros (? & [=] & _)|by intros ?%elem_of_nil]. }
  assert (Hclasses : forall u,
            u ∈ od_keys (OntologyDAG.reverse_edges n0 e0) <-> is_class classes u).
  { intros u. by rewrite Hrkeys. }
  destruct (OntologyDAG.root_candidates n0 e0) as [|r1 [|r2 rest]] eqn:Hc;
    simpl; (split_and!; [|done|done|]).
  - destruct (od_mem n0 OntologyDAG.Thing_iri) eqn:Hm.
    + apply od_get_is_Some. by apply od_mem_true.
    + rewrite od_get_set_eq. eauto.
  - intros c p _. apply Hinv.
  - apply od_get_is_Some, Hkeys.
    assert (Hr : parentless classes r1) by (apply Hcand; apply list_elem_of_here).
    apply Hr.
  - intros c p _. apply Hinv.
  - rewrite od_get_set_eq. eauto.
  - intros c p Hp. rewrite Hinv. unfold OntologyDAG.get_children, od_get_list.
    simpl. by rewrite od_get_set_ne.
Qed.

(** ** The cached depth is the distance from the root *)

Lemma reachable_path_len dag u : reachable dag u <-> exists n, path_len dag n u.
Proof.
  split.
  - induction 1 as [|p c _ [n Hn] Hc]; [exists 0; constructor|].
    exists (S n). by econstructor.
  - intros [n Hn]. induction Hn; [constructor|by econstructor].
Qed.

Lemma depths_loop_invariant dag (P : OntologyCache.walk -> Prop) :
  (forall w url depth rest,
      P w -> OntologyCache.queue w = (url, depth) :: rest ->
      P (OntologyCache.depths_step dag w url depth rest)) ->
  forall fuel w depths,
    P w -> OntologyCache.depths_loop fuel dag w = Some depths ->
    exists w', P w' /\ OntologyCache.queue w' = []
               /\ OntologyCache.depths w' = depths.
Proof.
  intros Hstep. induction fuel as [|fuel IH]; intros w depths Hw; simpl; [done|].
  destruct (OntologyCache.queue w) as [|[url depth] rest] eqn:Hq.
  - intros [= <-]. eauto.
  - intros Hloop. eapply IH; [|exact Hloop]. by apply Hstep.
Qed.

Lemma depths_witnessed_step dag w url depth rest :
  depths_witnessed dag w ->
  OntologyCache.queue w = (url, depth) :: rest ->
  depths_witnessed dag (OntologyCache.depths_step dag w url depth rest).
Proof.
  intros [Hd Hq] Hqueue. rewrite Hqueue in Hq.
  apply Forall_cons in Hq as [Hurl Hq]. simpl in Hurl.
  unfold OntologyCache.depths_step. case_decide; [done|]. split; simpl.
  - intros u d. rewrite lookup_insert. case_decide; [|apply Hd].
    subst. by intros [= <-].
  - apply Forall_app. split; [done|]. apply Forall_fmap, Forall_forall.
    intros c [_ Hc]%list_elem_of_filter. simpl.
    rewrite Nat.add_1_r. by econstructor.
Qed.

(** The depths the walk assigns: to the urls that can be reached from the
    root, and to each the length of a shortest path. *)
Lemma depths_loop_distance dag :
  exists depths,
    OntologyCache.depths_loop (OntologyCache.depths_fuel dag) dag
      {| OntologyCache.depths := ∅;
         OntologyCache.queue := [(OntologyDAG.root dag, 0)];
         OntologyCache.visited := ∅ |} = Some depths
    /\ (forall u, is_Some (depths !! u) <-> reachable dag u)
    /\ (forall u d, depths !! u = Some d ->
          path_len dag d u /\ forall k, path_len dag k u -> d <= k).
Proof.
  destruct (depths_loop_result dag) as (depths & Hloop & Hroot & Hkids).
  exists depths. split; [done|].
  assert (Hinit : depths_witnessed dag
                    {| OntologyCache.depths := ∅;
                       OntologyCache.queue := [(OntologyDAG.root dag, 0)];
                       OntologyCache.visited := ∅ |}).
  { split; simpl.
    - intros u d Hd. by rewrite lookup_empty in Hd.
    - apply Forall_singleton. constructor. }
  destruct (depths_loop_invariant dag (depths_witnessed dag)
              (fun w url depth rest Hw Hq =>
                 depths_witnessed_step dag w url depth rest Hw Hq)
              _ _ _ Hinit Hloop)
    as (w' & [Hwit _] & _ & <-).
  assert (Hmin : forall k u, path_len dag k u ->
            exists d, OntologyCache.depths w' !! u = Some d /\ d <= k).
  { induction 1 as [|n p c _ (dp & Hdp & Hle) Hc]; [eauto|].
    destruct (Hkids p dp c Hdp Hc) as (dc & Hdc & Hle').
    exists dc. split; [done|lia]. }
  split.
  - intros u. rewrite reachable_path_len. split.
    + intros [d Hd]. eauto.
    + intros [k Hk]. destruct (Hmin k u Hk) as (d & Hd & _). eauto.
  - intros u d Hd. split; [by apply Hwit|].
    intros k Hk. destruct (Hmin k u Hk) as (d' & Hd' & Hle). congruence.
Qed.


(** In the tree [build_from_dag] returns, the depth of a node that can be
    reached from the root is its distance from the root: the length of a
    shortest path along [edges_subclassof]. A node that cannot be reached
    from the root has depth 0, like the root. *)
Theorem build_from_dag_distance (dag : OntologyDAG.t)
    (source_hash cached_at : string) :
  exists tree,
    OntologyCache.build_from_dag dag source_hash cached_at = Some tree
    /\ forall u n, od_get (CachedTree.nodes tree) u = Some n ->
         (reachable dag u ->
          path_len dag (CachedNode.depth n) u
          /\ forall k, path_len dag k u -> CachedNode.depth n <= k)
         /\ (~ reachable dag u -> CachedNode.depth n = 0).
Proof.
  destruct (depths_loop_distance dag) as (depths & Hloop & Hreach & Hdist).
  unfold OntologyCache.build_from_dag. rewrite Hloop.
  eexists. split; [done|]. simpl. intros u n Hn.
  apply add_nodes_get in Hn as [-> _]; [|intros ? ? [=]].
  split.
  - intros Hu. apply Hreach in Hu as [d Hd]. rewrite Hd. simpl.
    by apply Hdist.
  - intros Hu. destruct (depths !! u) as [d|] eqn:Hd; [|done].
    destruct Hu. apply Hreach. eauto.
Qed.

(** ** The node table and the metadata of [build_from_dag] *)

Lemma add_nodes_fold dag (depths : gmap string nat)
    (entries : list (string * OntologyClass.t))
    (acc : odict CachedNode.t * nat) :
  let built := foldl (OntologyCache.add_node dag depths) acc entries in
  (forall u, u ∈ od_keys built.1 <-> u ∈ od_keys acc.1 \/ u ∈ entries.*1)
  /\ acc.2 <= built.2
  /\ (forall u, u ∈ entries.*1 -> default 0 (depths !! u) <= built.2)
  /\ (built.2 = acc.2
      \/ exists u, u ∈ entries.*1 /\ default 0 (depths !! u) = built.2)
  /\ ((forall u n, od_get acc.1 u = Some n ->
         CachedNode.url n = u /\ CachedNode.has_more n = false) ->
      forall u n, od_get built.1 u = Some n ->
        CachedNode.url n = u /\ CachedNode.has_more n = false).
Proof.
  revert acc. induction entries as [|[k oc] entries IH]; intros acc; simpl.
  - split_and!; [|lia| |by left|done].
    + intros u. rewrite elem_of_nil. tauto.
    + intros u Hu. by apply elem_of_nil in Hu.
  - destruct (IH (OntologyCache.add_node dag depths acc (k, oc)))
      as (Hkeys & Hle & Hall & Hmax & Hwf).
    simpl in Hkeys, Hle, Hall, Hmax, Hwf. split_and!.
    + intros u. rewrite Hkeys, od_keys_set_elem. csimpl.
      rewrite elem_of_cons. tauto.
    + lia.
    + intros u. csimpl. rewrite elem_of_cons. intros [->|Hu]; [lia|by apply Hall].
    + csimpl. setoid_rewrite elem_of_cons.
      destruct Hmax as [Heq|(u & Hu & Heq)]; [|right; eauto].
      destruct (Nat.max_spec (acc.2) (default 0 (depths !! k)))
        as [[_ Hm]|[_ Hm]]; rewrite Hm in Heq; [right; eauto|by left].
    + intros Hacc. apply Hwf. intros u n. rewrite od_get_set.
      case_decide; [|apply Hacc]. by intros [= <-].
Qed.

(** The tree [build_from_dag] returns has the root of the graph and a node
    for each node of the graph, filed under its url and with [has_more]
    unset. Its metadata record the hash it was given, the number of nodes
    and, as [max_depth], the largest depth of a node (0 without nodes). *)
Theorem build_from_dag_metadata (dag : OntologyDAG.t)
    (source_hash cached_at : string) :
  exists tree max_depth,
    OntologyCache.build_from_dag dag source_hash cached_at = Some tree
    /\ CachedTree.root tree = OntologyDAG.root dag
    /\ (forall u, u ∈ od_keys (CachedTree.nodes tree)
                  <-> u ∈ od_keys (OntologyDAG.nodes dag))
    /\ (forall u n, od_get (CachedTree.nodes tree) u = Some n ->
          CachedNode.url n = u /\ CachedNode.has_more n = false
          /\ CachedNode.children n = OntologyDAG.get_children dag u
          /\ CachedNode.depth n <= max_depth)
    /\ (max_depth = 0
        \/ exists u n, od_get (CachedTree.nodes tree) u = Some n
                       /\ CachedNode.depth n = max_depth)
    /\ od_get (CachedTree.metadata tree) "source_hash" = Some (MStr source_hash)
    /\ od_get (CachedTree.metadata tree) "total_nodes"
       = Some (MInt (Z.of_nat (length (CachedTree.nodes tree))))
    /\ od_get (CachedTree.metadata tree) "max_depth"
       = Some (MInt (Z.of_nat max_depth)).
Proof.
  destruct (depths_loop_result dag) as (depths & Hloop & _).
  unfold OntologyCache.build_from_dag. rewrite Hloop.
  destruct (add_nodes_fold dag depths (OntologyDAG.nodes dag) ([], 0))
    as (Hkeys & _ & Hall & Hmax & Hwf).
  set (built := foldl (OntologyCache.add_node dag depths) ([], 0)
                  (OntologyDAG.nodes dag)) in *.
  simpl in Hkeys, Hall, Hmax, Hwf.
  assert (Hget : forall u n, od_get built.1 u = Some n ->
            CachedNode.depth n = default 0 (depths !! u)
            /\ CachedNode.children n = OntologyDAG.get_children dag u).
  { intros u n. apply add_nodes_get. intros ? ? [=]. }
  eexists _, built.2. split; [done|]. simpl. split_and!; try done.
  - intros u. rewrite Hkeys, elem_of_nil. unfold od_keys. tauto.
  - intros u n Hn. destruct (Hwf ltac:(intros ? ? [=]) u n Hn) as [? ?].
    destruct (Hget u n Hn) as [Hd ?]. split_and!; try done.
    rewrite Hd. apply Hall.
    assert (Hu : u ∈ od_keys built.1) by (apply od_get_is_Some; eauto).
    apply Hkeys in Hu as [Hu|Hu]; [by apply elem_of_nil in Hu|done].
  - destruct Hmax as [?|(u & Hu & Heq)]; [by left|right].
    assert (Hin : u ∈ od_keys built.1) by (apply Hkeys; by right).
    apply od_get_is_Some in Hin as [n Hn]. exists u, n. split; [done|].
    destruct (Hget u n Hn) as [-> _]. done.
Qed.

(** ** From the ontology to a subtree of its cache *)

Lemma build_dag_root_node (classes : list OwlClass) :
  OntologyDAG.root (OntologyDAG.build_dag classes)
  ∈ od_keys (OntologyDAG.nodes (OntologyDAG.build_dag classes)).
Proof.
  destruct (collect_classes_collected classes) as (_ & _ & Hkeys & _).
  pose proof (fun u => root_candidates_parentless classes u) as Hcand.
  unfold OntologyDAG.build_dag.
  destruct (OntologyDAG.collect_classes classes) as [n0 e0]. simpl in *.
  destruct (OntologyDAG.root_candidates n0 e0) as [|r1 [|r2 rest]]; simpl.
  - destruct (od_mem n0 OntologyDAG.Thing_iri) eqn:Hm.
    + by apply od_mem_true.
    + apply od_keys_set_elem. by left.
  - apply Hkeys.
    assert (Hr : parentless classes r1) by (apply Hcand; apply list_elem_of_here).
    apply Hr.
  - apply od_keys_set_elem. by left.
Qed.

Lemma start_of_cases self root_url :
  CachedTree.start_of self root_url = CachedTree.root self
  \/ (root_url = Some (CachedTree.start_of self root_url)
      /\ CachedTree.start_of self root_url ∈ od_keys (CachedTree.nodes self)).
Proof.
  unfold CachedTree.start_of. destruct root_url as [u|].
  - case_decide.
    + left. by rewrite bool_decide_true, andb_false_r.
    + destruct (od_mem (CachedTree.nodes self) u) eqn:Hmem; simpl.
      * right. split; [done|]. by apply od_mem_true.
      * case_bool_decide; by left.
  - left. by rewrite bool_decide_true, andb_false_r.
Qed.

(** Where [get_subtree] starts: at a non-empty start id that is a node, and
    at the root of the tree when the start id is not a node. *)
Lemma start_of_known self u :
  u <> "" -> u ∈ od_keys (CachedTree.nodes self) ->
  CachedTree.start_of self (Some u) = u.
Proof.
  intros Hu Hin. unfold CachedTree.start_of. rewrite decide_False by done.
  apply od_mem_true in Hin. by rewrite Hin.
Qed.

Lemma start_of_unknown_key self u :
  u ∉ od_keys (CachedTree.nodes self) ->
  CachedTree.start_of self (Some u) = CachedTree.root self.
Proof.
  intros Hin. unfold CachedTree.start_of.
  case_decide as Hu.
  { by destruct (negb _ && negb _). }
  assert (Hmem : od_mem (CachedTree.nodes self) u = false).
  { apply not_true_is_false. by rewrite od_mem_true. }
  rewrite Hmem. simpl. by case_bool_decide.
Qed.

(** Whatever the ontology, the start id and the depth limit: a subtree
    taken from the cache that [build_from_dag] makes of the graph of
    [build_dag] is never empty. It holds its own root. That root is the
    start id when the start id is a non-empty string and a node of the
    cache; it is the root of the cache in every other case: without a start
    id, with the empty string (which [root_url or self.root] passes over,
    even when a node has the empty url), and with an id that is not a node
    of the cache. *)
Theorem built_tree_subtree_holds_root (classes : list OwlClass)
    (source_hash cached_at : string) (root_url : option string)
    (max_depth : option Z) :
  exists tree sub,
    OntologyCache.build_from_dag (OntologyDAG.build_dag classes) source_hash
      cached_at = Some tree
    /\ CachedTree.get_subtree tree root_url max_depth = Some sub
    /\ is_Some (od_get (CachedTree.nodes sub) (CachedTree.root sub))
    /\ (forall u,
          root_url = Some u -> u <> "" ->
          u ∈ od_keys (CachedTree.nodes tree) ->
          CachedTree.root sub = u)
    /\ (root_url = None \/ root_url = Some ""
        \/ (exists u, root_url = Some u
                      /\ u ∉ od_keys (CachedTree.nodes tree)) ->
        CachedTree.root sub = CachedTree.root tree).
Proof.
  set (dag := OntologyDAG.build_dag classes).
  destruct (depths_loop_result dag) as (depths & Hloop & _).
  destruct (add_nodes_fold dag depths (OntologyDAG.nodes dag) ([], 0))
    as (Hkeys & _).
  simpl in Hkeys.
  assert (Hbuilt : exists tree,
    OntologyCache.build_from_dag dag source_hash cached_at = Some tree
    /\ CachedTree.root tree = OntologyDAG.root dag
    /\ forall u, u ∈ od_keys (OntologyDAG.nodes dag) ->
                 u ∈ od_keys (CachedTree.nodes tree)).
  { unfold OntologyCache.build_from_dag. rewrite Hloop.
    eexists. split; [done|]. simpl. split; [done|].
    intros u Hu. apply Hkeys. by right. }
  destruct Hbuilt as (tree & Htree & Hroot & Hnodes).
  assert (Hrootnode : CachedTree.root tree ∈ od_keys (CachedTree.nodes tree)).
  { rewrite Hroot. apply Hnodes. apply build_dag_root_node. }
  destruct (get_subtree_returns tree root_url max_depth) as [sub Hsub].
  exists tree, sub. split; [done|]. split; [done|].
  unfold CachedTree.get_subtree in Hsub.
  destruct (CachedTree.subtree_loop _ _ _ _) as [result|] eqn:Hwalk; [|done].
  injection Hsub as <-. simpl.
  apply subtree_loop_from_start in Hwalk as [Hfound _].
  split_and!.
  - apply Hfound, od_get_is_Some.
    destruct (start_of_cases tree root_url) as [->|[_ ?]]; done.
  - intros u -> Hu Hin. by apply start_of_known.
  - intros [->|[->|(u & -> & Hu)]].
    + apply start_of_default.
    + unfold CachedTree.start_of. simpl.
      by rewrite bool_decide_true, andb_false_r.
    + by apply start_of_unknown_key.
Qed.

(** ** What [get_subtree] collects *)

Lemma subtree_loop_invariant self max_depth (P : CachedTree.walk -> Prop) :
  (forall w url depth rest,
      P w -> CachedTree.queue w = (url, depth) :: rest ->
      P (CachedTree.subtree_step self max_depth w url depth rest)) ->
  forall fuel w result,
    P w -> CachedTree.subtree_loop fuel self max_depth w = Some result ->
    exists w', P w' /\ CachedTree.queue w' = []
               /\ CachedTree.result_nodes w' = result.
Proof.
  intros Hstep. induction fuel as [|fuel IH]; intros w result Hw; simpl; [done|].
  destruct (CachedTree.queue w) as [|[url depth] rest] eqn:Hq.
  - intros [= <-]. eauto.
  - intros Hloop. eapply IH; [|exact Hloop]. by apply Hstep.
Qed.

Lemma subtree_inv_step self start max_depth w url depth rest :
  subtree_inv self start max_depth w ->
  CachedTree.queue w = (url, depth) :: rest ->
  subtree_inv self start max_depth
    (CachedTree.subtree_step self max_depth w url depth rest).
Proof.
  intros [Hres Hq] Hqueue. rewrite Hqueue in Hq.
  apply Forall_cons in Hq as [[Hpath Hwithin] Hq]. simpl in Hpath, Hwithin.
  unfold CachedTree.subtree_step. case_decide; [done|].
  destruct (od_get (CachedTree.nodes self) url) as [node|] eqn:Hnode; [|done].
  destruct (CachedTree.at_depth_limit max_depth depth) eqn:Hlimit.
  - split; simpl; [|done]. intros u n'. rewrite od_get_set.
    case_decide; [|apply Hres]. subst u. intros [= <-]. split; [|eauto].
    exists node. split; [done|]. unfold subtree_copy. simpl.
    split_and!; try done. right. split_and!; try done.
    destruct max_depth; [done|discriminate].
  - split; simpl.
    + intros u n'. rewrite od_get_set.
      case_decide; [|apply Hres]. subst u. intros [= <-]. split; [|eauto].
      exists node. split; [done|]. unfold subtree_copy. simpl.
      split_and!; try done. left. split; [done|]. by intros ->.
    + apply Forall_app. split; [done|]. apply Forall_fmap, Forall_forall.
      intros c [_ Hc]%list_elem_of_filter. simpl. split.
      * rewrite Nat.add_1_r. by econstructor.
      * unfold within, CachedTree.at_depth_limit in *.
        destruct max_depth as [m|]; [|done].
        apply bool_decide_eq_false in Hlimit. lia.
Qed.

(** The walk from [start] ends, and what it collects are copies of nodes of
    the tree that lie below [start], within the limit. *)
Lemma subtree_walk_sound self start max_depth :
  exists result,
    CachedTree.subtree_loop (CachedTree.subtree_fuel self) self max_depth
      {| CachedTree.result_nodes := []; CachedTree.queue := [(start, 0)];
         CachedTree.visited := ∅ |} = Some result
    /\ forall u n', od_get result u = Some n' ->
         (exists n, od_get (CachedTree.nodes self) u = Some n
                    /\ subtree_copy max_depth n n')
         /\ exists d, tree_path self start d u /\ within max_depth d.
Proof.
  destruct (subtree_loop_ends self max_depth (CachedTree.subtree_fuel self)
              {| CachedTree.result_nodes := []; CachedTree.queue := [(start, 0)];
                 CachedTree.visited := ∅ |}) as [result Hwalk].
  { simpl. unfold CachedTree.subtree_fuel. lia. }
  exists result. split; [done|].
  assert (Hinit : subtree_inv self start max_depth
                    {| CachedTree.result_nodes := [];
                       CachedTree.queue := [(start, 0)];
                       CachedTree.visited := ∅ |}).
  { split; simpl; [intros ? ? [=]|]. apply Forall_singleton. simpl.
    split; [constructor|]. unfold within. destruct max_depth; [lia|done]. }
  destruct (subtree_loop_invariant self max_depth
              (subtree_inv self start max_depth)
              (fun w url depth rest Hw Hq =>
                 subtree_inv_step self start max_depth w url depth rest Hw Hq)
              _ _ _ Hinit Hwalk)
    as (w' & [Hres _] & _ & <-).
  exact Hres.
Qed.

(** [get_subtree] always returns. The tree it returns is rooted at the
    start of the walk (the start id, or the root of the tree when the start
    id is missing or unknown), and each of its nodes is a copy of the node
    the tree has under that url: the same url, name, label, comment and
    (absolute) depth, either with the same children, or, under a depth
    limit, with no children and [has_more] telling whether it had some.
    Each node lies below the start, no more than [max_depth] steps down. *)
Theorem get_subtree_copies_nodes (self : CachedTree.t)
    (root_url : option string) (max_depth : option Z) :
  exists sub,
    CachedTree.get_subtree self root_url max_depth = Some sub
    /\ CachedTree.root sub = CachedTree.start_of self root_url
    /\ forall u n', od_get (CachedTree.nodes sub) u = Some n' ->
         (exists n, od_get (CachedTree.nodes self) u = Some n
                    /\ subtree_copy max_depth n n')
         /\ exists d, tree_path self (CachedTree.root sub) d u
                      /\ within max_depth d.
Proof.
  destruct (subtree_walk_sound self (CachedTree.start_of self root_url)
              max_depth) as (result & Hwalk & Hsound).
  unfold CachedTree.get_subtree. rewrite Hwalk.
  eexists. split; [done|]. simpl. split; [done|exact Hsound].
Qed.

Lemma subtree_closed_step self start w url depth rest :
  subtree_closed self start w ->
  CachedTree.queue w = (url, depth) :: rest ->
  subtree_closed self start (CachedTree.subtree_step self None w url depth rest).
Proof.
  intros [Hstart Hclosed] Hqueue. rewrite Hqueue in Hstart.
  assert (Hkids : forall u node c,
            u ∈ CachedTree.visited w ->
            od_get (CachedTree.nodes self) u = Some node ->
            c ∈ CachedNode.children node ->
            c ∈ CachedTree.visited w \/ c = url \/ c ∈ rest.*1).
  { intros u node c Hu Hnode Hc.
    destruct (Hclosed u node Hu Hnode) as [_ Hcs].
    destruct (Hcs c Hc) as [?|Hin]; [by left|]. rewrite Hqueue in Hin.
    csimpl in Hin. apply elem_of_cons in Hin. tauto. }
  csimpl in Hstart. rewrite elem_of_cons in Hstart.
  unfold CachedTree.subtree_step. case_decide as Hvisited.
  { split; simpl.
    - destruct Hstart as [?|[->|?]]; auto.
    - intros u node Hu Hnode. split; [by eapply Hclosed|].
      intros c Hc. destruct (Hkids u node c Hu Hnode Hc) as [?|[->|?]]; auto. }
  destruct (od_get (CachedTree.nodes self) url) as [node|] eqn:Hnode; simpl.
  - split; simpl.
    + rewrite elem_of_union, elem_of_singleton.
      destruct Hstart as [?|[->|?]]; auto.
      right. rewrite fmap_app, elem_of_app. by left.
    + intros u node' [->%elem_of_singleton|Hu]%elem_of_union Hnode'.
      * rewrite Hnode in Hnode'. injection Hnode' as <-.
        split; [apply od_keys_set_elem; by left|].
        intros c Hc. rewrite elem_of_union, elem_of_singleton.
        destruct (decide (c ∈ ({[url]} ∪ CachedTree.visited w : gset string)))
          as [Hin|Hout].
        -- left. by apply elem_of_union in Hin as [?%elem_of_singleton|?]; auto.
        -- right. rewrite fmap_app, elem_of_app. right.
           rewrite <- list_fmap_compose.
           apply list_elem_of_fmap. exists c. split; [done|].
           by apply list_elem_of_filter.
      * split.
        -- apply od_keys_set_elem. right. by eapply Hclosed.
        -- intros c Hc. rewrite elem_of_union, elem_of_singleton.
           destruct (Hkids u node' c Hu Hnode' Hc) as [?|[->|?]]; auto.
           right. rewrite fmap_app, elem_of_app. by left.
  - split; simpl.
    + rewrite elem_of_union, elem_of_singleton.
      destruct Hstart as [?|[->|?]]; auto.
    + intros u node' [->%elem_of_singleton|Hu]%elem_of_union Hnode';
        [congruence|].
      split; [by eapply Hclosed|].
      intros c Hc. rewrite elem_of_union, elem_of_singleton.
      destruct (Hkids u node' c Hu Hnode' Hc) as [?|[->|?]]; auto.
Qed.

(** Without a depth limit, [get_subtree] returns exactly the nodes of the
    tree that can be reached from the start along the children lists, each
    as the tree has it but with [has_more] unset, and marks the result as
    not truncated. *)
Theorem get_subtree_unlimited (self : CachedTree.t) (root_url : option string) :
  exists sub,
    CachedTree.get_subtree self root_url None = Some sub
    /\ (forall u,
          u ∈ od_keys (CachedTree.nodes sub)
          <-> u ∈ od_keys (CachedTree.nodes self)
              /\ exists d, tree_path self (CachedTree.root sub) d u)
    /\ (forall u n n',
          od_get (CachedTree.nodes self) u = Some n ->
          od_get (CachedTree.nodes sub) u = Some n' ->
          n' = {| CachedNode.url := CachedNode.url n;
                  CachedNode.name := CachedNode.name n;
                  CachedNode.label := CachedNode.label n;
                  CachedNode.comment := CachedNode.comment n;
                  CachedNode.children := CachedNode.children n;
                  CachedNode.depth := CachedNode.depth n;
                  CachedNode.has_more := false |})
    /\ od_get (CachedTree.metadata sub) "truncated" = Some (MBool false).
Proof.
  set (start := CachedTree.start_of self root_url).
  destruct (subtree_walk_sound self start None) as (result & Hwalk & Hsound).
  unfold CachedTree.get_subtree. fold start. rewrite Hwalk.
  eexists. split; [done|]. simpl.
  assert (Hinit : subtree_closed self start
                    {| CachedTree.result_nodes := [];
                       CachedTree.queue := [(start, 0)];
                       CachedTree.visited := ∅ |}).
  { split; simpl; [right; apply list_elem_of_here|].
    intros u node Hu. by apply elem_of_empty in Hu. }
  destruct (subtree_loop_invariant self None (subtree_closed self start)
              (fun w url depth rest Hw Hq =>
                 subtree_closed_step self start w url depth rest Hw Hq)
              _ _ _ Hinit Hwalk)
    as (w' & [Hstart Hclosed] & Hempty & <-).
  rewrite Hempty in Hstart, Hclosed. simpl in Hstart, Hclosed.
  assert (Hall : forall d u, tree_path self start d u -> u ∈ CachedTree.visited w').
  { induction 1 as [|n p node c _ Hp Hnode Hc].
    - destruct Hstart as [?|Hnil]; [done|by apply elem_of_nil in Hnil].
    - destruct (Hclosed p node Hp Hnode) as [_ Hcs].
      destruct (Hcs c Hc) as [?|Hnil]; [done|by apply elem_of_nil in Hnil]. }
  split_and!.
  - intros u. split.
    + intros [n' Hn']%od_get_is_Some.
      destruct (Hsound u n' Hn') as [(n & Hn & _) (d & Hd & _)].
      split; [apply od_get_is_Some|]; eauto.
    + intros [[n Hn]%od_get_is_Some (d & Hd)].
      by apply (Hclosed u n (Hall d u Hd) Hn).
  - intros u n n' Hn Hn'.
    destruct (Hsound u n' Hn') as [(n0 & Hn0 & Hcopy) _].
    rewrite Hn in Hn0. injection Hn0 as <-.
    destruct Hcopy as (? & ? & ? & ? & ? & [[? Hmore]|[? _]]); [|done].
    destruct n'. simpl in *. rewrite Hmore by done. by subst.
  - by rewrite od_get_set_ne, od_get_set_ne, od_get_set_eq.
Qed.

(** With a depth limit of zero (or below) [get_subtree] returns the start
    node alone, if it is a node of the tree: without its children, and with
    [has_more] telling whether it has any. The result is marked as
    truncated when the tree has more than this one node. *)
Theorem get_subtree_at_limit (self : CachedTree.t) (root_url : option string)
    (max_depth : Z) (node : CachedNode.t) :
  (max_depth <= 0)%Z ->
  od_get (CachedTree.nodes self) (CachedTree.start_of self root_url) = Some node ->
  exists sub,
    CachedTree.get_subtree self root_url (Some max_depth) = Some sub
    /\ CachedTree.nodes sub
       = [(CachedTree.start_of self root_url,
           {| CachedNode.url := CachedNode.url node;
              CachedNode.name := CachedNode.name node;
              CachedNode.label := CachedNode.label node;
              CachedNode.comment := CachedNode.comment node;
              CachedNode.children := [];
              CachedNode.depth := CachedNode.depth node;
              CachedNode.has_more :=
                bool_decide (0 < length (CachedNode.children node)) |})]
    /\ od_get (CachedTree.metadata sub) "truncated"
       = Some (MBool (bool_decide (1 < length (CachedTree.nodes self)))).
Proof.
  intros Hlimit Hnode. unfold CachedTree.get_subtree, CachedTree.subtree_fuel.
  set (start := CachedTree.start_of self root_url) in *.
  rewrite Nat.add_comm. simpl. unfold CachedTree.subtree_step. simpl.
  rewrite decide_False by set_solver. rewrite Hnode.
  rewrite bool_decide_true by lia. simpl.
  eexists. split; [done|]. simpl. split; [done|].
  by rewrite od_get_set_ne, od_get_set_ne, od_get_set_eq.
Qed.

Lemma get_subtree_at_limit_witness :
  exists sub,
    CachedTree.get_subtree shortcut_tree None (Some 0%Z) = Some sub
    /\ od_keys (CachedTree.nodes sub) = ["R"]
    /\ od_get (CachedTree.metadata sub) "truncated" = Some (MBool true).
Proof.
  destruct (get_subtree_at_limit shortcut_tree None 0
              {| CachedNode.url := "R"; CachedNode.name := "R";
                 CachedNode.label := None; CachedNode.comment := None;
                 CachedNode.children := ["A"; "B"]; CachedNode.depth := 0;
                 CachedNode.has_more := false |})
    as (sub & Hsub & Hnodes & Htruncated).
  - lia.
  - reflexivity.
  - exists sub. split; [exact Hsub|]. split; [by rewrite Hnodes|exact Htruncated].
Defined.

(** ** Paths as strings ([labels/loader.py]) *)

Lemma has_char_append a s t :
  has_char a (s +:+ t) = has_char a s || has_char a t.
Proof.
  induction s as [|c s IH]; simpl; [done|]. by rewrite IH, orb_assoc.
Qed.

Lemma has_char_join a sep names :
  has_char a sep = false ->
  Forall (fun name => has_char a name = false) names ->
  has_char a (join sep names) = false.
Proof.
  intros Hsep. induction 1 as [|name names Hname Hnames IH]; [done|].
  destruct names as [|name' names]; [done|].
  change (join sep (name :: name' :: names))
    with (name +:+ sep +:+ join sep (name' :: names)).
  by rewrite !has_char_append, Hname, Hsep, IH.
Qed.

(** Cutting at a one-character separator. *)
Lemma split_go_word a word :
  has_char a word = false ->
  split_go (String a "") 0 word = [word].
Proof.
  induction word as [|c word IH]; simpl; [done|].
  intros [Hc Hword]%orb_false_iff. rewrite Hc. by rewrite IH.
Qed.

Lemma split_go_cut a word s :
  has_char a word = false ->
  split_go (String a "") 0 (word +:+ String a s)
  = word :: split_go (String a "") 0 s.
Proof.
  induction word as [|c word IH]; simpl.
  - intros _. by rewrite Ascii.eqb_refl.
  - intros [Hc Hword]%orb_false_iff. rewrite Hc. by rewrite IH.
Qed.

Lemma split_go_join a names :
  names <> [] ->
  Forall (fun name => has_char a name = false) names ->
  split_go (String a "") 0 (join (String a "") names) = names.
Proof.
  intros Hne Hnames. induction Hnames as [|name names Hname Hnames IH]; [done|].
  destruct names as [|name' names]; [by apply split_go_word|].
  change (join (String a "") (name :: name' :: names))
    with (name +:+ String a (join (String a "") (name' :: names))).
  rewrite split_go_cut by done. by rewrite IH.
Qed.

Lemma split_go_nonempty sep skip s : split_go sep skip s <> [].
Proof.
  revert skip. induction s as [|c s IH]; intros skip; simpl; [done|].
  destruct skip; [|apply IH].
  destruct (strip_prefix sep (String c s)); [done|].
  by destruct (split_go sep 0 s).
Qed.

Lemma split_each_paths a paths :
  Forall (fun path => path <> [] /\ Forall (fun name => has_char a name = false) path)
    paths ->
  split_each (String a "") (join (String a "") <$> paths) = Returned paths.
Proof.
  induction 1 as [|path paths [Hne Hpath] Hpaths IH]; [done|].
  csimpl. unfold py_split. destruct (decide (String a "" = "")); [done|].
  by rewrite split_go_join, IH.
Qed.

(** Writing paths with [paths_to_string] and reading them back with
    [string_to_paths] gives the paths again, for one-character separators
    that differ and occur in no name, when no path is empty and the string
    written is neither empty nor ["-"] (the two strings that are read as
    "no path"). *)
Theorem string_to_paths_of_paths_to_string (a b : ascii)
    (paths : list (list string)) :
  a <> b ->
  Forall
    (fun path =>
       path <> []
       /\ Forall (fun name => has_char a name = false /\ has_char b name = false)
            path)
    paths ->
  (paths <> [] ->
   paths_to_string paths (String a "") (String b "") <> ""
   /\ paths_to_string paths (String a "") (String b "") <> "-") ->
  string_to_paths (paths_to_string paths (String a "") (String b ""))
    (String a "") (String b "")
  = Returned paths.
Proof.
  intros Hab Hpaths Hs. unfold string_to_paths.
  destruct paths as [|path paths]; [done|].
  destruct Hs as [Hempty Hdash]; [done|].
  unfold no_answer. rewrite !bool_decide_false by done. simpl.
  unfold py_split. destruct (decide (String a "" = "")); [done|].
  unfold paths_to_string. rewrite split_go_join.
  - apply split_each_paths. eapply Forall_impl; [exact Hpaths|]. simpl.
    intros p [Hne Hnames]. split; [done|].
    eapply Forall_impl; [exact Hnames|]. simpl. tauto.
  - done.
  - apply Forall_fmap. eapply Forall_impl; [exact Hpaths|]. simpl.
    intros p [Hne Hnames]. apply has_char_join.
    + simpl. rewrite orb_false_r. by apply Ascii.eqb_neq.
    + eapply Forall_impl; [exact Hnames|]. simpl. tauto.
Qed.

Lemma string_to_paths_of_paths_to_string_witness :
  string_to_paths
    (paths_to_string [["TemporalEntity"; "Interval"]; ["Measurement"]] "|" "/")
    "|" "/"
  = Returned [["TemporalEntity"; "Interval"]; ["Measurement"]].
Proof.
  apply (string_to_paths_of_paths_to_string "|" "/"
           [["TemporalEntity"; "Interval"]; ["Measurement"]]).
  - discriminate.
  - repeat constructor; discriminate.
  - intros _. split; discriminate.
Defined.

Lemma split_each_nonempty sep parts paths :
  split_each sep parts = Returned paths ->
  Forall (fun path => path <> []) paths.
Proof.
  revert paths. induction parts as [|part parts IH]; intros paths; simpl.
  - by intros [= <-].
  - unfold py_split. case_decide; [done|].
    destruct (split_each sep parts) as [paths'|e]; [|done].
    intros [= <-]. constructor; [apply split_go_nonempty|by apply IH].
Qed.

(** [string_to_paths] reads the empty string and ["-"] as no path at all.
    On any other string it raises when a separator is empty, and the paths
    it returns are never empty. So the single empty path, which
    [paths_to_string] writes as the empty string, is read back as no path. *)
Theorem string_to_paths_never_empty_path (s path_sep level_sep : string) :
  (s = "" \/ s = "-" -> string_to_paths s path_sep level_sep = Returned [])
  /\ (s <> "" -> s <> "-" -> path_sep = "" \/ level_sep = "" ->
      string_to_paths s path_sep level_sep = Raised "empty separator")
  /\ (forall paths,
        string_to_paths s path_sep level_sep = Returned paths ->
        Forall (fun path => path <> []) paths)
  /\ string_to_paths (paths_to_string [[]] path_sep level_sep) path_sep level_sep
     = Returned [].
Proof.
  unfold string_to_paths. split_and!.
  - by intros [-> | ->].
  - intros Hempty Hdash Hsep. unfold no_answer.
    rewrite !bool_decide_false by done. simpl. unfold py_split.
    case_decide; [done|]. destruct Hsep as [?| ->]; [done|].
    pose proof (split_go_nonempty path_sep 0 s) as Hparts.
    destruct (split_go path_sep 0 s) as [|part parts]; [done|]. done.
  - intros paths. destruct (no_answer s); [by intros [= <-]|].
    destruct (py_split path_sep s) as [parts|e]; [|done].
    apply split_each_nonempty.
  - done.
Qed.

(** ** Ground-truth paths of a labels row *)

Lemma label_path_shape level1 level2 :
  length (label_path level1 level2) <= 1
  /\ Forall
       (fun path => 1 <= length path <= 2 /\ Forall (fun name => name <> "-") path)
       (label_path level1 level2).
Proof.
  unfold label_path, label_text.
  destruct level1 as [| |l1]; simpl; try (split; [lia|done]).
  case_decide; simpl; [split; [lia|done]|].
  split; [lia|]. apply Forall_singleton.
  destruct level2 as [| |l2]; simpl; try (split; [lia|by repeat constructor]).
  case_decide; simpl; (split; [lia|by repeat constructor]).
Qed.

(** A row of the labels file gives at most two paths, of one or two names
    each; a cell that is missing, empty or ["-"] gives no name, so ["-"]
    never stands in a path; and a class without a first level gives no
    path, whatever its second level. *)
Theorem parse_labels_to_paths_shape (row : LabelRow) :
  length (parse_labels_to_paths row) <= 2
  /\ Forall
       (fun path => 1 <= length path <= 2 /\ Forall (fun name => name <> "-") path)
       (parse_labels_to_paths row)
  /\ (label_text (class1_level1_name row) = None ->
      label_text (class2_level1_name row) = None ->
      parse_labels_to_paths row = []).
Proof.
  unfold parse_labels_to_paths.
  destruct (label_path_shape (class1_level1_name row) (class1_level2_name row))
    as [Hlen1 Hall1].
  destruct (label_path_shape (class2_level1_name row) (class2_level2_name row))
    as [Hlen2 Hall2].
  split_and!.
  - rewrite length_app. lia.
  - by apply Forall_app.
  - intros H1 H2. unfold label_path. by rewrite H1, H2.
Qed.

Lemma label_path_plain level1 level2 :
  plain_cell level1 -> plain_cell level2 ->
  Forall
    (fun path =>
       path <> []
       /\ Forall
            (fun name => name <> "" /\ name <> "-"
                         /\ has_char "|" name = false
                         /\ has_char "/" name = false)
            path)
    (label_path level1 level2).
Proof.
  unfold label_path, label_text, plain_cell.
  destruct level1 as [| |l1]; simpl; try done.
  intros (? & ? & ?). case_decide; [done|].
  destruct level2 as [| |l2]; simpl;
    try (intros _; by repeat constructor).
  intros (? & ? & ?). case_decide; by repeat constructor.
Qed.

Lemma join_first_nonempty sep name names :
  name <> "" -> join sep (name :: names) <> "".
Proof. destruct name; [done|]. intros _. by destruct names. Qed.

(** The ground-truth paths of a row survive the string form: when the
    texts of its cells are not empty and hold neither ["|"] nor ["/"],
    writing the paths of the row with [paths_to_string] and reading them
    with [string_to_paths] (default separators) gives the paths again. *)
Theorem labels_paths_round_trip (row : LabelRow) :
  plain_cell (class1_level1_name row) ->
  plain_cell (class1_level2_name row) ->
  plain_cell (class2_level1_name row) ->
  plain_cell (class2_level2_name row) ->
  string_to_paths (paths_to_string (parse_labels_to_paths row) "|" "/") "|" "/"
  = Returned (parse_labels_to_paths row).
Proof.
  intros H11 H12 H21 H22.
  assert (Hplain :
    Forall
      (fun path =>
         path <> []
         /\ Forall
              (fun name => name <> "" /\ name <> "-"
                           /\ has_char "|" name = false
                           /\ has_char "/" name = false)
              path)
      (parse_labels_to_paths row)).
  { unfold parse_labels_to_paths. apply Forall_app.
    split; by apply label_path_plain. }
  assert (Hstring :
    parse_labels_to_paths row <> [] ->
    paths_to_string (parse_labels_to_paths row) "|" "/" <> ""
    /\ paths_to_string (parse_labels_to_paths row) "|" "/" <> "-").
  2:{ unfold string_to_paths.
      destruct (parse_labels_to_paths row) as [|path paths] eqn:Hrow; [done|].
      destruct Hstring as [Hempty Hdash]; [done|].
      unfold no_answer. rewrite !bool_decide_false by done. simpl.
      unfold paths_to_string. rewrite (split_go_join "|").
      - apply (split_each_paths "/"). eapply Forall_impl; [exact Hplain|].
        simpl. intros p [Hne Hnames]. split; [done|].
        eapply Forall_impl; [exact Hnames|]. simpl. tauto.
      - done.
      - apply Forall_fmap. eapply Forall_impl; [exact Hplain|]. simpl.
        intros p [Hne Hnames]. apply has_char_join; [done|].
        eapply Forall_impl; [exact Hnames|]. simpl. tauto. }
  - intros Hne. unfold paths_to_string.
    destruct (parse_labels_to_paths row) as [|path paths]; [done|].
    apply Forall_cons in Hplain as [[Hpath Hnames] _].
    destruct path as [|name path]; [done|].
    apply Forall_cons in Hnames as [(Hname & Hdash & Hbar & Hslash) _].
    assert (Hfirst : exists c rest, join "/" (name :: path) = String c rest
                                    /\ (rest = "" -> String c rest = name)).
    { destruct name as [|c name]; [done|]. destruct path as [|name' path].
      - exists c, name. done.
      - eexists c, _. split; [done|]. simpl. intros Hrest.
        destruct name; discriminate. }
    destruct Hfirst as (c & rest & Hjoin & Hsingle).
    rewrite fmap_cons, Hjoin.
    destruct paths as [|path' paths].
    + simpl. split; [done|]. intros Heq. injection Heq as -> ->.
      by rewrite (Hsingle eq_refl) in Hdash.
    + rewrite fmap_cons.
      change (join "|" (String c rest :: join "/" path' :: (join "/" <$> paths)))
        with (String c (rest +:+ "|"
                        +:+ join "|" (join "/" path' :: (join "/" <$> paths)))).
      split; [done|]. destruct rest; discriminate.
Qed.

Lemma labels_paths_round_trip_witness :
  string_to_paths (paths_to_string (parse_labels_to_paths sample_row) "|" "/")
    "|" "/"
  = Returned (parse_labels_to_paths sample_row).
Proof.
  apply (labels_paths_round_trip sample_row); simpl;
    try (split_and!; (discriminate || reflexivity)); exact I.
Defined.

(** ** Stripping and cutting strings *)

Lemma lstrip_idemp s : lstrip (lstrip s) = lstrip s.
Proof.
  induction s as [|c s IH]; simpl; [done|].
  destruct (py_isspace c) eqn:Hc; [done|]. simpl. by rewrite Hc.
Qed.

Lemma rstrip_idemp s : rstrip (rstrip s) = rstrip s.
Proof.
  induction s as [|c s IH]; simpl; [done|].
  destruct (rstrip s) as [|d r] eqn:Hr.
  - destruct (py_isspace c) eqn:Hc; simpl; [done|]. by rewrite Hc.
  - change (rstrip (String c (String d r)))
      with (match rstrip (String d r) with
            | EmptyString =>
                if py_isspace c then EmptyString else String c EmptyString
            | r' => String c r'
            end).
    by rewrite IH.
Qed.

Lemma lstrip_starts s :
  lstrip s = "" \/ exists c t, lstrip s = String c t /\ py_isspace c = false.
Proof.
  induction s as [|c s IH]; simpl; [by left|].
  destruct (py_isspace c) eqn:Hc; [done|]. right. eauto.
Qed.

Lemma lstrip_rstrip_lstrip s : lstrip (rstrip (lstrip s)) = rstrip (lstrip s).
Proof.
  destruct (lstrip_starts s) as [->|(c & t & -> & Hc)]; [done|]. simpl.
  destruct (rstrip t); rewrite ?Hc; simpl; by rewrite Hc.
Qed.

Lemma strip_idemp s : strip (strip s) = strip s.
Proof. unfold strip. by rewrite lstrip_rstrip_lstrip, rstrip_idemp. Qed.

Lemma has_char_lstrip a s : has_char a s = false -> has_char a (lstrip s) = false.
Proof.
  induction s as [|c s IH]; simpl; [done|].
  intros [Hc Hs]%orb_false_iff. destruct (py_isspace c); [by apply IH|].
  simpl. by rewrite Hc, Hs.
Qed.

Lemma has_char_rstrip a s : has_char a s = false -> has_char a (rstrip s) = false.
Proof.
  induction s as [|c s IH]; simpl; [done|].
  intros [Hc Hs]%orb_false_iff. specialize (IH Hs).
  destruct (rstrip s); simpl in *.
  - destruct (py_isspace c); simpl; [done|]. by rewrite Hc.
  - by rewrite Hc, IH.
Qed.

Lemma has_char_strip a s : has_char a s = false -> has_char a (strip s) = false.
Proof. intros. by apply has_char_rstrip, has_char_lstrip. Qed.

(** The pieces of [s.split(",")]: one more than there are commas, and no
    comma in any. *)
Lemma split_comma_pieces s :
  length (split_comma s) = S (count_char "," s)
  /\ Forall (fun piece => has_char "," piece = false) (split_comma s).
Proof.
  induction s as [|c s [IHlen IHall]]; [by repeat constructor|].
  cbn [split_comma count_char]. rewrite (Ascii.eqb_sym "," c).
  destruct (Ascii.eqb c ",") eqn:Hc.
  - cbn [length]. rewrite IHlen. split; [done|]. by constructor.
  - destruct (split_comma s) as [|w ws]; cbn [length] in *; [lia|].
    split; [done|]. apply Forall_cons in IHall as [Hw Hws].
    constructor; [|done]. cbn [has_char].
    by rewrite (Ascii.eqb_sym "," c), Hc, Hw.
Qed.

Lemma split_comma_word word :
  has_char "," word = false -> split_comma word = [word].
Proof.
  induction word as [|c word IH]; [done|]. cbn [has_char split_comma].
  intros [Hc Hword]%orb_false_iff. rewrite (Ascii.eqb_sym c ","), Hc.
  by rewrite IH.
Qed.

Lemma split_comma_cut word s :
  has_char "," word = false ->
  split_comma (word +:+ String "," s) = word :: split_comma s.
Proof.
  induction word as [|c word IH].
  - intros _. reflexivity.
  - cbn [has_char]. intros [Hc Hword]%orb_false_iff.
    change (String c word +:+ String "," s)
      with (String c (word +:+ String "," s)).
    cbn [split_comma]. rewrite (Ascii.eqb_sym c ","), Hc.
    by rewrite IH.
Qed.

Lemma strip_split_join name names :
  Forall (fun name => has_char "," name = false /\ strip name = name)
    (name :: names) ->
  strip <$> split_comma (join ", " (name :: names)) = name :: names.
Proof.
  revert name. induction names as [|name' names IH]; intros name Hall.
  - apply Forall_cons in Hall as [[Hcomma Hstrip] _]. simpl.
    rewrite split_comma_word by done. csimpl. by rewrite Hstrip.
  - apply Forall_cons in Hall as [[Hcomma Hstrip] Hall].
    change (join ", " (name :: name' :: names))
      with (name +:+ String "," (String " " (join ", " (name' :: names)))).
    rewrite split_comma_cut by done.
    specialize (IH name' Hall).
    change (split_comma (String " " (join ", " (name' :: names))))
      with (match split_comma (join ", " (name' :: names)) with
            | w :: ws => String " " w :: ws
            | [] => [String " " EmptyString]
            end).
    destruct (split_comma (join ", " (name' :: names))) as [|w ws];
      [discriminate|].
    csimpl in *. injection IH as Hw Hws.
    rewrite Hstrip. f_equal. f_equal; [|done].
    rewrite <- Hw. done.
Qed.

(** What the prompt shows is read back as it was: parsing a list of names
    joined by a comma and a blank gives the names again, when no name holds
    a comma or has blanks around it, and the list is neither a single empty
    name nor the single name ["-"] (both are read as "no class"). *)
Theorem parse_class_list_of_join (names : list string) :
  Forall (fun name => has_char "," name = false /\ strip name = name) names ->
  names <> [""] -> names <> ["-"] ->
  parse_class_list (join ", " names) = names.
Proof.
  intros Hall Hempty Hdash. unfold parse_class_list.
  destruct names as [|name names]; [done|].
  assert (Hsome : no_answer (join ", " (name :: names)) = false).
  { unfold no_answer. apply orb_false_iff.
    split; apply bool_decide_eq_false; destruct names as [|name' names].
    - simpl. congruence.
    - simpl. by destruct name.
    - simpl. congruence.
    - change (join ", " (name :: name' :: names))
        with (name +:+ String "," (String " " (join ", " (name' :: names)))).
      destruct name as [|c [|c' name]]; simpl; by intros [=]. }
  rewrite Hsome. by apply strip_split_join.
Qed.

Lemma parse_class_list_of_join_witness :
  parse_class_list (join ", " ten_candidates) = ten_candidates.
Proof.
  apply (parse_class_list_of_join ten_candidates).
  - repeat constructor.
  - discriminate.
  - discriminate.
Defined.

(** The names [parse_class_list] returns have no blanks around them and
    hold no comma; for an answer other than the empty one and ["-"] there
    is one name more than there are commas in the answer, empty names
    included. *)
Theorem parse_class_list_names (answer : string) :
  Forall (fun name => strip name = name /\ has_char "," name = false)
    (parse_class_list answer)
  /\ (answer = "" \/ answer = "-" -> parse_class_list answer = [])
  /\ (answer <> "" -> answer <> "-" ->
      length (parse_class_list answer) = S (count_char "," answer)).
Proof.
  unfold parse_class_list, no_answer.
  destruct (split_comma_pieces answer) as [Hlen Hall]. split_and!.
  - destruct (_ || _); [done|]. apply Forall_fmap.
    eapply Forall_impl; [exact Hall|]. simpl. intros piece Hpiece.
    split; [apply strip_idemp|by apply has_char_strip].
  - by intros [-> | ->].
  - intros Hempty Hdash. rewrite !bool_decide_false by done. simpl.
    by rewrite length_fmap.
Qed.

(** ** The first tagged part of a response *)

Lemma strip_prefix_app pat rest : strip_prefix pat (pat +:+ rest) = Some rest.
Proof.
  induction pat as [|a pat IH]; simpl; [by destruct rest|].
  by rewrite Ascii.eqb_refl.
Qed.

Lemma strip_prefix_Some pat s rest :
  strip_prefix pat s = Some rest -> s = pat +:+ rest.
Proof.
  revert s. induction pat as [|a pat IH]; intros s; simpl.
  - by intros [= <-].
  - destruct s as [|b s]; [done|].
    destruct (Ascii.eqb a b) eqn:Hab; [|done].
    apply Ascii.eqb_eq in Hab as <-. intros Hrest. by rewrite (IH s Hrest).
Qed.

Lemma cut_at_unfold pat s :
  cut_at pat s
  = match strip_prefix pat s with
    | Some rest => Some (EmptyString, rest)
    | None =>
        match s with
        | EmptyString => None
        | String c s' =>
            match cut_at pat s' with
            | Some (before, rest) => Some (String c before, rest)
            | None => None
            end
        end
    end.
Proof. by destruct s. Qed.

Lemma cut_at_Some pat s before rest :
  cut_at pat s = Some (before, rest) -> s = before +:+ pat +:+ rest.
Proof.
  revert before. induction s as [|c s IH]; intros before;
    rewrite cut_at_unfold.
  - destruct (strip_prefix pat "") as [r|] eqn:Hp; [|done].
    intros [= <- <-]. by apply strip_prefix_Some in Hp.
  - destruct (strip_prefix pat (String c s)) as [r|] eqn:Hp.
    + intros [= <- <-]. by apply strip_prefix_Some in Hp.
    + destruct (cut_at pat s) as [[b r]|]; [|done].
      intros [= <- <-]. simpl. by rewrite (IH b eq_refl).
Qed.

(** [cut_at] finds nothing exactly when the pattern does not occur. *)
Lemma cut_at_None pat s : cut_at pat s = None <-> ~ occurs pat s.
Proof.
  split.
  - intros Hcut (before & rest & ->). revert Hcut.
    induction before as [|c before IH]; rewrite cut_at_unfold.
    + change ("" +:+ pat +:+ rest) with (pat +:+ rest).
      by rewrite strip_prefix_app.
    + change (String c before +:+ pat +:+ rest)
        with (String c (before +:+ pat +:+ rest)).
      destruct (strip_prefix pat _); [done|].
      destruct (cut_at pat (before +:+ pat +:+ rest)) as [[b r]|]; [done|].
      intros _. by apply IH.
  - intros Hnot. destruct (cut_at pat s) as [[before rest]|] eqn:Hcut; [|done].
    destruct Hnot. apply cut_at_Some in Hcut. by exists before, rest.
Qed.

(** A pattern whose first character does not come back in it is not
    matched across the end of a text it does not start. *)
Lemma strip_prefix_overrun a pat s t :
  has_char a pat = false ->
  strip_prefix pat s = None ->
  strip_prefix pat (s +:+ String a t) = None.
Proof.
  revert s. induction pat as [|b pat IH]; intros s; [by destruct s|].
  cbn [has_char]. intros [Hab Hpat]%orb_false_iff.
  destruct s as [|d s]; simpl.
  - intros _. rewrite Ascii.eqb_sym. by rewrite Hab.
  - destruct (Ascii.eqb b d); [by apply IH|done].
Qed.

Lemma cut_at_first a pat before rest :
  has_char a pat = false ->
  ~ occurs (String a pat) before ->
  cut_at (String a pat) (before +:+ String a pat +:+ rest) = Some (before, rest).
Proof.
  intros Hfresh Hnot%cut_at_None.
  induction before as [|c before IH]; rewrite cut_at_unfold.
  - change ("" +:+ String a pat +:+ rest) with (String a pat +:+ rest).
    by rewrite strip_prefix_app.
  - rewrite cut_at_unfold in Hnot.
    destruct (strip_prefix (String a pat) (String c before)) eqn:Hp; [done|].
    destruct (cut_at (String a pat) before) as [[b r]|] eqn:Hcut; [done|].
    change (String c before +:+ String a pat +:+ rest)
      with (String c (before +:+ String a (pat +:+ rest))).
    assert (Hover : strip_prefix (String a pat)
                      (String c (before +:+ String a (pat +:+ rest))) = None).
    { simpl in Hp |- *. destruct (Ascii.eqb a c); [|done].
      by apply strip_prefix_overrun. }
    rewrite Hover.
    change (before +:+ String a (pat +:+ rest))
      with (before +:+ String a pat +:+ rest).
    by rewrite IH.
Qed.

(** [extract_answer] returns the text between the first [<answer>] and the
    first [</answer>] after it, without the blanks around it: on a response
    that holds [<answer>body</answer>], with no opening tag before it and
    no closing tag in [body], it returns [body] stripped. Without an opening
    tag there is no answer. What it returns has no blanks around it. *)
Theorem extract_answer_tagged (before body rest response : string) :
  (~ occurs "<answer>" before -> ~ occurs "</answer>" body ->
   extract_answer (before +:+ "<answer>" +:+ body +:+ "</answer>" +:+ rest)
   = Some (strip body))
  /\ (~ occurs "<answer>" response -> extract_answer response = None)
  /\ (forall answer, extract_answer response = Some answer ->
        strip answer = answer
        /\ exists before' body' rest',
             response = before' +:+ "<answer>" +:+ body' +:+ "</answer>" +:+ rest'
             /\ answer = strip body').
Proof.
  unfold extract_answer, first_tagged. split_and!.
  - intros Hbefore Hbody.
    rewrite (cut_at_first "<" "answer>") by done.
    by rewrite (cut_at_first "<" "/answer>") by done.
  - intros Hnone%cut_at_None. by rewrite Hnone.
  - intros answer.
    destruct (cut_at "<answer>" response) as [[before' rest1]|] eqn:Hopen;
      [|done].
    destruct (cut_at "</answer>" rest1) as [[body' rest']|] eqn:Hclose; [|done].
    intros [= <-]. split; [apply strip_idemp|].
    apply cut_at_Some in Hopen, Hclose. subst. eauto.
Qed.

(** ** The single strategy, from the answer to the selection *)

Lemma no_answer_join name names :
  name :: names <> [""] -> name :: names <> ["-"] ->
  no_answer (join ", " (name :: names)) = false.
Proof.
  intros Hempty Hdash. unfold no_answer. apply orb_false_iff.
  split; apply bool_decide_eq_false; destruct names as [|name' names].
  - simpl. congruence.
  - simpl. by destruct name.
  - simpl. congruence.
  - change (join ", " (name :: name' :: names))
      with (name +:+ String "," (String " " (join ", " (name' :: names)))).
    destruct name as [|c [|c' name]]; simpl; by intros [=].
Qed.

(** When the language model answers the first request, and its response
    holds [<answer>body</answer>] (no opening tag before, no closing tag
    inside) where [body], without the blanks around it, lists the names
    [picked] joined by a comma and a blank, then [select_single] selects
    the names of [picked] that are candidates, in the order of the answer.
    It makes one request and does not sleep. *)
Theorem select_single_follows_answer (E : Env) (self : DetailedSelector.t)
    (table_name table_in_markdown column_name : string)
    (candidates picked : list string) (w : World E)
    (l' : llm_state E) (llm_result : LLMResult.t) (before body rest : string) :
  candidates <> [] ->
  (0 < DetailedSelector.max_retries self)%Z ->
  llm_generate E
    (DetailedSelector.data_for table_name table_in_markdown column_name
       candidates) (llm w)
  = (l', Returned llm_result) ->
  LLMResult.content llm_result
  = before +:+ "<answer>" +:+ body +:+ "</answer>" +:+ rest ->
  ~ occurs "<answer>" before -> ~ occurs "</answer>" body ->
  strip body = join ", " picked ->
  Forall (fun name => has_char "," name = false /\ strip name = name) picked ->
  picked <> [""] -> picked <> ["-"] ->
  exists w' result,
    DetailedSelector.select_single self table_name table_in_markdown
      column_name candidates w = (w', Returned result)
    /\ SelectionResult.selected result
       = filter (fun name => name ∈ candidates) picked
    /\ SelectionResult.status result = "completed"
    /\ calls w'
       = calls w
         ++ [DetailedSelector.data_for table_name table_in_markdown column_name
               candidates]
    /\ slept w' = slept w
    /\ llm w' = l'.
Proof.
  intros Hcand Hretries Hgen Hcontent Hbefore Hbody Hstrip Hclean Hempty Hdash.
  unfold DetailedSelector.select_single.
  destruct candidates as [|c0 cs]; [done|].
  unfold DetailedSelector._call_llm_with_retry.
  destruct (Z.to_nat (DetailedSelector.max_retries self)) as [|n] eqn:Hn; [lia|].
  cbn [seq DetailedSelector.attempt_loop]. unfold DetailedSelector.generate.
  rewrite Hgen.
  assert (Hanswer : extract_answer (LLMResult.content llm_result)
                    = Some (join ", " picked)).
  { rewrite Hcontent. unfold extract_answer, first_tagged.
    rewrite (cut_at_first "<" "answer>") by done.
    rewrite (cut_at_first "<" "/answer>") by done. by rewrite Hstrip. }
  eexists _, _. split; [done|]. simpl. rewrite Hanswer. simpl.
  split_and!; try done.
  destruct picked as [|name names]; [done|].
  rewrite no_answer_join by done.
  unfold parse_class_list. rewrite no_answer_join by done.
  by rewrite strip_split_join.
Qed.

Lemma select_single_follows_answer_witness :
  exists w' result,
    DetailedSelector.select_single default_selector "table" "| a |" "a"
      ["A"; "B"] (fresh (scenario_env "A, B") tt tt) = (w', Returned result)
    /\ SelectionResult.selected result = ["A"; "B"]
    /\ slept w' = [].
Proof.
  destruct (select_single_follows_answer (scenario_env "A, B") default_selector
              "table" "| a |" "a" ["A"; "B"] ["A"; "B"]
              (fresh (scenario_env "A, B") tt tt) tt
              {| LLMResult.content := "<answer>A, B</answer>";
                 LLMResult.input_tokens := None;
                 LLMResult.output_tokens := None;
                 LLMResult.total_tokens := None |}
              "" "A, B" "")
    as (w' & result & Hsel & Hselected & _ & _ & Hslept & _).
  - discriminate.
  - reflexivity.
  - reflexivity.
  - reflexivity.
  - apply cut_at_None. reflexivity.
  - apply cut_at_None. reflexivity.
  - reflexivity.
  - repeat constructor.
  - discriminate.
  - discriminate.
  - exists w', result. split; [exact Hsel|]. split; [exact Hselected|exact Hslept].
Defined.

(** ** The evaluation metrics *)

Section metrics_facts.
Variable py_sum : list float -> float.

Lemma flatten_list_to_set_elem paths n :
  n ∈ Metrics.flatten_list_to_set paths <-> on_path paths n.
Proof.
  unfold Metrics.flatten_list_to_set, on_path. rewrite elem_of_list_to_set.
  assert (Hgen : forall all_nodes,
    n ∈ foldl (fun all_nodes p => all_nodes ++ p) all_nodes paths
    <-> n ∈ all_nodes \/ exists p, p ∈ paths /\ n ∈ p).
  { induction paths as [|p paths IH]; intros all_nodes; simpl.
    - split; [by left|]. intros [?|(p & Hp & _)]; [done|].
      by apply elem_of_nil in Hp.
    - rewrite IH, elem_of_app. setoid_rewrite elem_of_cons. naive_solver. }
  rewrite Hgen, elem_of_nil. tauto.
Qed.

Lemma fold_rows_ext {A} `{Countable A} (sets sets' : Metrics.row -> gset A * gset A)
    data data' acc :
  Forall2 (fun r r' => sets r = sets' r') data data' ->
  foldl (fun acc r => Metrics.add_row acc (sets r).1 (sets r).2) acc data
  = foldl (fun acc r => Metrics.add_row acc (sets' r).1 (sets' r).2) acc data'.
Proof.
  intros Hall. revert acc.
  induction Hall as [|r r' data data' Hr _ IH]; intros acc; simpl; [done|].
  by rewrite Hr, IH.
Qed.

(** The metrics look at sets only. The path-level values do not change
    when the paths of a row are reordered or repeated; the node-level
    values do not change as long as the same names stand on the paths of
    the ground truth and on the predicted paths, however they are grouped
    into paths (an empty path adds nothing). *)
Theorem metrics_depend_on_sets (data data' : list Metrics.row) :
  (Forall2 same_paths data data' ->
   Metrics.path_level_f1_precision_recall py_sum data
   = Metrics.path_level_f1_precision_recall py_sum data')
  /\ (Forall2 same_nodes data data' ->
      Metrics.node_level_f1_precision_recall py_sum data
      = Metrics.node_level_f1_precision_recall py_sum data').
Proof.
  unfold Metrics.path_level_f1_precision_recall,
    Metrics.node_level_f1_precision_recall.
  split; intros Hall; f_equal.
  - apply (fold_rows_ext
             (fun r => (list_to_set (Metrics.gt_paths r) : gset (list string),
                        list_to_set (Metrics.pred_paths r)))
             (fun r => (list_to_set (Metrics.gt_paths r) : gset (list string),
                        list_to_set (Metrics.pred_paths r)))).
    eapply Forall2_impl; [exact Hall|]. simpl. intros r r' [Hgt Hpred].
    f_equal; apply set_eq; intros p; rewrite !elem_of_list_to_set; auto.
  - apply (fold_rows_ext
             (fun r => (Metrics.flatten_list_to_set (Metrics.gt_paths r),
                        Metrics.flatten_list_to_set (Metrics.pred_paths r)))
             (fun r => (Metrics.flatten_list_to_set (Metrics.gt_paths r),
                        Metrics.flatten_list_to_set (Metrics.pred_paths r)))).
    eapply Forall2_impl; [exact Hall|]. simpl. intros r r' [Hgt Hpred].
    f_equal; apply set_eq; intros n; rewrite !flatten_list_to_set_elem; auto.
Qed.

Lemma fold_rows_exchanged {A} `{Countable A}
    (sets : list (list string) -> gset A) data acc acc' :
  Metrics.precisions acc' = Metrics.recalls acc ->
  Metrics.recalls acc' = Metrics.precisions acc ->
  Metrics.total_tp acc' = Metrics.total_tp acc ->
  Metrics.total_fp acc' = Metrics.total_fn acc ->
  Metrics.total_fn acc' = Metrics.total_fp acc ->
  let out :=
    foldl (fun acc r =>
             Metrics.add_row acc (sets (Metrics.gt_paths r))
               (sets (Metrics.pred_paths r))) acc data in
  let out' :=
    foldl (fun acc r =>
             Metrics.add_row acc (sets (Metrics.gt_paths r))
               (sets (Metrics.pred_paths r))) acc' (exchanged <$> data) in
  Metrics.precisions out' = Metrics.recalls out
  /\ Metrics.recalls out' = Metrics.precisions out
  /\ Metrics.total_tp out' = Metrics.total_tp out
  /\ Metrics.total_fp out' = Metrics.total_fn out
  /\ Metrics.total_fn out' = Metrics.total_fp out.
Proof.
  revert acc acc'. induction data as [|r data IH]; intros acc acc'; [done|].
  intros Hp Hr Htp Hfp Hfn. csimpl. apply IH; simpl.
  - rewrite Hp. do 2 f_equal. f_equal. f_equal. apply (comm_L (∩)).
  - rewrite Hr. do 2 f_equal. f_equal. f_equal. apply (comm_L (∩)).
  - rewrite Htp. f_equal. f_equal. apply (comm_L (∩)).
  - by rewrite Hfp.
  - by rewrite Hfn.
Qed.

(** Exchanging prediction and ground truth in every row exchanges
    precision and recall, macro and micro, at the path level and at the
    node level. *)
Theorem metrics_exchange (data : list Metrics.row) :
  let path := Metrics.path_level_f1_precision_recall py_sum data in
  let path' :=
    Metrics.path_level_f1_precision_recall py_sum (exchanged <$> data) in
  let node := Metrics.node_level_f1_precision_recall py_sum data in
  let node' :=
    Metrics.node_level_f1_precision_recall py_sum (exchanged <$> data) in
  (Metrics.macro_precision path' = Metrics.macro_recall path
   /\ Metrics.macro_recall path' = Metrics.macro_precision path
   /\ Metrics.micro_precision path' = Metrics.micro_recall path
   /\ Metrics.micro_recall path' = Metrics.micro_precision path)
  /\ (Metrics.macro_precision node' = Metrics.macro_recall node
      /\ Metrics.macro_recall node' = Metrics.macro_precision node
      /\ Metrics.micro_precision node' = Metrics.micro_recall node
      /\ Metrics.micro_recall node' = Metrics.micro_precision node).
Proof.
  intros path path' node node'.
  subst path path' node node'.
  unfold Metrics.path_level_f1_precision_recall,
    Metrics.node_level_f1_precision_recall, Metrics.summary. simpl.
  split.
  - destruct (fold_rows_exchanged
                (fun paths => list_to_set paths : gset (list string))
                data Metrics.no_rows Metrics.no_rows)
      as (Hp & Hr & Htp & Hfp & Hfn); try done.
    simpl in Hp, Hr, Htp, Hfp, Hfn. by rewrite Hp, Hr, Htp, Hfp, Hfn.
  - destruct (fold_rows_exchanged Metrics.flatten_list_to_set
                data Metrics.no_rows Metrics.no_rows)
      as (Hp & Hr & Htp & Hfp & Hfn); try done.
    simpl in Hp, Hr, Htp, Hfp, Hfn. by rewrite Hp, Hr, Htp, Hfp, Hfn.
Qed.

End metrics_facts.

(** ** The requests of a run with the single strategy *)

Section request_budget.
Context {E : Env}.
Context (selector : DetailedSelector.t) (max_depth : Z).
Context (table_name table_markdown column_name : string).
Context (ontology_dag : OntologyDAG.t).

Local Abbreviation self :=
  {| RunExecutor.selector := detailed_selector E selector;
     RunExecutor.max_depth := max_depth |}.
Local Abbreviation visit :=
  (RunExecutor.visit self table_name table_markdown column_name ontology_dag).

Lemma select_single_calls candidates (w : World E) :
  length (calls (DetailedSelector.select_single selector table_name
                   table_markdown column_name candidates w).1)
  <= length (calls w) + Z.to_nat (DetailedSelector.max_retries selector).
Proof.
  unfold DetailedSelector.select_single.
  destruct candidates as [|c0 cs]; simpl; [lia|].
  unfold DetailedSelector._call_llm_with_retry.
  pose proof (attempt_loop_spec selector
                (DetailedSelector.data_for table_name table_markdown
                   column_name (c0 :: cs))
                (Z.to_nat (DetailedSelector.max_retries selector)) 0 None w)
    as Hspec.
  destruct (DetailedSelector.attempt_loop selector _ _ None w)
    as [w' [response|last]]; simpl.
  - destruct Hspec as (j & Hj & -> & _).
    rewrite length_app, length_replicate. lia.
  - destruct Hspec as (-> & _). rewrite length_app, length_replicate. lia.
Qed.

(** An iteration either leaves the selector alone, or calls it once, for a
    parent that has children and is not cached yet. *)
Lemma visit_selector (st st' : RunExecutor.state (World E)) level parent_url
    current_path o :
  visit st level parent_url current_path = (st', o) ->
  (RunExecutor.sel st' = RunExecutor.sel st
   /\ RunExecutor.invoked st' = RunExecutor.invoked st
   /\ RunExecutor.selection_cache st' = RunExecutor.selection_cache st)
  \/ (RunExecutor.selection_cache st !! parent_url = None
      /\ parent_url ∈ od_keys (OntologyDAG.edges_subclassof ontology_dag)
      /\ RunExecutor.invoked st' = RunExecutor.invoked st ++ [parent_url]
      /\ exists candidates,
           RunExecutor.sel st'
           = (DetailedSelector.select selector table_name table_markdown
                column_name candidates (RunExecutor.sel st)).1
           /\ (o = None ->
               is_Some (RunExecutor.selection_cache st' !! parent_url)
               /\ forall p, is_Some (RunExecutor.selection_cache st !! p) ->
                            is_Some (RunExecutor.selection_cache st' !! p))).
Proof.
  unfold RunExecutor.visit.
  destruct (bool_decide (od_get_list _ parent_url = []) || _) eqn:Hstop.
  { intros [= <- _]. left. by destruct current_path. }
  apply orb_false_iff in Hstop as [Hchildren _].
  apply bool_decide_eq_false in Hchildren.
  assert (Hkey : parent_url ∈ od_keys (OntologyDAG.edges_subclassof ontology_dag)).
  { apply od_get_is_Some. unfold od_get_list in Hchildren.
    destruct (od_get _ parent_url); [eauto|done]. }
  case_bool_decide as Hcand.
  { intros [= <- _]. left. by destruct current_path. }
  destruct (cached_select_cases self table_name table_markdown column_name
              st parent_url
              (RunExecutor.candidate_names ontology_dag
                 (od_get_list (OntologyDAG.edges_subclassof ontology_dag)
                    parent_url)))
    as [(cached & Hhit & Hc)|[(w' & result & Hnone & Hsel & Hc)
                             |(w' & e & Hnone & Hsel & Hc)]];
    rewrite Hc; try (simpl in Hsel).
  - case_decide; [intros [= <- _]; by left|].
    case_bool_decide; intros [= <- _]; left; [by destruct current_path|done].
  - assert (Hcache : forall cache' : gmap string SelectionResult.t,
              cache' = <[parent_url := result]> (RunExecutor.selection_cache st) ->
              is_Some (cache' !! parent_url)
              /\ forall p, is_Some (RunExecutor.selection_cache st !! p) ->
                           is_Some (cache' !! p)).
    { intros cache' ->. split; [rewrite lookup_insert_eq; eauto|].
      intros p Hp. rewrite lookup_insert. case_decide; eauto. }
    case_decide.
    { intros [= <- _]. right. split_and!; try done.
      eexists. rewrite Hsel. split; [done|]. intros _. by apply Hcache. }
    case_bool_decide; intros [= <- _]; right.
    + destruct current_path; (split_and!; try done);
        eexists; rewrite Hsel; (split; [done|]); intros _; by apply Hcache.
    + split_and!; try done.
      eexists. rewrite Hsel. split; [done|]. intros _. by apply Hcache.
  - intros [= <- <-]. right. split_and!; try done.
    eexists. rewrite Hsel. split; [done|]. done.
Qed.

Lemma visit_budget (w0 : World E) (st st' : RunExecutor.state (World E))
    level parent_url current_path o :
  DetailedSelector.mode selector <> "edm" ->
  budget_inv selector ontology_dag w0 st ->
  visit st level parent_url current_path = (st', o) ->
  (o = None -> budget_inv selector ontology_dag w0 st')
  /\ NoDup (RunExecutor.invoked st')
  /\ (forall p, p ∈ RunExecutor.invoked st' ->
        p ∈ od_keys (OntologyDAG.edges_subclassof ontology_dag))
  /\ length (calls (RunExecutor.sel st'))
     <= length (calls w0)
        + Z.to_nat (DetailedSelector.max_retries selector)
          * length (RunExecutor.invoked st').
Proof.
  intros Hmode (Hnd & Hin & Hcalls) Hvisit.
  apply visit_selector in Hvisit
    as [(Hsel & Hinv & Hcache)|(Hnone & Hkey & Hinv & candidates & Hsel & Hsome)].
  - rewrite Hsel, Hinv. split_and!; try done; [|intros p Hp; by apply Hin].
    intros _. unfold budget_inv. by rewrite Hsel, Hinv, Hcache.
  - assert (Hnd' : NoDup (RunExecutor.invoked st ++ [parent_url])).
    { apply NoDup_app. split_and!; [done| |apply NoDup_singleton].
      intros p Hp ->%list_elem_of_singleton.
      apply Hin in Hp as [[? Hp] _]. congruence. }
    assert (Hkeys' : forall p, p ∈ RunExecutor.invoked st ++ [parent_url] ->
              p ∈ od_keys (OntologyDAG.edges_subclassof ontology_dag)).
    { intros p [Hp| ->%list_elem_of_singleton]%elem_of_app; [by apply Hin|done]. }
    assert (Hcalls' :
      length (calls (RunExecutor.sel st'))
      <= length (calls w0)
         + Z.to_nat (DetailedSelector.max_retries selector)
           * length (RunExecutor.invoked st ++ [parent_url])).
    { rewrite Hsel. unfold DetailedSelector.select.
      rewrite decide_False by done.
      pose proof (select_single_calls candidates (RunExecutor.sel st)).
      rewrite length_app. simpl. lia. }
    rewrite Hinv. split_and!; try done.
    intros Ho. destruct (Hsome Ho) as [Hnew Hold].
    unfold budget_inv. rewrite Hinv. split_and!; try done.
    intros p [Hp| ->%list_elem_of_singleton]%elem_of_app.
    + split; [apply Hold|]; by apply Hin.
    + done.
Qed.

End request_budget.

(** With the single strategy, a run of [execute_column] calls the selector
    at most once for each url that has an entry in [edges_subclassof], and
    each call makes at most [max_retries] requests: from start to end the
    language model is asked at most [max_retries] times the number of
    entries of [edges_subclassof], whatever it answers. *)
Theorem single_strategy_request_budget (E : Env) (selector : DetailedSelector.t)
    (max_depth : Z) (table_name table_markdown column_name : string)
    (ontology_dag : OntologyDAG.t) (w0 : World E) (fuel : nat)
    (st : RunExecutor.state (World E)) (out : outcome ColumnResultDetail.t) :
  DetailedSelector.mode selector <> "edm" ->
  RunExecutor.execute_column
    {| RunExecutor.selector := detailed_selector E selector;
       RunExecutor.max_depth := max_depth |}
    table_name table_markdown column_name ontology_dag fuel w0
  = Some (st, out) ->
  length (calls (RunExecutor.sel st))
  <= length (calls w0)
     + Z.to_nat (DetailedSelector.max_retries selector)
       * length (RunExecutor.invoked st)
  /\ NoDup (RunExecutor.invoked st)
  /\ length (RunExecutor.invoked st)
     <= length (OntologyDAG.edges_subclassof ontology_dag)
  /\ length (calls (RunExecutor.sel st))
     <= length (calls w0)
        + Z.to_nat (DetailedSelector.max_retries selector)
          * length (OntologyDAG.edges_subclassof ontology_dag).
Proof.
  intros Hmode Hexec. unfold RunExecutor.execute_column in Hexec.
  destruct (RunExecutor.bfs_loop _ _ _ _ _ fuel _) as [[st' o]|] eqn:Hloop;
    [|done].
  assert (st' = st) as -> by (destruct o; by injection Hexec as -> _).
  assert (Hend :
    NoDup (RunExecutor.invoked st)
    /\ (forall p, p ∈ RunExecutor.invoked st ->
          p ∈ od_keys (OntologyDAG.edges_subclassof ontology_dag))
    /\ length (calls (RunExecutor.sel st))
       <= length (calls w0)
          + Z.to_nat (DetailedSelector.max_retries selector)
            * length (RunExecutor.invoked st)).
  { refine (bfs_loop_invariant
              {| RunExecutor.selector := detailed_selector E selector;
                 RunExecutor.max_depth := max_depth |}
              table_name table_markdown column_name
              ontology_dag (budget_inv selector ontology_dag w0)
              (fun st =>
                 NoDup (RunExecutor.invoked st)
                 /\ (forall p, p ∈ RunExecutor.invoked st ->
                       p ∈ od_keys (OntologyDAG.edges_subclassof ontology_dag))
                 /\ length (calls (RunExecutor.sel st))
                    <= length (calls w0)
                       + Z.to_nat (DetailedSelector.max_retries selector)
                         * length (RunExecutor.invoked st))
              _ _ _ fuel _ st o _ Hloop).
    - intros st1 level parent_url current_path rest st2 Hinv _ Hvisit.
      eapply (visit_budget selector max_depth) in Hvisit as [Hnext _];
        [by apply Hnext|done|].
      destruct Hinv as (? & ? & ?). done.
    - intros st1 level parent_url current_path rest st2 e Hinv _ Hvisit.
      eapply (visit_budget selector max_depth) in Hvisit as [_ Hnext];
        [exact Hnext|done|].
      destruct Hinv as (? & ? & ?). done.
    - intros st1 (Hnd & Hin & Hcalls) _. split_and!; [done| |done].
      intros p Hp. by apply Hin.
    - split_and!; simpl; [apply NoDup_nil_2| |lia].
      intros p Hp. by apply elem_of_nil in Hp. }
  destruct Hend as (Hnd & Hkeys & Hcalls).
  assert (Hlen : length (RunExecutor.invoked st)
                 <= length (OntologyDAG.edges_subclassof ontology_dag)).
  { rewrite <- (length_fmap fst (OntologyDAG.edges_subclassof ontology_dag)).
    apply submseteq_length, NoDup_submseteq; [done|]. exact Hkeys. }
  split_and!; [done|done|done|].
  etrans; [exact Hcalls|]. apply Nat.add_le_mono_l, Nat.mul_le_mono_l, Hlen.
Qed.

Lemma single_strategy_request_budget_witness :
  exists st out,
    RunExecutor.execute_column (scenario_executor "A, B") "table" "| a |" "a"
      scenario_dag 6 (fresh (scenario_env "A, B") tt tt) = Some (st, out)
    /\ length (calls (RunExecutor.sel st))
       <= length (calls (fresh (scenario_env "A, B") tt tt))
          + Z.to_nat (DetailedSelector.max_retries default_selector)
            * length (OntologyDAG.edges_subclassof scenario_dag).
Proof.
  destruct (RunExecutor.execute_column (scenario_executor "A, B") "table"
              "| a |" "a" scenario_dag 6 (fresh (scenario_env "A, B") tt tt))
    as [[st out]|] eqn:Hexec.
  - exists st, out. split; [reflexivity|].
    apply (single_strategy_request_budget (scenario_env "A, B")
             default_selector 3 "table" "| a |" "a" scenario_dag
             (fresh (scenario_env "A, B") tt tt) 6 st out).
    + discriminate.
    + exact Hexec.
  - vm_compute in Hexec. discriminate Hexec.
Defined.

(** ** Runs with the selector [RunExecutor] builds *)

Section clean_runs.
Context {E : Env}.
Context (selector : DetailedSelector.t) (max_depth : Z).
Context (table_name table_markdown column_name : string).
Context (ontology_dag : OntologyDAG.t).

Local Abbreviation self :=
  {| RunExecutor.selector := detailed_selector E selector;
     RunExecutor.max_depth := max_depth |}.
Local Abbreviation visit :=
  (RunExecutor.visit self table_name table_markdown column_name ontology_dag).

Lemma end_path_clean (st : RunExecutor.state (World E)) parent_url current_path :
  clean_inv ontology_dag st ->
  chain ontology_dag (OntologyDAG.root ontology_dag) current_path parent_url ->
  (RunExecutor.steps st = [] -> current_path = []) ->
  clean_inv ontology_dag (RunExecutor.end_path st current_path).
Proof.
  intros (Hs & Hc & Hq & Hp & Hnone) Hchain Hfirst.
  destruct current_path as [|n names]; [done|]. simpl.
  split_and!; [done|done|done| |].
  - apply Forall_app. split; [done|]. apply Forall_singleton. eauto.
  - intros Hsteps. by specialize (Hfirst Hsteps).
Qed.

Lemma cached_select_clean (st st1 : RunExecutor.state (World E)) parent_url
    candidates result :
  map_Forall (fun _ r => SelectionResult.status r = "completed")
    (RunExecutor.selection_cache st) ->
  RunExecutor.cached_select self table_name table_markdown column_name st
    parent_url candidates = (st1, Returned result) ->
  SelectionResult.status result = "completed"
  /\ map_Forall (fun _ r => SelectionResult.status r = "completed")
       (RunExecutor.selection_cache st1).
Proof.
  intros Hcache.
  destruct (cached_select_cases self table_name table_markdown column_name st
              parent_url candidates)
    as [(r & Hhit & Hc)|[(w' & r & _ & Hsel & Hc)|(w' & e & _ & _ & Hc)]];
    rewrite Hc; [| |done].
  - intros [= <- <-]. split; [|done]. by eapply (Hcache parent_url).
  - intros [= <- <-]. simpl in Hsel. apply select_completed in Hsel.
    split; [done|]. simpl. by apply map_Forall_insert_2.
Qed.

Lemma visit_clean (st st' : RunExecutor.state (World E)) level parent_url
    current_path rest o :
  clean_inv ontology_dag st ->
  RunExecutor.queue st = (level, parent_url, current_path) :: rest ->
  visit (RunExecutor.dequeue st rest) level parent_url current_path = (st', o) ->
  clean_inv ontology_dag st'.
Proof.
  intros (Hs & Hc & Hq & Hp & Hnone) Hqueue. rewrite Hqueue in Hq, Hnone.
  apply Forall_cons in Hq as [Hchain Hq]. simpl in Hchain.
  assert (Hfirst : RunExecutor.steps st = [] -> current_path = []).
  { intros Hsteps. destruct (Hnone Hsteps) as [_ Hitems].
    by apply Forall_cons in Hitems as [? _]. }
  assert (Hrest : RunExecutor.steps st = [] ->
                  RunExecutor.final_paths st = []
                  /\ Forall (fun item : nat * string * list string =>
                               item.2 = []) rest).
  { intros Hsteps. destruct (Hnone Hsteps) as [? Hitems]. split; [done|].
    by apply Forall_cons in Hitems as [_ ?]. }
  assert (Hst : clean_inv ontology_dag (RunExecutor.dequeue st rest)) by done.
  destruct (visit_cases self table_name table_markdown column_name ontology_dag
              (RunExecutor.dequeue st rest) level parent_url current_path)
    as [Hv|[(st1 & e & Hcs & Hv)|(st1 & result & step & Hcs & Hstatus & _ & _ & Hv)]].
  - rewrite Hv. intros [= <- _]. by eapply end_path_clean.
  - rewrite Hv. intros [= <- _].
    assert (Hcache : RunExecutor.selection_cache st1
                     = RunExecutor.selection_cache st).
    { destruct (cached_select_cases self table_name table_markdown column_name
                  (RunExecutor.dequeue st rest) parent_url
                  (RunExecutor.candidate_names ontology_dag
                     (od_get_list (OntologyDAG.edges_subclassof ontology_dag)
                        parent_url)))
        as [(r & _ & Hx)|[(w' & r & _ & _ & Hx)|(w' & e' & _ & _ & Hx)]];
        rewrite Hx in Hcs; try discriminate. by injection Hcs as <- _. }
    apply cached_select_keeps in Hcs as (Hs1 & Hp1 & Hq1). simpl in *.
    unfold clean_inv. by rewrite Hs1, Hp1, Hq1, Hcache.
  - pose proof Hcs as Hkeep.
    apply cached_select_clean in Hcs as [Hok Hc1]; [|done].
    apply cached_select_keeps in Hkeep as (Hs1 & Hp1 & Hq1). simpl in *.
    assert (Hst2 : clean_inv ontology_dag
                     (RunExecutor.record_step st1 step current_path)).
    { unfold clean_inv. simpl. rewrite Hs1, Hp1, Hq1. split_and!; try done.
      - apply Forall_app. split; [done|]. apply Forall_singleton. congruence.
      - by intros [_ ?]%app_eq_nil. }
    destruct Hv as [[Hfailed _]|[(_ & _ & Hv)|(_ & _ & Hv)]].
    + by rewrite Hok in Hfailed.
    + rewrite Hv. intros [= <- _]. eapply end_path_clean; [done|done|].
      simpl. by intros [_ ?]%app_eq_nil.
    + rewrite Hv. intros [= <- _].
      destruct Hst2 as (Hs2 & Hc2 & Hq2 & Hp2 & Hnone2).
      split_and!; try done; simpl.
      * apply Forall_app. split; [done|]. apply Forall_forall. intros item Hitem.
        apply expansions_spec in Hitem as (url & node & -> & _ & Hurl & Hnode).
        simpl. by eapply chain_snoc.
      * by intros [_ ?]%app_eq_nil.
Qed.

Lemma initial_clean (w : World E) :
  clean_inv ontology_dag (RunExecutor.initial self ontology_dag w).
Proof.
  split_and!; simpl.
  - done.
  - apply map_Forall_empty.
  - apply Forall_singleton. apply chain_nil.
  - done.
  - intros _. split; [done|]. by apply Forall_singleton.
Qed.

Lemma bfs_loop_clean fuel (st st' : RunExecutor.state (World E)) o :
  clean_inv ontology_dag st ->
  RunExecutor.bfs_loop self table_name table_markdown column_name ontology_dag
    fuel st = Some (st', o) ->
  clean_inv ontology_dag st'.
Proof.
  apply (bfs_loop_invariant self table_name table_markdown column_name
           ontology_dag (clean_inv ontology_dag) (clean_inv ontology_dag)).
  - intros. by eapply visit_clean.
  - intros. by eapply visit_clean.
  - done.
Qed.

(** With the selector [RunExecutor] builds, no selection fails. A run of
    [execute_column] ends, and when it returns, every recorded step is [completed], the
    status of the column is never [partial], and no path carries the mark of
    a terminated branch: every path is the names along a chain of the graph
    from the root. The column is reported [failed], with the error
    [All steps failed], exactly when no step was recorded, and then
    [final_paths] holds the empty path alone; otherwise it is [completed]
    without an error. *)
Theorem detailed_run_status (w : World E) :
  (exists fuel out,
      RunExecutor.execute_column self table_name table_markdown column_name
        ontology_dag fuel w = Some out)
  /\ forall fuel st r,
       RunExecutor.execute_column self table_name table_markdown column_name
         ontology_dag fuel w = Some (st, Returned r) ->
       (forall step, step ∈ ColumnResultDetail.steps r ->
          BFSStepDetail.status step = "completed")
       /\ (forall path, path ∈ ColumnResultDetail.final_paths r ->
             exists u,
               chain ontology_dag (OntologyDAG.root ontology_dag) path u)
       /\ (ColumnResultDetail.steps r = [] ->
           ColumnResultDetail.status r = "failed"
           /\ ColumnResultDetail.error r = Some "All steps failed"
           /\ ColumnResultDetail.final_paths r = [[]])
       /\ (ColumnResultDetail.steps r <> [] ->
           ColumnResultDetail.status r = "completed"
           /\ ColumnResultDetail.error r = None).
Proof.
  split; [apply (execute_column_halts self)|].
  intros fuel st r. unfold RunExecutor.execute_column.
  destruct (RunExecutor.bfs_loop _ _ _ _ _ fuel _) as [[st' [e|]]|] eqn:Hloop;
    try discriminate.
  intros [= -> <-].
  apply bfs_loop_clean in Hloop as (Hs & _ & _ & Hp & Hnone);
    [|apply initial_clean].
  rewrite Forall_forall in Hs. rewrite Forall_forall in Hp.
  unfold RunExecutor.finish. simpl. split_and!.
  - done.
  - intros path. destruct (RunExecutor.final_paths _) as [|p ps] eqn:Hfinal.
    + intros ->%list_elem_of_singleton. eexists. apply chain_nil.
    + intros Hpath. apply Hp. exact Hpath.
  - intros Hsteps. destruct (Hnone Hsteps) as [-> _]. by rewrite Hsteps.
  - intros Hsteps.
    assert (Hall : forall s, s ∈ RunExecutor.steps st ->
                     bool_decide (BFSStepDetail.status s = "failed") = false).
    { intros s Hin. apply bool_decide_eq_false. by rewrite (Hs s Hin). }
    destruct (RunExecutor.steps _) as [|step steps]; [done|].
    assert (Hno : forall l : list BFSStepDetail.t,
               (forall s, s ∈ l ->
                  bool_decide (BFSStepDetail.status s = "failed") = false) ->
               existsb (fun s => bool_decide (BFSStepDetail.status s = "failed"))
                 l = false).
    { induction l as [|s l IH]; intros Hl; simpl; [done|].
      rewrite Hl by apply list_elem_of_here. apply IH.
      intros s' Hs'. apply Hl. by right. }
    cbn [forallb]. rewrite (Hall step) by apply list_elem_of_here.
    cbn [andb]. by rewrite (Hno _ Hall).
Qed.

End clean_runs.

(** ** The earlier traversal *)

Lemma class_names_spec dag urls names :
  Engine.class_names dag urls = inr names ->
  Forall2
    (fun o name =>
       exists node, od_get (OntologyDAG.nodes dag) o = Some node
                    /\ OntologyClass.name node = name)
    urls names.
Proof.
  revert names. induction urls as [|o urls IH]; simpl; intros names.
  - intros [= <-]. constructor.
  - destruct (od_get (OntologyDAG.nodes dag) o) as [node|] eqn:Hnode; [|done].
    destruct (Engine.class_names dag urls) as [f|names']; [done|].
    intros [= <-]. constructor; [eauto|by apply IH].
Qed.

(** What the dictionary of the names holds: under a name, a url of that
    name; and every name has an entry. *)
Lemma class_urls_spec dag urls :
  forall d d',
    Engine.class_urls dag d urls = inr d' ->
    (forall name new_url,
        od_get d' name = Some new_url ->
        od_get d name = Some new_url
        \/ (new_url ∈ urls
            /\ exists node, od_get (OntologyDAG.nodes dag) new_url = Some node
                            /\ OntologyClass.name node = name))
    /\ (forall name, is_Some (od_get d name) -> is_Some (od_get d' name))
    /\ (forall o node,
          o ∈ urls -> od_get (OntologyDAG.nodes dag) o = Some node ->
          is_Some (od_get d' (OntologyClass.name node))).
Proof.
  induction urls as [|o urls IH]; simpl; intros d d'.
  - intros [= <-]. split_and!; [by left|done|].
    intros o node Hin. by apply elem_of_nil in Hin.
  - destruct (od_get (OntologyDAG.nodes dag) o) as [node|] eqn:Hnode; [|done].
    intros Hrest. destruct (IH _ _ Hrest) as (Hfrom & Hkeep & Hall).
    split_and!.
    + intros name new_url Hget. destruct (Hfrom _ _ Hget) as [Hold|[Hin Hn]].
      * rewrite od_get_set in Hold. case_decide as Hname; [|by left].
        injection Hold as <-. right. split; [apply list_elem_of_here|eauto].
      * right. split; [by right|done].
    + intros name Hsome. apply Hkeep. rewrite od_get_set. by case_decide.
    + intros o' node' [->|Hin]%elem_of_cons Hnode'.
      * apply Hkeep. rewrite Hnode in Hnode'. injection Hnode' as <-.
        by rewrite od_get_set_eq.
      * by eapply Hall.
Qed.

Lemma search_expansions_spec dag urls names d level search_path selected item :
  Engine.class_urls dag [] urls = inr d ->
  item ∈ Engine.expansions names d level search_path selected ->
  exists new_url,
    item = (level + 1, new_url, search_path ++ [new_url])
    /\ new_url ∈ urls
    /\ new_url ∈ od_keys (OntologyDAG.nodes dag).
Proof.
  intros Hd. unfold Engine.expansions. rewrite list_elem_of_omap.
  intros (name & _ & Hitem). case_decide; [|done].
  destruct (od_get d name) as [new_url|] eqn:Hget; [|done].
  injection Hitem as <-. exists new_url. split; [done|].
  destruct (class_urls_spec dag urls [] d Hd) as (Hfrom & _).
  destruct (Hfrom _ _ Hget) as [?|(Hin & node & Hnode & _)]; [done|].
  split; [done|]. apply od_get_is_Some. eauto.
Qed.

(** Every selected name that is among the candidates is queued. *)
Lemma search_expansions_complete dag urls names d level search_path selected name :
  Engine.class_names dag urls = inr names ->
  Engine.class_urls dag [] urls = inr d ->
  name ∈ selected -> name ∈ names ->
  exists new_url,
    od_get d name = Some new_url
    /\ (level + 1, new_url, search_path ++ [new_url])
       ∈ Engine.expansions names d level search_path selected.
Proof.
  intros Hnames Hd Hsel Hin.
  apply class_names_spec in Hnames.
  destruct (class_urls_spec dag urls [] d Hd) as (_ & _ & Hall).
  assert (Hsome : is_Some (od_get d name)).
  { apply list_elem_of_lookup in Hin as [i Hi].
    destruct (Forall2_lookup_r _ _ _ _ _ Hnames Hi)
      as (o & Ho & node & Hnode & <-).
    eapply Hall; [|done]. by eapply list_elem_of_lookup_2. }
  destruct Hsome as [new_url Hget]. exists new_url. split; [done|].
  unfold Engine.expansions. apply list_elem_of_omap. exists name.
  split; [done|]. rewrite decide_True by done. by rewrite Hget.
Qed.

Section engine_facts.
Context (table_name table_in_markdown column_name : string).
Context (ontology_dag : OntologyDAG.t).
Context (decision_maker : Engine.DecisionMaker).
Context (max_depth : Z).

Local Abbreviation St := (Engine.dm_state decision_maker).
Local Abbreviation visit :=
  (Engine.visit table_name table_in_markdown column_name ontology_dag
     decision_maker max_depth).
Local Abbreviation bfs_loop :=
  (Engine.bfs_loop table_name table_in_markdown column_name ontology_dag
     decision_maker max_depth).
Local Abbreviation halts :=
  (search_halts table_name table_in_markdown column_name ontology_dag
     decision_maker max_depth).
Local Abbreviation reaches :=
  (search_reaches table_name table_in_markdown column_name ontology_dag
     decision_maker max_depth).
Implicit Types (st : Engine.state St).

(** The ways one iteration can go. *)
Lemma search_visit_cases st level parent search_path :
  ((max_depth <= Z.of_nat level)%Z
   /\ visit st level parent search_path
      = (Engine.push_path st search_path, None))
  \/ ((Z.of_nat level < max_depth)%Z
      /\ ((exists f, visit st level parent search_path = (st, Some f))
          \/ (exists s' e,
                visit st level parent search_path
                = (Engine.called st s', Some (Engine.SelectRaised e)))
          \/ (exists s',
                visit st level parent search_path
                = (Engine.push_path (Engine.called st s') search_path, None))
          \/ visit st level parent search_path
             = (Engine.push_path st search_path, None)
          \/ (exists s' urls names d selected,
                od_get (OntologyDAG.edges ontology_dag) parent = Some urls
                /\ Engine.class_names ontology_dag urls = inr names
                /\ Engine.class_urls ontology_dag [] urls = inr d
                /\ visit st level parent search_path
                   = (Engine.enqueue (Engine.called st s')
                        (Engine.expansions names d level search_path selected),
                      None)))).
Proof.
  unfold Engine.visit. case_bool_decide as Hdepth; [by left|].
  right. split; [lia|].
  destruct (od_get (OntologyDAG.edges ontology_dag) parent) as [[|u urls]|]
    eqn:Hedges; [eauto 10| |eauto 10].
  destruct (Engine.class_names ontology_dag (u :: urls)) as [f|names] eqn:Hnames;
    [eauto 10|].
  destruct (Engine.class_urls ontology_dag [] (u :: urls)) as [f|d] eqn:Hd;
    [eauto 10|].
  destruct (Engine.dm_select _ _ _ _ _ _) as [s' [[result|]|e]];
    [|eauto 10|eauto 10].
  case_decide; [eauto 10|].
  do 4 right. by exists s', (u :: urls), names, d, (split_go ", " 0 result).
Qed.

(** An iteration only appends to the queue, and what it appends is one
    level deeper than the item it handled, which was above [max_depth]. *)
Lemma search_visit_queue st level parent search_path :
  exists new,
    Engine.queue (visit st level parent search_path).1
    = Engine.queue st ++ new
    /\ Forall (fun item => S (search_levels_left max_depth item)
                           <= search_levels_left max_depth
                                (level, parent, search_path))
         new.
Proof.
  destruct (search_visit_cases st level parent search_path)
    as [[_ ->]|[Hlevel [[f ->]|[(s' & e & ->)|[[s' ->]|[->|
         (s' & urls & names & d & selected & _ & _ & Hd & ->)]]]]]];
    simpl; try (exists []; by rewrite app_nil_r).
  eexists. split; [done|]. apply Forall_forall. intros item Hitem.
  eapply search_expansions_spec in Hitem as (new_url & -> & _); [|done].
  unfold search_levels_left. simpl. lia.
Qed.

Lemma search_reaches_halts st st' : reaches st st' -> halts st' -> halts st.
Proof.
  intros [k Hk] (fuel & out & Hout). exists (k + fuel), out. by rewrite Hk.
Qed.

Lemma search_loop_front front :
  forall st behind bound,
    Engine.queue st = front ++ behind ->
    Forall (fun item => search_levels_left max_depth item <= bound) front ->
    halts st
    \/ exists st' new,
         reaches st st'
         /\ Engine.queue st' = behind ++ new
         /\ Forall (fun item => S (search_levels_left max_depth item) <= bound)
              new.
Proof.
  induction front as [|[[level parent] search_path] front IH];
    intros st behind bound Hq Hfront.
  - right. exists st, []. split_and!.
    + by exists 0.
    + by rewrite app_nil_r.
    + done.
  - apply Forall_cons in Hfront as [Hitem Hfront].
    destruct (visit (Engine.dequeue st (front ++ behind)) level parent
                search_path) as [st1 o] eqn:Hvisit.
    destruct o as [f|].
    { left. exists 1, (st1, Some f). simpl. rewrite Hq. simpl. by rewrite Hvisit. }
    destruct (search_visit_queue (Engine.dequeue st (front ++ behind)) level
                parent search_path) as (new & Hq1 & Hnew).
    rewrite Hvisit in Hq1. simpl in Hq1.
    assert (Hstep : reaches st st1).
    { exists 1. intros fuel. simpl. rewrite Hq. simpl. by rewrite Hvisit. }
    destruct (IH st1 (behind ++ new) bound)
      as [Hhalt|(st' & new' & Hreach & Hq' & Hnew')].
    + by rewrite Hq1, <- app_assoc.
    + done.
    + left. by eapply search_reaches_halts.
    + right. exists st', (new ++ new'). split_and!.
      * destruct Hstep as [k1 Hk1], Hreach as [k2 Hk2]. exists (k1 + k2).
        intros fuel. by rewrite <- Nat.add_assoc, Hk1, Hk2.
      * by rewrite Hq', <- app_assoc.
      * apply Forall_app. split; [|done].
        eapply Forall_impl; [exact Hnew|]. simpl. intros; lia.
Qed.

Lemma search_loop_halts bound :
  forall st,
    Forall (fun item => search_levels_left max_depth item <= bound)
      (Engine.queue st) ->
    halts st.
Proof.
  induction bound as [|bound IH]; intros st Hbound.
  - destruct (search_loop_front (Engine.queue st) st [] 0)
      as [?|(st' & new & Hreach & Hq & Hnew)]; [by rewrite app_nil_r|done|done|].
    eapply search_reaches_halts; [done|]. destruct new as [|item new].
    + exists 1, (st', None). simpl. by rewrite Hq.
    + apply Forall_cons in Hnew as [? _]. lia.
  - destruct (search_loop_front (Engine.queue st) st [] (S bound))
      as [?|(st' & new & Hreach & Hq & Hnew)]; [by rewrite app_nil_r|done|done|].
    eapply search_reaches_halts; [done|]. apply IH. rewrite Hq. simpl.
    eapply Forall_impl; [exact Hnew|]. simpl. intros; lia.
Qed.

Lemma bfs_search_halts (s0 : St) :
  exists fuel out,
    Engine.bfs_search table_name table_in_markdown column_name ontology_dag
      decision_maker max_depth fuel s0 = Some out.
Proof.
  destruct (search_loop_halts
              (search_levels_left max_depth (0, OntologyDAG.root ontology_dag, []))
              (Engine.initial ontology_dag decision_maker s0))
    as (fuel & [st o] & Hloop).
  { simpl. by apply Forall_singleton. }
  exists fuel. unfold Engine.bfs_search. rewrite Hloop.
  destruct o; eauto.
Qed.

Lemma search_loop_invariant (P : Engine.state St -> Prop) :
  (forall st level parent search_path rest st' o,
      P st -> Engine.queue st = (level, parent, search_path) :: rest ->
      visit (Engine.dequeue st rest) level parent search_path = (st', o) ->
      P st') ->
  forall fuel st st' o, P st -> bfs_loop fuel st = Some (st', o) -> P st'.
Proof.
  intros Hstep. induction fuel as [|fuel IH]; intros st st' o HP; simpl; [done|].
  destruct (Engine.queue st) as [|[[level parent] search_path] rest] eqn:Hq.
  - by intros [= <- <-].
  - destruct (visit _ _ _ _) as [st1 [f|]] eqn:Hvisit.
    + intros [= <- <-]. by eapply Hstep.
    + intros Hloop. eapply IH; [|done]. by eapply Hstep.
Qed.

Lemma visit_search_inv st level parent search_path rest st' o :
  search_inv ontology_dag max_depth st ->
  Engine.queue st = (level, parent, search_path) :: rest ->
  visit (Engine.dequeue st rest) level parent search_path = (st', o) ->
  search_inv ontology_dag max_depth st'.
Proof.
  intros (Hq & Hp) Hqueue. rewrite Hqueue in Hq.
  apply Forall_cons in Hq as [(Hlen & Hlevel & Htrail) Hq]. simpl in *.
  assert (Hpush : forall s',
            search_inv ontology_dag max_depth
              (Engine.push_path
                 (Engine.called (Engine.dequeue st rest) s') search_path)).
  { intros s'. split; simpl; [done|]. apply Forall_app. split; [done|].
    apply Forall_singleton. split; [lia|eauto]. }
  destruct (search_visit_cases (Engine.dequeue st rest) level parent search_path)
    as [[_ Hv]|[Hdepth [[f Hv]|[(s' & e & Hv)|[[s' Hv]|[Hv|
         (s' & urls & names & d & selected & Hedges & _ & Hd & Hv)]]]]]];
    rewrite Hv; intros [= <- _]; try done.
  - apply (Hpush (Engine.dm st)).
  - apply (Hpush (Engine.dm st)).
  - split; simpl; [|done]. apply Forall_app. split; [done|].
    apply Forall_forall. intros item Hitem.
    eapply search_expansions_spec in Hitem as (new_url & -> & Hin & Hnode);
      [|done].
    simpl. split_and!.
    + rewrite length_app. simpl. lia.
    + lia.
    + eapply trail_snoc; [done| |done]. unfold od_get_list. by rewrite Hedges.
Qed.

End engine_facts.

(** A call of [bfs_search] ends, whatever the graph and the decision maker.
    When it returns, every path has at most [max_depth] urls (none if
    [max_depth] is negative), and its urls are nodes of the graph met along
    the reverse table [edges] from the root: the first is listed in [edges]
    under the root, each other one under the url before it. *)
Theorem bfs_search_paths (table_name table_in_markdown column_name : string)
    (ontology_dag : OntologyDAG.t) (decision_maker : Engine.DecisionMaker)
    (max_depth : Z) (s0 : Engine.dm_state decision_maker) :
  (exists fuel out,
      Engine.bfs_search table_name table_in_markdown column_name ontology_dag
        decision_maker max_depth fuel s0 = Some out)
  /\ forall fuel s paths,
       Engine.bfs_search table_name table_in_markdown column_name ontology_dag
         decision_maker max_depth fuel s0 = Some (s, inr paths) ->
       forall path, path ∈ paths ->
         (Z.of_nat (length path) <= 0 `max` max_depth)%Z
         /\ exists v, trail ontology_dag (OntologyDAG.root ontology_dag) path v.
Proof.
  split; [apply bfs_search_halts|].
  intros fuel s paths. unfold Engine.bfs_search.
  destruct (Engine.bfs_loop _ _ _ _ _ _ fuel _) as [[st [f|]]|] eqn:Hloop;
    try discriminate.
  intros [= <- <-].
  eapply (search_loop_invariant table_name table_in_markdown column_name
            ontology_dag decision_maker max_depth
            (search_inv ontology_dag max_depth)) in Hloop as [_ Hp].
  - intros path Hpath. rewrite Forall_forall in Hp. by apply Hp.
  - intros. by eapply visit_search_inv.
  - split; simpl; [|done]. apply Forall_singleton. simpl.
    split_and!; [done|lia|apply trail_nil].
Qed.

(** The reverse table of a built graph at its root: the root chosen among
    the loaded classes has an empty entry. *)
Lemma build_dag_edges_at_root (classes : list OwlClass) :
  let dag := OntologyDAG.build_dag classes in
  (forall u, u ∈ od_keys (OntologyDAG.edges dag) <-> is_class classes u)
  /\ (OntologyDAG.root dag <> OntologyDAG.Thing_iri ->
      od_get (OntologyDAG.edges dag) (OntologyDAG.root dag) = Some []).
Proof.
  intros dag.
  destruct (collect_classes_collected classes) as (Hn1 & Hn2 & Hkeys & Hedges).
  pose proof (fun u => root_candidates_parentless classes u) as Hcand.
  subst dag. unfold OntologyDAG.build_dag.
  destruct (OntologyDAG.collect_classes classes) as [n0 e0] eqn:Hcol.
  simpl in *.
  destruct (reverse_edges_spec n0 e0 Hn1) as [Hrkeys Hrget].
  assert (Hk : forall u,
            u ∈ od_keys (OntologyDAG.reverse_edges n0 e0) <-> is_class classes u).
  { intros u. by rewrite Hrkeys, Hkeys. }
  destruct (OntologyDAG.root_candidates n0 e0) as [|r1 [|r2 rest]] eqn:Hroots;
    simpl; (split; [done|]); try done.
  intros _.
  assert (Hr : parentless classes r1) by (apply Hcand; apply list_elem_of_here).
  destruct Hr as [Hclass Hnone].
  apply Hk, od_get_is_Some in Hclass as [parents Hget].
  rewrite Hget. f_equal. destruct parents as [|q parents]; [done|].
  exfalso. apply (Hnone q), Hedges.
  assert (Hq : q ∈ od_get_list (OntologyDAG.reverse_edges n0 e0) r1).
  { unfold od_get_list. rewrite Hget. apply list_elem_of_here. }
  apply Hrget in Hq as (_ & children & Hentry & Hchild).
  exists children. split; [|done]. by apply od_get_entry.
Qed.


(** On the graph built from two parentless classes the root is the virtual
    one, and the first subscript of [edges] fails. *)
Example bfs_search_virtual_root :
  Engine.bfs_search "table" "| a |" "a" (OntologyDAG.build_dag two_root_classes)
    (fixed_decision (Some "A")) 3 5 0
  = Some (0, inl (Engine.KeyError OntologyDAG.Thing_iri)).
Proof. vm_compute. reflexivity. Qed.

(** On the built graph of the scenario nothing is asked: the root has no
    parent to go to. *)
Example bfs_search_single_root :
  Engine.bfs_search "table" "| a |" "a"
    (OntologyDAG.build_dag [owl_class "A" []; owl_class "C" ["A"]])
    (fixed_decision (Some "C")) 3 5 0
  = Some (0, inr [[]]).
Proof. vm_compute. reflexivity. Qed.

(** With [edges] read downwards the traversal goes on: an answer naming both
    children of the root, a stranger and [C] leads to [A], and to [C] below
    [B]; the decision maker is asked at the root and at [B]. *)
Example bfs_search_downward :
  Engine.bfs_search "table" "| a |" "a" downward_dag
    (fixed_decision (Some "A, B, X, C")) 3 8 0
  = Some (2, inr [["A"]; ["B"; "C"]]).
Proof. vm_compute. reflexivity. Qed.

(** An answer that names no candidate loses the path: nothing is
    returned. *)
Example bfs_search_loses_path :
  Engine.bfs_search "table" "| a |" "a" downward_dag
    (fixed_decision (Some "X")) 3 8 0
  = Some (1, inr []).
Proof. vm_compute. reflexivity. Qed.

(** ** Paths on a built graph *)

Lemma collect_classes_names classes u node :
  od_get (OntologyDAG.collect_classes classes).1 u = Some node ->
  exists cls, cls ∈ classes /\ cls_iri cls = u
              /\ cls_name cls = OntologyClass.name node.
Proof.
  unfold OntologyDAG.collect_classes.
  assert (Hgen : forall l pre st,
            (forall u node, od_get st.1 u = Some node ->
               exists cls, cls ∈ pre /\ cls_iri cls = u
                           /\ cls_name cls = OntologyClass.name node) ->
            forall u node,
              od_get (foldl OntologyDAG.add_class st l).1 u = Some node ->
              exists cls, cls ∈ pre ++ l /\ cls_iri cls = u
                          /\ cls_name cls = OntologyClass.name node).
  { induction l as [|cls l IH]; intros pre st Hst u' node'; simpl.
    - rewrite app_nil_r. apply Hst.
    - replace (pre ++ cls :: l) with ((pre ++ [cls]) ++ l)
        by (by rewrite <- app_assoc).
      apply IH. clear u' node'. intros u' node'. unfold OntologyDAG.add_class.
      simpl. rewrite od_get_set. case_decide as Hu.
      + intros [= <-]. exists cls. split; [|done].
        apply elem_of_app. right. apply list_elem_of_here.
      + intros Hget. destruct (Hst _ _ Hget) as (cls' & Hin & ?).
        exists cls'. split; [|done]. apply elem_of_app. by left. }
  apply (Hgen classes [] ([], [])). simpl. intros ? ? [=].
Qed.

(** The edges and the nodes of a built graph, read on the classes. *)
Lemma build_dag_attached classes v c :
  c ∈ OntologyDAG.get_children (OntologyDAG.build_dag classes) v ->
  attached classes v c.
Proof.
  destruct (collect_classes_collected classes) as (_ & _ & _ & Hedges).
  pose proof (fun u => root_candidates_parentless classes u) as Hcand.
  unfold OntologyDAG.get_children, OntologyDAG.build_dag.
  destruct (OntologyDAG.collect_classes classes) as [n0 e0]. simpl in *.
  assert (Hplain : c ∈ od_get_list e0 v -> attached classes v c).
  { unfold od_get_list. intros Hin. left. apply Hedges.
    destruct (od_get e0 v) as [cs|] eqn:Hget; [by exists cs|].
    by apply elem_of_nil in Hin. }
  destruct (OntologyDAG.root_candidates n0 e0) as [|r1 [|r2 rest]] eqn:Hroots;
    simpl; [done|done|].
  unfold od_get_list. rewrite od_get_set. case_decide as Hv; [|done].
  simpl. intros Hin. right. split; [done|]. by apply Hcand.
Qed.

Lemma build_dag_named classes c node :
  od_get (OntologyDAG.nodes (OntologyDAG.build_dag classes)) c = Some node ->
  named classes c (OntologyClass.name node).
Proof.
  pose proof (collect_classes_names classes) as Hnames.
  unfold OntologyDAG.build_dag.
  destruct (OntologyDAG.collect_classes classes) as [n0 e0]. simpl in *.
  assert (Hplain : od_get n0 c = Some node ->
                   named classes c (OntologyClass.name node)).
  { intros Hget. left. by apply Hnames. }
  assert (Hthing : od_get (od_set n0 OntologyDAG.Thing_iri OntologyDAG.Thing_node)
                     c = Some node ->
                   named classes c (OntologyClass.name node)).
  { rewrite od_get_set. case_decide as Hc; [|done].
    intros [= <-]. by right. }
  destruct (OntologyDAG.root_candidates n0 e0) as [|r1 [|r2 rest]]; simpl;
    [|done|done].
  by destruct (od_mem n0 OntologyDAG.Thing_iri).
Qed.

Lemma chain_lineage classes u names v :
  chain (OntologyDAG.build_dag classes) u names v -> lineage classes u names v.
Proof.
  induction 1 as [|names v c node _ IH Hchild Hnode]; [constructor|].
  eapply lineage_snoc; [done| |].
  - by apply build_dag_attached.
  - by apply build_dag_named.
Qed.

(** On a graph built by [build_dag], whatever the selector, a run of
    [execute_column] ends, and every path it returns is a lineage of the
    loaded ontology: names of loaded classes, the first attached under the
    root, each other one the name of a class that declares the class before
    it as a parent; classes without a parent hang under the virtual root
    [owl:Thing]. The mark [[terminated]] may follow the names. *)
Theorem built_graph_paths_are_lineages (self : RunExecutor.t)
    (table_name table_markdown column_name : string)
    (classes : list OwlClass)
    (s0 : sel_state (RunExecutor.selector self)) :
  let dag := OntologyDAG.build_dag classes in
  (exists fuel out,
      RunExecutor.execute_column self table_name table_markdown column_name
        dag fuel s0 = Some out)
  /\ forall fuel st r,
       RunExecutor.execute_column self table_name table_markdown column_name
         dag fuel s0 = Some (st, Returned r) ->
       forall path, path ∈ ColumnResultDetail.final_paths r ->
         exists names u,
           lineage classes (OntologyDAG.root dag) names u
           /\ (path = names \/ path = names ++ ["[terminated]"]).
Proof.
  intros dag. split; [apply execute_column_halts|].
  intros fuel st r Hexec. unfold RunExecutor.execute_column in Hexec.
  destruct (RunExecutor.bfs_loop _ _ _ _ _ fuel _) as [[st' [e|]]|] eqn:Hloop;
    try discriminate.
  injection Hexec as -> <-.
  apply bfs_loop_paths_inv in Hloop as (_ & Hp & _);
    [|apply initial_paths_inv].
  rewrite Forall_forall in Hp.
  intros path. unfold RunExecutor.finish. simpl.
  destruct (RunExecutor.final_paths st) as [|p ps] eqn:Hfinal.
  - intros ->%list_elem_of_singleton.
    exists [], (OntologyDAG.root dag). split; [apply lineage_nil|by left].
  - intros Hpath. destruct (Hp path Hpath) as (_ & names & u & Hchain & Hshape).
    exists names, u. split; [|done]. by apply chain_lineage.
Qed.

(** ** C5: memoization and the requests of a run *)

Section parent_requests.
Context {E : Env}.
Context (selector : DetailedSelector.t) (max_depth : Z).
Context (table_name table_markdown column_name : string).
Context (ontology_dag : OntologyDAG.t).

Local Abbreviation self :=
  {| RunExecutor.selector := detailed_selector E selector;
     RunExecutor.max_depth := max_depth |}.
Local Abbreviation visit :=
  (RunExecutor.visit self table_name table_markdown column_name ontology_dag).
Local Abbreviation group_ok :=
  (request_group selector table_name table_markdown column_name ontology_dag).

(** The requests of one call of [select]: in the single strategy at most
    [max_retries], all for the candidates; in the ensemble at most
    [max_retries] for each agent of the result, and none if the call
    raises. *)
Lemma select_requests candidates (w w' : World E) out :
  DetailedSelector.select selector table_name table_markdown column_name
    candidates w = (w', out) ->
  exists new,
    calls w' = calls w ++ new
    /\ if decide (DetailedSelector.mode selector = "edm")
       then match out with
            | Returned result =>
                length new
                <= agents_reported result
                   * Z.to_nat (DetailedSelector.max_retries selector)
            | Raised _ => new = []
            end
       else length new <= Z.to_nat (DetailedSelector.max_retries selector)
            /\ Forall
                 (fun data =>
                    data = DetailedSelector.data_for table_name table_markdown
                             column_name candidates)
                 new.
Proof.
  unfold DetailedSelector.select. case_decide as Hmode.
  - unfold DetailedSelector.select_edm. destruct candidates as [|c0 cs].
    { intros [= <- <-]. exists []. rewrite app_nil_r. split; [done|]. simpl. lia. }
    case_decide.
    { intros [= <- <-]. exists []. by rewrite app_nil_r. }
    unfold DetailedSelector.bind.
    pose proof (assign_classes_keeps (c0 :: cs)
                  (DetailedSelector.num_agents_for selector (c0 :: cs))
                  (EDMOptions.agents_per_class
                     (DetailedSelector.edm_options selector)) w)
      as (_ & Hkeep & _).
    destruct (DetailedSelector._assign_classes_to_agents _ _ _ w)
      as [w1 [assignments|e]]; simpl in Hkeep.
    2:{ intros [= <- <-]. exists []. by rewrite app_nil_r. }
    destruct (collect_votes_calls selector table_name table_markdown
                column_name (c0 :: cs) assignments w1)
      as (new & Hcalls & Hlen & _).
    destruct (collect_votes_spec selector table_name table_markdown
                column_name (c0 :: cs) assignments w1)
      as (w2 & r & edm & Hcv & Hedm & _ & _ & Htotal & _).
    rewrite Hcv in Hcalls |- *. simpl in Hcalls. intros [= <- <-].
    exists new. split; [by rewrite Hcalls, Hkeep|].
    unfold agents_reported. rewrite Hedm. simpl. by rewrite Htotal.
  - unfold DetailedSelector.select_single. destruct candidates as [|c0 cs].
    { intros [= <- <-]. exists []. rewrite app_nil_r. split; [done|].
      split; [simpl; lia|done]. }
    unfold DetailedSelector._call_llm_with_retry.
    pose proof (attempt_loop_spec selector
                  (DetailedSelector.data_for table_name table_markdown
                     column_name (c0 :: cs))
                  (Z.to_nat (DetailedSelector.max_retries selector)) 0 None w)
      as Hspec.
    destruct (DetailedSelector.attempt_loop selector _ _ None w)
      as [w1 [response|last]]; simpl; intros [= <- <-].
    + destruct Hspec as (j & Hj & Hcalls & _). eexists. split; [exact Hcalls|].
      rewrite length_replicate. split; [lia|]. apply Forall_replicate. done.
    + destruct Hspec as (Hcalls & _). eexists. split; [exact Hcalls|].
      rewrite length_replicate. split; [lia|]. apply Forall_replicate. done.
Qed.

(** An iteration leaves the selector, its log and the cache alone, or it
    calls [select] once, on the names of the children of a parent that was
    not cached, and caches what it returns. *)
Lemma visit_call (st st' : RunExecutor.state (World E)) level parent_url
    current_path o :
  visit st level parent_url current_path = (st', o) ->
  (RunExecutor.sel st' = RunExecutor.sel st
   /\ RunExecutor.invoked st' = RunExecutor.invoked st
   /\ RunExecutor.selection_cache st' = RunExecutor.selection_cache st)
  \/ (RunExecutor.selection_cache st !! parent_url = None
      /\ RunExecutor.invoked st' = RunExecutor.invoked st ++ [parent_url]
      /\ exists out,
           DetailedSelector.select selector table_name table_markdown
             column_name
             (RunExecutor.candidate_names ontology_dag
                (OntologyDAG.get_children ontology_dag parent_url))
             (RunExecutor.sel st)
           = (RunExecutor.sel st', out)
           /\ match out with
              | Returned result =>
                  RunExecutor.selection_cache st'
                  = <[parent_url := result]> (RunExecutor.selection_cache st)
                  /\ o = None
              | Raised e =>
                  RunExecutor.selection_cache st'
                  = RunExecutor.selection_cache st
                  /\ o = Some e
              end).
Proof.
  intros Hvisit. unfold OntologyDAG.get_children.
  destruct (visit_cases self table_name table_markdown column_name ontology_dag
              st level parent_url current_path)
    as [Hv|[(st1 & e & Hcs & Hv)|(st1 & result & step & Hcs & _ & _ & _ & Hv)]].
  - rewrite Hv in Hvisit. injection Hvisit as <- <-. left.
    by destruct current_path.
  - rewrite Hv in Hvisit. injection Hvisit as <- <-.
    destruct (cached_select_cases self table_name table_markdown column_name
                st parent_url
                (RunExecutor.candidate_names ontology_dag
                   (od_get_list (OntologyDAG.edges_subclassof ontology_dag)
                      parent_url)))
      as [(r & _ & Hc)|[(s' & r & _ & _ & Hc)|(s' & e' & Hnone & Hsel & Hc)]];
      rewrite Hc in Hcs; try discriminate.
    injection Hcs as <- <-. right. split; [done|]. split; [done|].
    exists (Raised e'). simpl in Hsel |- *. by rewrite Hsel.
  - assert (Hst' : RunExecutor.sel st' = RunExecutor.sel st1
                   /\ RunExecutor.invoked st' = RunExecutor.invoked st1
                   /\ RunExecutor.selection_cache st'
                      = RunExecutor.selection_cache st1
                   /\ o = None).
    { destruct Hv as [[_ Hv]|[(_ & _ & Hv)|(_ & _ & Hv)]];
        rewrite Hv in Hvisit; injection Hvisit as <- <-; try done.
      by destruct current_path. }
    destruct Hst' as (-> & -> & -> & ->).
    destruct (cached_select_cases self table_name table_markdown column_name
                st parent_url
                (RunExecutor.candidate_names ontology_dag
                   (od_get_list (OntologyDAG.edges_subclassof ontology_dag)
                      parent_url)))
      as [(r & _ & Hc)|[(s' & r & Hnone & Hsel & Hc)|(s' & e' & _ & _ & Hc)]];
      rewrite Hc in Hcs; try discriminate.
    + injection Hcs as <- <-. by left.
    + injection Hcs as <- <-. right. split; [done|]. split; [done|].
      exists (Returned r). simpl in Hsel |- *. by rewrite Hsel.
Qed.

(** Caching a result for an uncached parent leaves the groups of the
    cached parents as they were. *)
Lemma request_groups_insert (cache : gmap string SelectionResult.t)
    parent_url result invoked groups :
  cache !! parent_url = None ->
  (forall p, p ∈ invoked -> is_Some (cache !! p)) ->
  Forall2 (group_ok cache) invoked groups ->
  Forall2 (group_ok (<[parent_url := result]> cache)) invoked groups.
Proof.
  intros Hnone Hcached Hall.
  induction Hall as [|p g invoked groups Hg _ IH]; [constructor|].
  constructor.
  - unfold request_group in *. case_decide; [|done].
    rewrite lookup_insert_ne; [done|].
    intros <-. destruct (Hcached parent_url) as [? Hp];
      [apply list_elem_of_here|congruence].
  - apply IH. intros q Hq. apply Hcached. by right.
Qed.

Lemma visit_requests (w0 : World E) (st st' : RunExecutor.state (World E))
    level parent_url current_path o :
  memo_inv selector table_name table_markdown column_name ontology_dag w0 st ->
  visit st level parent_url current_path = (st', o) ->
  NoDup (RunExecutor.invoked st')
  /\ requests_inv selector table_name table_markdown column_name ontology_dag
       w0 st'
  /\ (o = None ->
      forall p, p ∈ RunExecutor.invoked st' ->
                is_Some (RunExecutor.selection_cache st' !! p)).
Proof.
  intros (Hnd & Hcached & groups & Hcalls & Hgroups) Hvisit.
  apply visit_call in Hvisit
    as [(Hsel & Hinv & Hcache)|(Hnone & Hinv & out & Hsel & Hcache)].
  { rewrite Hinv. split_and!; [done| |by rewrite Hcache].
    exists groups. by rewrite Hsel, Hinv, Hcache. }
  assert (Hnd' : NoDup (RunExecutor.invoked st ++ [parent_url])).
  { apply NoDup_app. split_and!; [done| |apply NoDup_singleton].
    intros p Hp ->%list_elem_of_singleton.
    apply Hcached in Hp as [? Hp]. congruence. }
  destruct (select_requests _ _ _ _ Hsel) as (new & Hnew & Hbound).
  assert (Hcache' :
    RunExecutor.selection_cache st'
    = match out with
      | Returned result =>
          <[parent_url := result]> (RunExecutor.selection_cache st)
      | Raised _ => RunExecutor.selection_cache st
      end).
  { by destruct out as [result|e]; destruct Hcache. }
  rewrite Hinv. split_and!; [done| |].
  - exists (groups ++ [new]). split.
    + rewrite Hnew, Hcalls, concat_app. simpl.
      by rewrite app_nil_r, <- app_assoc.
    + rewrite Hinv, Hcache'. apply Forall2_app.
      * destruct out as [result|e]; [|done].
        by apply request_groups_insert.
      * constructor; [|constructor]. unfold request_group.
        case_decide; [|done]. destruct out as [result|e].
        -- by rewrite lookup_insert_eq.
        -- by rewrite Hnone.
  - intros ->. destruct out as [result|e]; [|by destruct Hcache].
    rewrite Hcache'. intros p [Hp| ->%list_elem_of_singleton]%elem_of_app.
    + rewrite lookup_insert.
      destruct (decide (parent_url = p)); [eauto|by apply Hcached].
    + rewrite lookup_insert_eq. eauto.
Qed.

End parent_requests.


